(** * Vampire job engine: a shallow embedding of the worker, the Claude
      provider's stream parser, the GitHub service and the routes.

    Sources embedded here:
    - [apps/server/src/worker.ts]          ([runWorker], [exec], [isCancelled],
      [cancelWorker])
    - the Claude provider ([runAgent], [processLine]) and the provider registry
    - the GitHub service ([createIssue], [createPR], [getRemoteUrl])
    - the routes of the jobs, of the projects and of the providers

    Conventions.  A JavaScript string is a Rocq [string] holding the bytes of
    its UTF-8 form, as the text stands in the source file; a lone surrogate,
    which only a cut inside a character or an escape can produce, is held as
    the three bytes of its code unit.  [trim] strips the white space and the
    line terminators of ECMAScript, [units] and [slice0] count UTF-16 code
    units as [length] and [slice] do, and searching for a text goes by bytes,
    which finds the same occurrences.  Everything the code obtains from
    outside (results of child processes, the job table, the clock, the file
    system) is supplied by an environment [Env] that answers each request as
    a function of the whole history of earlier requests, so that a statement
    quantified over [Env] covers every behaviour of the outside world. *)

From Stdlib Require Import String Ascii List ZArith Lia Bool Arith DecimalString.
Import ListNotations.
Local Open Scope list_scope.
Local Open Scope string_scope.
Set Warnings "-register-all".

(* ===================================================================== *)
(** ** JavaScript strings *)
(* ===================================================================== *)

Module JS.

Definition LF : string := String (ascii_of_nat 10) EmptyString.
Definition DQ : string := String (ascii_of_nat 34) EmptyString.

(** A string is truthy when it is not empty. *)
Definition nonempty (s : string) : bool :=
  match s with EmptyString => false | _ => true end.

Definition byte (c : ascii) : nat := nat_of_ascii c.

(** The white space and the line terminators that [String.prototype.trim]
    removes, by the bytes of their UTF-8 form.  In one byte: U+0009 to
    U+000D and U+0020. *)
Definition is_ws (c : ascii) : bool :=
  let n := byte c in
  ((9 <=? n)%nat && (n <=? 13)%nat) || (n =? 32)%nat.

(** In two bytes: U+00A0. *)
Definition is_ws2 (a b : ascii) : bool :=
  (byte a =? 194)%nat && (byte b =? 160)%nat.

(** In three bytes: U+1680; U+2000 to U+200A, U+2028, U+2029 and U+202F;
    U+205F; U+3000; U+FEFF. *)
Definition is_ws3 (a b c : ascii) : bool :=
  let x := byte a in
  let y := byte b in
  let z := byte c in
  ((x =? 225) && (y =? 154) && (z =? 128))%nat
  || ((x =? 226) && (y =? 128)
      && (((128 <=? z) && (z <=? 138)) || (z =? 168) || (z =? 169) || (z =? 175)))%nat
  || ((x =? 226) && (y =? 129) && (z =? 159))%nat
  || ((x =? 227) && (y =? 128) && (z =? 128))%nat
  || ((x =? 239) && (y =? 187) && (z =? 191))%nat.

Fixpoint trimStart (s : string) : string :=
  match s with
  | EmptyString => EmptyString
  | String a r =>
      if is_ws a then trimStart r
      else
        match r with
        | EmptyString => s
        | String b r2 =>
            if is_ws2 a b then trimStart r2
            else
              match r2 with
              | EmptyString => s
              | String c r3 => if is_ws3 a b c then trimStart r3 else s
              end
        end
  end.

(** Nothing but white space and line terminators. *)
Fixpoint all_ws (s : string) : bool :=
  match s with
  | EmptyString => true
  | String a r =>
      if is_ws a then all_ws r
      else
        match r with
        | EmptyString => false
        | String b r2 =>
            if is_ws2 a b then all_ws r2
            else
              match r2 with
              | EmptyString => false
              | String c r3 => if is_ws3 a b c then all_ws r3 else false
              end
        end
  end.

Fixpoint trimEnd (s : string) : string :=
  match s with
  | EmptyString => EmptyString
  | String c r => if all_ws s then EmptyString else String c (trimEnd r)
  end.

Definition trim (s : string) : string := trimEnd (trimStart s).

(** The first [n] bytes. *)
Fixpoint take (n : nat) (s : string) : string :=
  match n, s with
  | S n', String c r => String c (take n' r)
  | _, _ => EmptyString
  end.

(** A byte that continues a character, and the first byte of a character of
    four bytes. *)
Definition is_cont (c : ascii) : bool := ((128 <=? byte c) && (byte c <? 192))%nat.
Definition is_lead4 (c : ascii) : bool := (240 <=? byte c)%nat.

(** [s.length], the number of UTF-16 code units: two for a character of
    four bytes, one for any other. *)
Fixpoint units (s : string) : nat :=
  match s with
  | EmptyString => 0
  | String c r => (if is_cont c then 0 else if is_lead4 c then 2 else 1) + units r
  end.

(** The high surrogate of the character of four bytes that starts with
    [a], [b], [c], as the three bytes of that code unit. *)
Definition high_surrogate (a b c : ascii) : string :=
  let h := 216 * 256 + ((byte a mod 8) * 256 + (byte b mod 64) * 4 + (byte c mod 64) / 16 - 64) in
  String (ascii_of_nat 237)
    (String (ascii_of_nat (128 + (h / 64) mod 64))
       (String (ascii_of_nat (128 + h mod 64)) EmptyString)).

(** [s.slice(0, n)]: the first [n] code units.  When the cut falls inside a
    character of four bytes, its high surrogate is kept. *)
Fixpoint slice0 (n : nat) (s : string) : string :=
  match s with
  | EmptyString => EmptyString
  | String a r =>
      if is_cont a then String a (slice0 n r)
      else
        match n with
        | O => EmptyString
        | S n1 =>
            if is_lead4 a then
              match n1 with
              | O =>
                  match r with
                  | String b (String c _) => high_surrogate a b c
                  | _ => EmptyString
                  end
              | S n2 => String a (slice0 n2 r)
              end
            else String a (slice0 n1 r)
        end
  end.

Fixpoint drop (n : nat) (s : string) : string :=
  match n, s with
  | S n', String _ r => drop n' r
  | _, _ => s
  end.

Fixpoint starts_with (p s : string) : bool :=
  match p, s with
  | EmptyString, _ => true
  | String a p', String b s' => Ascii.eqb a b && starts_with p' s'
  | String _ _, EmptyString => false
  end.

(** [find needle s]: the text before the first occurrence of [needle] in [s]
    and the text after it. *)
Fixpoint find (needle s : string) : option (string * string) :=
  if starts_with needle s then Some (EmptyString, drop (String.length needle) s)
  else match s with
       | EmptyString => None
       | String c r =>
           match find needle r with
           | Some (before, after) => Some (String c before, after)
           | None => None
           end
       end.

(** [s.includes(needle)] *)
Definition includes (s needle : string) : bool :=
  match find needle s with Some _ => true | None => false end.

(** [s.split('\n')]: the first segment and the following ones; the result of
    [split] is never empty. *)
Fixpoint split_nl (s : string) : string * list string :=
  match s with
  | EmptyString => (EmptyString, [])
  | String c r =>
      let '(h, t) := split_nl r in
      if Ascii.eqb c (ascii_of_nat 10) then (EmptyString, h :: t)
      else (String c h, t)
  end.

(** Of the segments of [s.split('\n')], all but the last are complete lines
    and the last is the text after the final line feed. *)
Definition complete_lines (s : string) : list string :=
  let '(h, t) := split_nl s in removelast (h :: t).

Definition remainder (s : string) : string :=
  let '(h, t) := split_nl s in last (h :: t) EmptyString.

(** The text of several chunks, one after the other. *)
Definition concat (chunks : list string) : string :=
  fold_right append EmptyString chunks.

(** [s.replace(/\n$/, '')]: one line feed at the very end is removed. *)
Fixpoint strip_final_lf (s : string) : string :=
  match s with
  | EmptyString => EmptyString
  | String c r =>
      match r with
      | EmptyString => if Ascii.eqb c (ascii_of_nat 10) then EmptyString else s
      | _ => String c (strip_final_lf r)
      end
  end.

(** [s.replace('T', ' ')]: the first occurrence only. *)
Fixpoint replace_first (c d : ascii) (s : string) : string :=
  match s with
  | EmptyString => EmptyString
  | String x r => if Ascii.eqb x c then String d r else String x (replace_first c d r)
  end.

Fixpoint join (sep : string) (l : list string) : string :=
  match l with
  | [] => EmptyString
  | [x] => x
  | x :: r => x ++ sep ++ join sep r
  end.

(** [String(n)] for an integer that a row holds as an id or an issue number:
    its decimal digits.  (From 10^21 on, far beyond such a number, the
    runtime prints an exponent.) *)
Definition of_Z (z : Z) : string := NilZero.string_of_int (Z.to_int z).
Definition of_nat (n : nat) : string := NilZero.string_of_uint (Nat.to_uint n).

End JS.

(* ===================================================================== *)
(** ** JavaScript values obtained from [JSON.parse] *)
(* ===================================================================== *)

(** A number keeps the text it was written with; what the runtime does with
    numbers is part of [Platform] below. *)
Inductive JSVal : Type :=
| JUndefined
| JNull
| JBool (b : bool)
| JNum (lexeme : string)
| JStr (s : string)
| JArr (items : list JSVal)
| JObj (fields : list (string * JSVal)).

(** What the code takes from the JavaScript runtime rather than defines. *)
Record Platform : Type := {
  JSON_parse : string -> option JSVal;      (* [None]: a SyntaxError is thrown *)
  JSON_stringify : JSVal -> string;
  Number_toString : string -> string;
  Number_truthy : string -> bool;
  Number_gt : JSVal -> nat -> bool;         (* [ToNumber(v) > n] *)
  numeric_add : JSVal -> JSVal -> JSVal;    (* [a + b] when neither is a string or an object *)
  path_join : list string -> string
}.

(** Errors that can be thrown, with the place they come from. *)
Inductive Thrown : Type :=
| ErrCancelled                               (* [new Error('cancelled')] at a checkpoint *)
| ErrNoChanges                               (* [new Error('no changes after retries')] *)
| ErrFatalBranch (baseBranch : string)
| ErrUnknownProvider (name : string)
| ErrExec (message : string)                 (* [execFileAsync] rejected *)
| ErrAgentExit (code : option Z)             (* the agent closed with a code other than 0 *)
| ErrAgentSpawn (message : string)           (* the child emitted ['error'] *)
| ErrDb (message : string)                   (* a prisma call rejected *)
| ErrFs (message : string)                   (* [readFileSync] threw *)
| ErrType (message : string).                (* a TypeError raised by the runtime *)

Inductive Completion (A : Type) : Type :=
| Normal (a : A)
| Throw (e : Thrown).
Arguments Normal {A} a.
Arguments Throw {A} e.

Module Val.
Section WithPlatform.
Variable P : Platform.

Definition truthy (v : JSVal) : bool :=
  match v with
  | JUndefined | JNull => false
  | JBool b => b
  | JNum l => Number_truthy P l
  | JStr s => JS.nonempty s
  | JArr _ | JObj _ => true
  end.

(** [v === 'literal'] *)
Definition is_str (v : JSVal) (lit : string) : bool :=
  match v with JStr s => String.eqb s lit | _ => false end.

(** Own property of an object literal; a later duplicate key wins. *)
Fixpoint lookup (key : string) (fields : list (string * JSVal)) : JSVal :=
  match fields with
  | [] => JUndefined
  | (k, v) :: rest =>
      match lookup key rest with
      | JUndefined => if String.eqb k key then v else JUndefined
      | later => later
      end
  end.

(** [v.key]; [None] is the TypeError of reading a property of [null] or
    [undefined]. *)
Definition get (v : JSVal) (key : string) : option JSVal :=
  match v with
  | JUndefined | JNull => None
  | JObj fields => Some (lookup key fields)
  | JStr s => Some (if String.eqb key "length" then JNum (JS.of_nat (JS.units s)) else JUndefined)
  | JArr xs => Some (if String.eqb key "length" then JNum (JS.of_nat (List.length xs)) else JUndefined)
  | JBool _ | JNum _ => Some JUndefined
  end.

(** [v?.key] *)
Definition get_opt (v : JSVal) (key : string) : JSVal :=
  match get v key with Some x => x | None => JUndefined end.

(** [a || b] *)
Definition or_else (a b : JSVal) : JSVal := if truthy a then a else b.

(** [String(v)], as used by template literals and by [+] on strings. *)
Fixpoint ToString (v : JSVal) : string :=
  match v with
  | JUndefined => "undefined"
  | JNull => "null"
  | JBool true => "true"
  | JBool false => "false"
  | JNum l => Number_toString P l
  | JStr s => s
  | JArr xs =>
      JS.join "," (map (fun x => match x with
                                 | JUndefined | JNull => EmptyString
                                 | _ => ToString x
                                 end) xs)
  | JObj _ => "[object Object]"
  end.

(** [a + b] *)
Definition plus (a b : JSVal) : JSVal :=
  match a, b with
  | (JStr _ | JArr _ | JObj _), _ | _, (JStr _ | JArr _ | JObj _) =>
      JStr (ToString a ++ ToString b)
  | _, _ => numeric_add P a b
  end.

End WithPlatform.
End Val.

(* ===================================================================== *)
(** ** The child process of the agent, as seen from the server *)
(* ===================================================================== *)

Inductive ProcEvent : Type :=
| Stdout (chunk : string)                    (* ['data'] on stdout, after [chunk.toString()] *)
| Stderr (chunk : string).                   (* ['data'] on stderr, after [chunk.toString()] *)

Inductive AgentEnd : Type :=
| Close (code : option Z)                    (* ['close']; no code when killed by a signal *)
| Failed (message : string).                 (* ['error'] *)

Record AgentRun : Type := {
  events : list ProcEvent;
  ending : AgentEnd
}.

(* ===================================================================== *)
(** ** The Claude provider: [runAgent] and its line parser *)
(* ===================================================================== *)

Module Claude.

Definition coAuthor : string := "Claude <noreply@anthropic.com>".

(** The arguments [spawn('claude', ...)] is called with. *)
Definition spawn_args (prompt : string) : list string :=
  ["-p"; "--dangerously-skip-permissions";
   "--output-format"; "stream-json"; "--verbose";
   prompt].

Section Provider.
Variable P : Platform.
Context {S : Type}.

(** [StreamCallbacks]: a callback runs on the caller's state [S] and may
    throw. *)
Record StreamCallbacks : Type := {
  onToolUse : JSVal -> JSVal -> S -> Completion unit * S;
  onText : JSVal -> S -> Completion unit * S
}.
Variable callbacks : StreamCallbacks.

(** The variables captured by the promise executor of [runAgent]. *)
Record Parser : Type := {
  finalResult : JSVal;
  lineBuf : string;
  user : S
}.

Definition set_lineBuf (b : string) (st : Parser) : Parser :=
  {| finalResult := finalResult st; lineBuf := b; user := user st |}.

(** [for (const block of event.message.content) { ... }]; a throw inside the
    loop leaves it, and [processLine] swallows it. *)
Fixpoint each_block (blocks : list JSVal) (lb : string) (fr : JSVal) (s : S) : Parser :=
  match blocks with
  | [] => {| finalResult := fr; lineBuf := lb; user := s |}
  | block :: rest =>
      match Val.get block "type" with
      | None => {| finalResult := fr; lineBuf := lb; user := s |}
      | Some ty =>
          if Val.is_str ty "tool_use" then
            match onToolUse callbacks (Val.get_opt block "name")
                    (Val.or_else P (Val.get_opt block "input") (JObj [])) s with
            | (Normal _, s') => each_block rest lb fr s'
            | (Throw _, s') => {| finalResult := fr; lineBuf := lb; user := s' |}
            end
          else if Val.is_str ty "text" && Val.truthy P (Val.get_opt block "text") then
            let fr' := Val.plus P fr (Val.get_opt block "text") in
            match onText callbacks (Val.get_opt block "text") s with
            | (Normal _, s') => each_block rest lb fr' s'
            | (Throw _, s') => {| finalResult := fr'; lineBuf := lb; user := s' |}
            end
          else each_block rest lb fr s
      end
  end.

Definition processLine (line : string) (st : Parser) : Parser :=
  if negb (JS.nonempty (JS.trim line)) then st
  else
    match JSON_parse P line with
    | None => st
    | Some event =>
        match Val.get event "type" with
        | None => st
        | Some ty =>
            let content := Val.get_opt (Val.get_opt event "message") "content" in
            if Val.is_str ty "assistant" && Val.truthy P content then
              match content with
              | JArr blocks => each_block blocks (lineBuf st) (finalResult st) (user st)
              | _ => st
              end
            else if Val.is_str ty "result" then
              if Val.truthy P (Val.get_opt event "result")
              then {| finalResult := Val.get_opt event "result";
                      lineBuf := lineBuf st; user := user st |}
              else st
            else st
        end
    end.

Definition processLines (lines : list string) (st : Parser) : Parser :=
  fold_left (fun acc line => processLine line acc) lines st.

(** [child.stdout.on('data', ...)] *)
Definition onStdout (chunk : string) (st : Parser) : Parser :=
  let '(h, t) := JS.split_nl (lineBuf st ++ chunk) in
  let lines := h :: t in
  processLines (removelast lines) (set_lineBuf (last lines EmptyString) st).

(** [child.stderr.on('data', ...)].  With the callbacks the worker installs
    [onText] never throws on a string (see [WorkerFacts.onText_string_normal]). *)
Definition onStderr (chunk : string) (st : Parser) : Parser :=
  let text := JS.trim chunk in
  if JS.nonempty text
  then {| finalResult := finalResult st; lineBuf := lineBuf st;
          user := snd (onText callbacks (JStr text) (user st)) |}
  else st.

Definition onEvent (st : Parser) (ev : ProcEvent) : Parser :=
  match ev with
  | Stdout chunk => onStdout chunk st
  | Stderr chunk => onStderr chunk st
  end.

(** [child.on('close', ...)] *)
Definition onClose (code : option Z) (st : Parser) : Completion JSVal * S :=
  let st' := if JS.nonempty (JS.trim (lineBuf st)) then processLine (lineBuf st) st else st in
  match code with
  | Some 0%Z => (Normal (finalResult st'), user st')
  | _ => (Throw (ErrAgentExit code), user st')
  end.

Definition start (s : S) : Parser :=
  {| finalResult := JStr EmptyString; lineBuf := EmptyString; user := s |}.

Definition feed (evs : list ProcEvent) (st : Parser) : Parser :=
  fold_left onEvent evs st.

(** The promise [result] of the handle [runAgent] returns, for a child that
    behaves as [run]. *)
Definition runAgent (run : AgentRun) (s : S) : Completion JSVal * S :=
  let st := feed (events run) (start s) in
  match ending run with
  | Close code => onClose code st
  | Failed message => (Throw (ErrAgentSpawn message), user st)
  end.

End Provider.

(** Callbacks that only write down how they were called. *)
Inductive Call : Type :=
| CallToolUse (name input : JSVal)
| CallText (text : JSVal).

Definition recorder : StreamCallbacks (S := list Call) :=
  {| onToolUse := fun name input s => (Normal tt, (s ++ [CallToolUse name input])%list);
     onText := fun text s => (Normal tt, (s ++ [CallText text])%list) |}.

End Claude.

(* ===================================================================== *)
(** ** A reference platform *)
(* ===================================================================== *)

(** An executable reading of the JSON grammar and of the few runtime
    operations of [Platform], used to run the model on concrete inputs.  It
    agrees with the runtime on JSON text whose numbers are plain decimal
    integers below 2^53, which a double holds exactly; the general theorems
    below are stated for every [Platform]. *)
Module Json.

Definition code (c : ascii) : nat := nat_of_ascii c.

Definition is_json_ws (c : ascii) : bool :=
  let n := code c in
  (n =? 32)%nat || (n =? 9)%nat || (n =? 10)%nat || (n =? 13)%nat.

Fixpoint skip_ws (s : string) : string :=
  match s with
  | String c r => if is_json_ws c then skip_ws r else s
  | EmptyString => EmptyString
  end.

Definition is_digit (c : ascii) : bool :=
  ((48 <=? code c)%nat && (code c <=? 57)%nat).

Definition hex_val (c : ascii) : option nat :=
  let n := code c in
  if ((48 <=? n) && (n <=? 57))%nat then Some (n - 48)%nat
  else if ((97 <=? n) && (n <=? 102))%nat then Some (n - 87)%nat
  else if ((65 <=? n) && (n <=? 70))%nat then Some (n - 55)%nat
  else None.

Definition chr (n : nat) : string := String (ascii_of_nat n) EmptyString.

(** UTF-8 bytes of a code unit given by a [\uXXXX] escape. *)
Definition utf8 (n : nat) : string :=
  if (n <? 128)%nat then chr n
  else if (n <? 2048)%nat then chr (192 + n / 64) ++ chr (128 + n mod 64)
  else chr (224 + n / 4096) ++ chr (128 + (n / 64) mod 64) ++ chr (128 + n mod 64).

(** A high surrogate [h] followed by a low surrogate [l] is one character of
    four bytes: [hi] and [lo] are their offsets from U+D800 and U+DC00. *)
Definition is_high (n : nat) : bool := ((216 * 256 <=? n) && (n <? 220 * 256))%nat.
Definition is_low (n : nat) : bool := ((220 * 256 <=? n) && (n <? 224 * 256))%nat.

Definition utf8_pair (h l : nat) : string :=
  let hi := (h - 216 * 256)%nat in
  let lo := (l - 220 * 256)%nat in
  (* the code point is [65536 + hi * 1024 + lo] *)
  chr (240 + (64 + hi) / 256)
  ++ chr (128 + ((64 + hi) / 4) mod 64)
  ++ chr (128 + ((64 + hi) mod 4) * 16 + lo / 64)
  ++ chr (128 + lo mod 64).

(** The code unit of a [\uXXXX] escape at the head of [s], and what
    follows it. *)
Definition escape_unit (s : string) : option nat :=
  match s with
  | String bs (String u (String h1 (String h2 (String h3 (String h4 _))))) =>
      if ((code bs =? 92) && (code u =? 117))%nat then
        match hex_val h1, hex_val h2, hex_val h3, hex_val h4 with
        | Some a, Some b, Some c', Some d => Some (((a * 16 + b) * 16 + c') * 16 + d)
        | _, _, _, _ => None
        end
      else None
  | _ => None
  end.

Definition simple_escape (e : ascii) : option ascii :=
  let n := code e in
  if (n =? 34)%nat then Some e                        (* escaped quote *)
  else if (n =? 92)%nat then Some e                   (* escaped backslash *)
  else if (n =? 47)%nat then Some e                   (* escaped slash *)
  else if (n =? 98)%nat then Some (ascii_of_nat 8)    (* b *)
  else if (n =? 102)%nat then Some (ascii_of_nat 12)  (* f *)
  else if (n =? 110)%nat then Some (ascii_of_nat 10)  (* n *)
  else if (n =? 114)%nat then Some (ascii_of_nat 13)  (* r *)
  else if (n =? 116)%nat then Some (ascii_of_nat 9)   (* t *)
  else None.

Definition prepend (p : string) (r : option (string * string)) : option (string * string) :=
  match r with
  | Some (body, rest) => Some (p ++ body, rest)
  | None => None
  end.

(** The characters of a string literal after its opening quote, and the text
    after its closing quote. *)
Fixpoint string_body (s : string) : option (string * string) :=
  match s with
  | EmptyString => None
  | String c r =>
      if (code c =? 34)%nat then Some (EmptyString, r)
      else if (code c =? 92)%nat then
        match r with
        | EmptyString => None
        | String e r1 =>
            match simple_escape e with
            | Some ch => prepend (String ch EmptyString) (string_body r1)
            | None =>
                if (code e =? 117)%nat then
                  match r1 with
                  | String h1 (String h2 (String h3 (String h4 r2))) =>
                      match hex_val h1, hex_val h2, hex_val h3, hex_val h4 with
                      | Some a, Some b, Some c', Some d =>
                          let n := ((a * 16 + b) * 16 + c') * 16 + d in
                          match (if is_high n then escape_unit r2 else None), r2 with
                          | Some l, String _ (String _ (String _ (String _ (String _
                                      (String _ r3))))) =>
                              if is_low l then prepend (utf8_pair n l) (string_body r3)
                              else prepend (utf8 n) (string_body r2)
                          | _, _ => prepend (utf8 n) (string_body r2)
                          end
                      | _, _, _, _ => None
                      end
                  | _ => None
                  end
                else None
            end
        end
      else if (code c <? 32)%nat then None
      else prepend (String c EmptyString) (string_body r)
  end.

Fixpoint digits (s : string) : string * string :=
  match s with
  | String c r =>
      if is_digit c then let '(d, rest) := digits r in (String c d, rest)
      else (EmptyString, s)
  | EmptyString => (EmptyString, EmptyString)
  end.

(** The text of a number and what follows it. *)
Definition number (s : string) : option (string * string) :=
  let '(sign, s1) :=
    match s with
    | String c r => if (code c =? 45)%nat then ("-", r) else (EmptyString, s)
    | EmptyString => (EmptyString, s)
    end in
  let '(int, s2) :=
    match s1 with
    | String c r => if (code c =? 48)%nat then ("0", r) else digits s1
    | EmptyString => (EmptyString, s1)
    end in
  if negb (JS.nonempty int) then None
  else
    let frac :=
      match s2 with
      | String c r =>
          if (code c =? 46)%nat then
            let '(d, rest) := digits r in
            if JS.nonempty d then Some ("." ++ d, rest) else None
          else Some (EmptyString, s2)
      | EmptyString => Some (EmptyString, s2)
      end in
    match frac with
    | None => None
    | Some (fr, s3) =>
        let expo :=
          match s3 with
          | String c r =>
              if ((code c =? 101) || (code c =? 69))%nat then
                let '(sg, r') :=
                  match r with
                  | String c2 r2 =>
                      if ((code c2 =? 43) || (code c2 =? 45))%nat
                      then (String c2 EmptyString, r2) else (EmptyString, r)
                  | EmptyString => (EmptyString, r)
                  end in
                let '(d, rest) := digits r' in
                if JS.nonempty d then Some (String c sg ++ d, rest) else None
              else Some (EmptyString, s3)
          | EmptyString => Some (EmptyString, s3)
          end in
        match expo with
        | None => None
        | Some (ex, s4) => Some (sign ++ int ++ fr ++ ex, s4)
        end
    end.

Fixpoint value (fuel : nat) (s : string) : option (JSVal * string) :=
  match fuel with
  | O => None
  | Datatypes.S f =>
      match skip_ws s with
      | EmptyString => None
      | String c r =>
          let n := code c in
          if (n =? 123)%nat then                      (* an object *)
            match skip_ws r with
            | String c1 r1 =>
                if (code c1 =? 125)%nat then Some (JObj [], r1)
                else members f (String c1 r1) []
            | EmptyString => None
            end
          else if (n =? 91)%nat then                  (* an array *)
            match skip_ws r with
            | String c1 r1 =>
                if (code c1 =? 93)%nat then Some (JArr [], r1)
                else elements f (String c1 r1) []
            | EmptyString => None
            end
          else if (n =? 34)%nat then
            match string_body r with
            | Some (body, rest) => Some (JStr body, rest)
            | None => None
            end
          else if JS.starts_with "true" (String c r) then Some (JBool true, JS.drop 4 (String c r))
          else if JS.starts_with "false" (String c r) then Some (JBool false, JS.drop 5 (String c r))
          else if JS.starts_with "null" (String c r) then Some (JNull, JS.drop 4 (String c r))
          else
            match number (String c r) with
            | Some (lexeme, rest) => Some (JNum lexeme, rest)
            | None => None
            end
      end
  end
with elements (fuel : nat) (s : string) (acc : list JSVal) : option (JSVal * string) :=
  match fuel with
  | O => None
  | Datatypes.S f =>
      match value f s with
      | None => None
      | Some (v, rest) =>
          match skip_ws rest with
          | String c r =>
              if (code c =? 44)%nat then elements f r (acc ++ [v])%list
              else if (code c =? 93)%nat then Some (JArr (acc ++ [v])%list, r)
              else None
          | EmptyString => None
          end
      end
  end
with members (fuel : nat) (s : string) (acc : list (string * JSVal)) : option (JSVal * string) :=
  match fuel with
  | O => None
  | Datatypes.S f =>
      match skip_ws s with
      | String c r =>
          if (code c =? 34)%nat then
            match string_body r with
            | None => None
            | Some (key, r1) =>
                match skip_ws r1 with
                | String c2 r2 =>
                    if (code c2 =? 58)%nat then
                      match value f r2 with
                      | None => None
                      | Some (v, r3) =>
                          match skip_ws r3 with
                          | String c3 r4 =>
                              if (code c3 =? 44)%nat then members f r4 (acc ++ [(key, v)])%list
                              else if (code c3 =? 125)%nat then Some (JObj (acc ++ [(key, v)])%list, r4)
                              else None
                          | EmptyString => None
                          end
                      end
                    else None
                | EmptyString => None
                end
            end
          else None
      | EmptyString => None
      end
  end.

Definition parse (s : string) : option JSVal :=
  match value (2 * String.length s + 2) s with
  | Some (v, rest) =>
      match skip_ws rest with
      | EmptyString => Some v
      | _ => None
      end
  | None => None
  end.

(** Numbers written as plain decimal integers. *)
Fixpoint all_digits (s : string) : bool :=
  match s with
  | EmptyString => true
  | String c r => is_digit c && all_digits r
  end.

Fixpoint nat_of_digits (acc : nat) (s : string) : nat :=
  match s with
  | EmptyString => acc
  | String c r => nat_of_digits (10 * acc + (code c - 48)) r
  end.

Definition nat_of_lexeme (l : string) : option nat :=
  if JS.nonempty l && all_digits l then Some (nat_of_digits 0 l) else None.

Fixpoint has_nonzero_digit (s : string) : bool :=
  match s with
  | EmptyString => false
  | String c r =>
      if ((code c =? 101) || (code c =? 69))%nat then false
      else ((49 <=? code c)%nat && (code c <=? 57)%nat) || has_nonzero_digit r
  end.

Definition hex_digit (n : nat) : string :=
  chr (if (n <? 10)%nat then 48 + n else 87 + n).

Definition quote_char (c : ascii) : string :=
  let n := code c in
  if (n =? 34)%nat then "\" ++ JS.DQ
  else if (n =? 92)%nat then "\\"
  else if (n =? 8)%nat then "\b"
  else if (n =? 12)%nat then "\f"
  else if (n =? 10)%nat then "\n"
  else if (n =? 13)%nat then "\r"
  else if (n =? 9)%nat then "\t"
  else if (n <? 32)%nat then "\u00" ++ hex_digit (n / 16) ++ hex_digit (n mod 16)
  else String c EmptyString.

(** A lone surrogate, held as the three bytes of its code unit, is written
    as its escape. *)
Definition surrogate_escape (b c : ascii) : string :=
  "\ud" ++ hex_digit ((code b / 4) mod 16)
  ++ hex_digit ((code b mod 4) * 4 + (code c / 16) mod 4) ++ hex_digit (code c mod 16).

Fixpoint quote_body (s : string) : string :=
  match s with
  | EmptyString => EmptyString
  | String c r =>
      let n := code c in
      match r with
      | String b (String d r2) =>
          if ((n =? 237) && (160 <=? code b))%nat
          then surrogate_escape b d ++ quote_body r2
          else quote_char c ++ quote_body r
      | _ => quote_char c ++ quote_body r
      end
  end.

Definition quote (s : string) : string := JS.DQ ++ quote_body s ++ JS.DQ.

Fixpoint stringify (v : JSVal) : string :=
  match v with
  | JUndefined => "undefined"
  | JNull => "null"
  | JBool true => "true"
  | JBool false => "false"
  | JNum l => l
  | JStr s => quote s
  | JArr xs =>
      "[" ++ JS.join "," (map (fun x => match x with
                                        | JUndefined => "null"
                                        | _ => stringify x
                                        end) xs) ++ "]"
  | JObj fields =>
      "{" ++ JS.join ","
               (map (fun kv => quote (fst kv) ++ ":" ++ stringify (snd kv)) fields) ++ "}"
  end.

Definition platform : Platform :=
  {| JSON_parse := parse;
     JSON_stringify := stringify;
     Number_toString := fun l => l;
     Number_truthy := has_nonzero_digit;
     Number_gt := fun v n =>
       match v with
       | JNum l | JStr l =>
           match nat_of_lexeme l with Some m => (n <? m)%nat | None => false end
       | JBool true => (n <? 1)%nat
       | _ => false
       end;
     numeric_add := fun a b =>
       match a, b with
       | JNum x, JNum y =>
           match nat_of_lexeme x, nat_of_lexeme y with
           | Some m, Some k => JNum (JS.of_nat (m + k))
           | _, _ => JNum "NaN"
           end
       | _, _ => JNum "NaN"
       end;
     path_join := JS.join "/" |}.

End Json.

(* ===================================================================== *)
(** ** Extraction of the change description *)
(* ===================================================================== *)

Module PrBody.

Definition START : string := "---PR_BODY_START---".
Definition END_ : string := "---PR_BODY_END---".

(** [output.match(/---PR_BODY_START---\n([\s\S]*?)\n---PR_BODY_END---/)?.[1]]:
    the match starts at the first [START] that is followed by a line feed, and
    the lazy group stops at the first line feed followed by [END_]. *)
Definition group1 (output : string) : option string :=
  match JS.find (START ++ JS.LF) output with
  | None => None
  | Some (_, rest) =>
      match JS.find (JS.LF ++ END_) rest with
      | None => None
      | Some (body, _) => Some body
      end
  end.

(** [prBodyMatch?.[1]?.trim() || null] *)
Definition extract (output : string) : option string :=
  match group1 output with
  | None => None
  | Some body =>
      let t := JS.trim body in
      if JS.nonempty t then Some t else None
  end.

(** The description synthesized when nothing was extracted. *)
Definition fallback (issueNo : option Z) : string :=
  match issueNo with
  | None => "_Auto-generated by Vampire_"
  | Some n => "Resolves #" ++ JS.of_Z n ++ JS.LF ++ JS.LF ++ "_Auto-generated by Vampire_"
  end.

Definition prBody (issueNo : option Z) (output : string) : string :=
  match extract output with
  | Some body => body
  | None => fallback issueNo
  end.

End PrBody.

(* ===================================================================== *)
(** ** The worker *)
(* ===================================================================== *)

Module Worker.

(** *** Inputs *)

Record Job : Type := {
  id : Z;
  issueNo : option Z;
  type : string;
  description : option string;
  issueTitle : option string
}.

Record Project : Type := {
  baseBranch : string;
  path : string;
  prompt : option string;
  provider : option string
}.

Record FollowUpContext : Type := {
  branch : string;
  message : string;
  previousDiff : option string
}.

Record WorkerResult : Type := {
  status : string;
  r_branch : option string;
  r_prBody : option string;
  r_prTitle : option string;
  r_diff : option string
}.

(** *** The outside world *)

Inductive ExecResult : Type :=
| ExecOk (stdout : string)
| ExecFail (message : string).

(** [prisma.job.findUnique({ select: { status: true } })] *)
Inductive StatusRead : Type :=
| ReadFails
| NoSuchJob
| Status (s : string).

(** The [data] of the last [prisma.job.update]. *)
Inductive FinalData : Type :=
| Settled (status log : string) (branch prBody prTitle diff : option string)
| StatusAndLog (status log : string).

Inductive Action : Type :=
| AExec (cmd : string) (args : list string) (cwd : option string) (r : ExecResult)
| AFindStatus (r : StatusRead)
| AUpdateTitle (title : string) (failure : option string)
| AExistsSync (file : string) (r : bool)
| AReadFile (file : string) (r : option string)
| ASpawn (cmd : string) (args : list string) (cwd : string) (run : AgentRun)
| ARm (dir : string) (ok : bool)
| AUpdateFinal (data : FinalData) (ok : bool).

Definition History : Type := list Action.

Record Env : Type := {
  env_exec : History -> string -> list string -> option string -> ExecResult;
  env_findStatus : History -> StatusRead;
  env_updateTitle : History -> string -> option string;   (* [Some m]: rejected with [m] *)
  env_updateFinal : History -> FinalData -> bool;
  env_now : History -> string;                            (* [new Date().toISOString()] *)
  env_Date_now : History -> Z;
  env_tmpdir : string;
  env_existsSync : History -> string -> bool;
  env_readFileSync : History -> string -> option string;  (* [None]: it throws *)
  env_agent : History -> string -> string -> AgentRun;    (* by prompt and cwd *)
  env_rm : History -> string -> bool
}.

(** *** The variables of [runWorker] and the monad of its body *)

Record WState : Type := {
  trace : History;
  logBuffer : string;
  emitted : list (string * string);          (* [logEmitter.emit(topic, payload)] *)
  cloneDir : option string
}.

Definition M (A : Type) : Type := WState -> Completion A * WState.

Definition ret {A} (a : A) : M A := fun st => (Normal a, st).

Definition bind {A B} (m : M A) (f : A -> M B) : M B :=
  fun st =>
    match m st with
    | (Normal a, st') => f a st'
    | (Throw e, st') => (Throw e, st')
    end.

Definition throw {A} (e : Thrown) : M A := fun st => (Throw e, st).

(** [try { m } catch (err) { handler err }] *)
Definition try_catch {A} (m : M A) (handler : Thrown -> M A) : M A :=
  fun st =>
    match m st with
    | (Normal a, st') => (Normal a, st')
    | (Throw e, st') => handler e st'
    end.

(** [try { m } finally { f }] for an [f] that completes normally. *)
Definition finally {A} (m : M A) (f : WState -> WState) : M A :=
  fun st => let '(c, st') := m st in (c, f st').

(** [try { m } catch (_) {}] *)
Definition attempt (m : M unit) : M unit := try_catch m (fun _ => ret tt).

Declare Scope worker_scope.
Delimit Scope worker_scope with worker.
Notation "x <- m ;; k" := (bind m (fun x => k))
  (at level 100, m at next level, right associativity) : worker_scope.
Notation "m ;;; k" := (bind m (fun _ => k))
  (at level 100, right associativity) : worker_scope.
Local Open Scope worker_scope.

Definition record (a : Action) (st : WState) : WState :=
  {| trace := (trace st ++ [a])%list; logBuffer := logBuffer st;
     emitted := emitted st; cloneDir := cloneDir st |}.

Definition message_of (e : Thrown) : string :=
  match e with
  | ErrCancelled => "cancelled"
  | ErrNoChanges => "no changes after retries"
  | ErrFatalBranch base => "FATAL: current branch is " ++ base ++ ". Aborting push."
  | ErrUnknownProvider name => "Unknown provider: " ++ name
  | ErrExec m | ErrAgentSpawn m | ErrDb m | ErrFs m | ErrType m => m
  | ErrAgentExit (Some c) => "Claude exited with code " ++ JS.of_Z c
  | ErrAgentExit None => "Claude exited with code null"
  end.

(** [a || b] on nullable strings. *)
Definition or_str (a : option string) (b : string) : string :=
  match a with
  | Some s => if JS.nonempty s then s else b
  | None => b
  end.

(** [a || null] *)
Definition or_null (a : option string) : option string :=
  match a with
  | Some s => if JS.nonempty s then Some s else None
  | None => None
  end.

Definition MAX_RETRY : nat := 2.

Section Run.
Variable P : Platform.
Variable env : Env.
Variable job : Job.
Variable project : Project.
Variable followUp : option FollowUpContext.

Definition topic : string := "job:" ++ JS.of_Z (id job).

(** [log(text)].  The debounced flush writes only the [log] column, on a
    timer, and swallows its errors; it is left out. *)
Definition log (text : string) : M unit :=
  fun st =>
    (Normal tt,
     {| trace := trace st;
        logBuffer := logBuffer st ++ text ++ JS.LF;
        emitted := (emitted st ++ [(topic, (text ++ JS.LF)%string)])%list;
        cloneDir := cloneDir st |}).

(** [exec(cmd, args, opts)] *)
Definition exec (cmd : string) (args : list string) (cwd : option string) : M string :=
  fun st =>
    let r := env_exec env (trace st) cmd args cwd in
    let st' := record (AExec cmd args cwd r) st in
    match r with
    | ExecOk stdout => (Normal (JS.trim stdout), st')
    | ExecFail m => (Throw (ErrExec m), st')
    end.

(** [isCancelled(prisma, jobId)] *)
Definition isCancelled : M bool :=
  fun st =>
    let r := env_findStatus env (trace st) in
    (Normal (match r with
             | Status s => String.eqb s "cancelled"
             | NoSuchJob | ReadFails => false
             end),
     record (AFindStatus r) st).

(** [if (await isCancelled(prisma, job.id)) throw new Error('cancelled')] *)
Definition checkpoint : M unit :=
  c <- isCancelled ;;
  if c then throw ErrCancelled else ret tt.

Definition updateTitle (title : string) : M unit :=
  fun st =>
    let r := env_updateTitle env (trace st) title in
    (match r with None => Normal tt | Some m => Throw (ErrDb m) end,
     record (AUpdateTitle title r) st).

Definition existsSync (file : string) : M bool :=
  fun st =>
    let r := env_existsSync env (trace st) file in
    (Normal r, record (AExistsSync file r) st).

Definition readFileSync (file : string) : M string :=
  fun st =>
    let r := env_readFileSync env (trace st) file in
    (match r with Some text => Normal text | None => Throw (ErrFs "readFileSync failed") end,
     record (AReadFile file r) st).

Definition set_cloneDir (dir : string) : M unit :=
  fun st =>
    (Normal tt,
     {| trace := trace st; logBuffer := logBuffer st;
        emitted := emitted st; cloneDir := Some dir |}).

Definition now : M string := fun st => (Normal (env_now env (trace st)), st).
Definition Date_now : M Z := fun st => (Normal (env_Date_now env (trace st)), st).

(** [getProvider(name)]: the registry holds ['claude'] only. *)
Definition getProvider (name : string) : M unit :=
  if String.eqb name "claude" then ret tt else throw (ErrUnknownProvider name).

Definition isFollowUp : bool := match followUp with Some _ => true | None => false end.
Definition isDirect : bool := match issueNo job with Some _ => false | None => true end.
Definition issueNoStr : string :=
  match issueNo job with Some n => JS.of_Z n | None => "null" end.
Definition jobIdStr : string := JS.of_Z (id job).
Definition projectRoot : option string := Some (path project).

(** *** The callbacks handed to the provider *)

Definition type_error {A} (what : string) : M A := throw (ErrType what).

(** [`${input[key] || dflt}`] *)
Definition field_or (input : JSVal) (key dflt : string) : M string :=
  match Val.get input key with
  | None => type_error "Cannot read properties of undefined"
  | Some v => ret (Val.ToString P (Val.or_else P v (JStr dflt)))
  end.

Definition worker_onToolUse (name input : JSVal) : M unit :=
  if Val.is_str name "Read" then
    (f <- field_or input "file_path" "" ;; log ("▸ Reading: " ++ f))
  else if Val.is_str name "Edit" then
    (f <- field_or input "file_path" "" ;; log ("▸ Editing: " ++ f))
  else if Val.is_str name "Write" then
    (f <- field_or input "file_path" "" ;; log ("▸ Writing: " ++ f))
  else if Val.is_str name "Bash" then
    match Val.get input "command" with
    | None => type_error "Cannot read properties of undefined"
    | Some c =>
        let cmd := Val.or_else P c (JStr "") in
        match cmd with
        | JStr s =>
            log ("▸ Running: " ++
                 (if (120 <? JS.units s)%nat then JS.slice0 120 s ++ "..." else s))
        | JArr xs =>
            log ("▸ Running: " ++
                 (if (120 <? List.length xs)%nat
                  then Val.ToString P (JArr (firstn 120 xs)) ++ "..."
                  else Val.ToString P cmd))
        | _ =>
            match Val.get_opt cmd "length" with
            | JUndefined => log ("▸ Running: " ++ Val.ToString P cmd)
            | len =>
                if Number_gt P len 120
                then type_error "cmd.slice is not a function"
                else log ("▸ Running: " ++ Val.ToString P cmd)
            end
        end
    end
  else if Val.is_str name "Grep" then
    (p <- field_or input "pattern" "" ;;
     d <- field_or input "path" "." ;;
     log ("▸ Searching: " ++ JS.DQ ++ p ++ JS.DQ ++ " in " ++ d))
  else if Val.is_str name "Glob" then
    (p <- field_or input "pattern" "" ;; log ("▸ Finding files: " ++ p))
  else
    match input with
    | JUndefined => type_error "Cannot read properties of undefined"
    | _ => log ("▸ " ++ Val.ToString P name ++ ": " ++ JS.slice0 100 (JSON_stringify P input))
    end.

Definition worker_onText (text : JSVal) : M unit :=
  match text with
  | JStr s => log (JS.strip_final_lf s)
  | _ => type_error "text.replace is not a function"
  end.

Definition callbacks : Claude.StreamCallbacks (S := WState) :=
  {| Claude.onToolUse := worker_onToolUse; Claude.onText := worker_onText |}.

(** [provider.runAgent({ prompt, cwd, callbacks })] followed by
    [await handle.result]. *)
Definition runAgent (prompt cwd : string) : M JSVal :=
  fun st =>
    let run := env_agent env (trace st) prompt cwd in
    Claude.runAgent P callbacks run
      (record (ASpawn "claude" (Claude.spawn_args prompt) cwd run) st).

(** *** Stage 1: the task and its branch *)

Record Task : Type := {
  t_title : string;                          (* [issueTitle] *)
  t_body : string;                           (* [issueBody] *)
  t_branch : string                          (* [branchName] *)
}.

Definition banner : M unit :=
  log "========================================" ;;;
  log ("  Vampire — " ++
       (if isDirect then "Direct #" ++ jobIdStr else "Issue #" ++ issueNoStr) ++
       (if isFollowUp then " (Follow-up)" else "")) ;;;
  iso <- now ;;
  log ("  " ++ JS.slice0 19 (JS.replace_first "T" " " iso)) ;;;
  log "========================================" ;;;
  log "".

Definition numbered_title : string :=
  if isDirect then type job ++ " #" ++ jobIdStr else type job ++ " #" ++ issueNoStr.

Definition resolve : M Task :=
  match followUp with
  | Some fu =>
      let branchName := branch fu in
      let title := or_str (issueTitle job) numbered_title in
      log "[1/5] Follow-up on existing branch..." ;;;
      log ("  Branch: " ++ branchName) ;;;
      log ("  Feedback: " ++ JS.slice0 100 (message fu) ++
           (if (100 <? JS.units (message fu))%nat then "..." else "")) ;;;
      log "" ;;;
      ret {| t_title := title; t_body := ""; t_branch := branchName |}
  | None =>
      match issueNo job with
      | None =>
          log "[1/5] Direct mode — using provided description..." ;;;
          let title := or_str (issueTitle job) (type job ++ " #" ++ jobIdStr) in
          let body := or_str (description job) "" in
          let branchName := type job ++ "/" ++ jobIdStr in
          log ("  Title:  " ++ title) ;;;
          log ("  Type:   " ++ type job) ;;;
          log ("  Branch: " ++ branchName) ;;;
          log "" ;;;
          ret {| t_title := title; t_body := body; t_branch := branchName |}
      | Some n =>
          log ("[1/5] Reading issue #" ++ JS.of_Z n ++ "...") ;;;
          title <- exec "gh" ["issue"; "view"; JS.of_Z n; "--json"; "title"; "-q"; ".title"]
                     projectRoot ;;
          body <- exec "gh" ["issue"; "view"; JS.of_Z n; "--json"; "body"; "-q"; ".body"]
                    projectRoot ;;
          let branchName := type job ++ "/" ++ JS.of_Z n in
          updateTitle title ;;;
          log ("  Title:  " ++ title) ;;;
          log ("  Type:   " ++ type job) ;;;
          log ("  Branch: " ++ branchName) ;;;
          log "" ;;;
          ret {| t_title := title; t_body := body; t_branch := branchName |}
      end
  end.

(** *** Stage 2: fetch *)

Definition fetch (t : Task) : M unit :=
  log "[2/5] Fetching latest..." ;;;
  exec "git" ["fetch"; "origin"; baseBranch project] projectRoot ;;;
  if isFollowUp
  then attempt (exec "git" ["fetch"; "origin"; t_branch t] projectRoot ;;; ret tt)
  else ret tt.

(** *** Stage 3: the clean workspace *)

Record Workspace : Type := {
  w_remoteUrl : string;
  w_dir : string
}.

Definition workspace (t : Task) : M Workspace :=
  log "[3/5] Creating clean workspace..." ;;;
  remoteUrl <- exec "git" ["remote"; "get-url"; "origin"] projectRoot ;;
  ms <- Date_now ;;
  let dir := path_join P
               [env_tmpdir env;
                if isDirect then "vampire-direct-" ++ jobIdStr ++ "-" ++ JS.of_Z ms
                else "vampire-" ++ issueNoStr ++ "-" ++ JS.of_Z ms] in
  set_cloneDir dir ;;;
  (if isFollowUp then
     exec "git" ["clone"; path project; dir; "--branch"; baseBranch project;
                 "--no-tags"; "--quiet"] None ;;;
     exec "git" ["remote"; "set-url"; "origin"; remoteUrl] (Some dir) ;;;
     exec "git" ["fetch"; "origin"; t_branch t] (Some dir) ;;;
     exec "git" ["checkout"; "-b"; t_branch t; "origin/" ++ t_branch t] (Some dir) ;;;
     ret tt
   else
     exec "git" ["clone"; path project; dir; "--branch"; baseBranch project;
                 "--single-branch"; "--no-tags"; "--quiet"] None ;;;
     exec "git" ["remote"; "set-url"; "origin"; remoteUrl] (Some dir) ;;;
     attempt (lsRemote <- exec "git" ["ls-remote"; "--heads"; "origin"; t_branch t] (Some dir) ;;
              if JS.includes lsRemote (t_branch t)
              then log ("  Remote branch '" ++ t_branch t ++ "' already exists. Will force push.")
              else ret tt) ;;;
     exec "git" ["checkout"; "-b"; t_branch t] (Some dir) ;;;
     ret tt) ;;;
  log ("  Workspace: " ++ dir) ;;;
  log "" ;;;
  ret {| w_remoteUrl := remoteUrl; w_dir := dir |}.

(** *** Stage 4: the prompt *)

Definition lines (l : list string) : string := JS.join JS.LF l.

Definition taskRef (t : Task) : string :=
  if isDirect then "Task: " ++ t_title t
  else "GitHub Issue #" ++ issueNoStr ++ ": " ++ t_title t.

Definition basePrompt (t : Task) : string :=
  match followUp with
  | Some fu =>
      lines
        [taskRef t;
         "";
         "── Previous work ──";
         "Code was previously modified for this " ++ (if isDirect then "task" else "issue") ++
           " and pushed to branch " ++ t_branch t ++ ".";
         (match or_null (previousDiff fu) with
          | Some d => JS.LF ++ "Previous changes (diff):" ++ JS.LF ++ JS.slice0 3000 d ++ JS.LF
          | None => ""
          end);
         "";
         "── Feedback / Change request ──";
         message fu;
         "";
         "── Instructions ──";
         "Apply the feedback above by modifying the code.";
         "You must build on top of the existing changes on this branch.";
         "Do not just analyze — you must actually edit files."]
  | None =>
      if isDirect then
        lines
          ["Task: " ++ t_title t;
           "";
           t_body t;
           "";
           "── Instructions ──";
           "You must write code and modify files to complete the task above.";
           "Do not just analyze or explain — actually create or edit files.";
           "If the task is ambiguous, use your best judgment to implement a solution."]
      else
        lines
          ["GitHub Issue #" ++ issueNoStr ++ ": " ++ t_title t;
           "";
           t_body t;
           "";
           "── Instructions ──";
           "You must write code and modify files to resolve the issue above.";
           "Do not just analyze or explain — actually create or edit files.";
           "If the issue is ambiguous, use your best judgment to implement a solution."]
  end.

Definition projectRules : string :=
  match or_null (prompt project) with
  | Some extraPrompt => JS.LF ++ JS.LF ++ "── Project rules ──" ++ JS.LF ++ extraPrompt
  | None => ""
  end.

Definition prInstructions (w : Workspace) : M string :=
  let prTemplatePath := path_join P [w_dir w; ".github"; "PULL_REQUEST_TEMPLATE.md"] in
  found <- existsSync prTemplatePath ;;
  if found then
    prTpl <- readFileSync prTemplatePath ;;
    ret (JS.LF ++ JS.LF ++
         lines
           ["After all code changes are complete, output the PR body in this format:";
            "";
            "Between `---PR_BODY_START---` and `---PR_BODY_END---`, fill in the PR template below.";
            "Keep the template structure and replace placeholders with details about this work.";
            "";
            "---PR_BODY_START---";
            prTpl;
            "---PR_BODY_END---"])
  else if isDirect then
    ret (JS.LF ++ JS.LF ++
         lines
           ["After all code changes are complete, output the PR body in this format:";
            "";
            "Between `---PR_BODY_START---` and `---PR_BODY_END---`, write the PR body.";
            "Include what changed and how to verify.";
            "";
            "---PR_BODY_START---";
            "## Changes";
            "(describe changes)";
            "";
            "## How to verify";
            "(verification steps)";
            "---PR_BODY_END---"])
  else
    ret (JS.LF ++ JS.LF ++
         lines
           ["After all code changes are complete, output the PR body in this format:";
            "";
            "Between `---PR_BODY_START---` and `---PR_BODY_END---`, write the PR body.";
            "The issue number is #" ++ issueNoStr ++ ". Include what changed and how to verify.";
            "";
            "---PR_BODY_START---";
            "Resolves #" ++ issueNoStr;
            "";
            "## Changes";
            "(describe changes)";
            "";
            "## How to verify";
            "(verification steps)";
            "---PR_BODY_END---"]).

Definition buildPrompt (t : Task) (w : Workspace) : M string :=
  tail <- prInstructions w ;;
  ret (basePrompt t ++ projectRules ++ tail).

Definition retryPrompt (t : Task) (claudeOutput : JSVal) : string :=
  lines
    [taskRef t;
     "";
     t_body t;
     "";
     "── Previous attempt result ──";
     "The previous attempt did not produce any file changes.";
     "";
     "Previous agent response:";
     Val.ToString P claudeOutput;
     "";
     "── Retry instructions ──";
     "Analyze why the previous attempt failed, then try a different approach to " ++
       (if isDirect then "complete the task" else "resolve the issue") ++ ".";
     "You MUST modify files. Do not just analyze — actually change the code.";
     "If the problem is complex, take a step-by-step approach."]
  ++ projectRules.

(** *** Stage 4: the agent, retried while it changes nothing *)

(** The change check after an agent run. *)
Definition checkChanges (w : Workspace) : M bool :=
  try_catch
    (exec "git" ["diff"; "--quiet"] (Some (w_dir w)) ;;;
     exec "git" ["diff"; "--cached"; "--quiet"] (Some (w_dir w)) ;;;
     untracked <- exec "git" ["ls-files"; "--others"; "--exclude-standard"] (Some (w_dir w)) ;;
     ret (0 <? String.length untracked)%nat)
    (fun _ => ret true).

Definition commentBody : string :=
  "Vampire: Attempted " ++ JS.of_nat MAX_RETRY ++
  " times but could not produce changes. Please make the issue description more specific.".

Definition commentArgs (w : Workspace) : list string :=
  ["issue"; "comment"; issueNoStr; "--body"; commentBody; "--repo"; w_remoteUrl w].

(** [for (let attempt = 1; attempt <= MAX_RETRY + 1; attempt++) { ... }], by
    the number of iterations that remain. *)
Fixpoint attempts (remaining attempt_no : nat) (t : Task) (w : Workspace)
    (prompt0 : string) (claudeOutput : JSVal) : M JSVal :=
  match remaining with
  | O => ret claudeOutput
  | Datatypes.S remaining' =>
      checkpoint ;;;
      currentPrompt <-
        (if (attempt_no =? 1)%nat then ret prompt0
         else
           log "" ;;;
           log ("[4/5] Retry #" ++ JS.of_nat (attempt_no - 1) ++
                " — analyzing previous failure and retrying...") ;;;
           log "────────────────────────────────────────" ;;;
           ret (retryPrompt t claudeOutput)) ;;
      output <- runAgent currentPrompt (w_dir w) ;;
      log "" ;;;
      log "────────────────────────────────────────" ;;;
      hasChanges <- checkChanges w ;;
      if hasChanges then ret output
      else if (MAX_RETRY <? attempt_no)%nat then
        log "" ;;;
        log ("No changes detected after " ++ JS.of_nat MAX_RETRY ++ " retries.") ;;;
        (if isDirect then ret tt
         else attempt (exec "gh" (commentArgs w) (Some (w_dir w)) ;;; ret tt)) ;;;
        throw ErrNoChanges
      else
        log "" ;;;
        log ("No changes detected. Retrying... (attempt " ++ JS.of_nat attempt_no ++ "/" ++
             JS.of_nat MAX_RETRY ++ ")") ;;;
        attempts remaining' (Datatypes.S attempt_no) t w prompt0 output
  end.

Definition agentStage (t : Task) (w : Workspace) : M JSVal :=
  log "[4/5] Running agent..." ;;;
  log "────────────────────────────────────────" ;;;
  prompt0 <- buildPrompt t w ;;
  attempts (MAX_RETRY + 1) 1 t w prompt0 (JStr "").

(** *** Stage 5: commit and push *)

Definition titleLine (t : Task) : string :=
  if isDirect then type job ++ ": " ++ t_title t
  else type job ++ ": " ++ t_title t ++ " (#" ++ issueNoStr ++ ")".

Definition commitMsg (t : Task) : string :=
  titleLine t ++ JS.LF ++ JS.LF ++ "Co-Authored-By: " ++ Claude.coAuthor.

Definition pushArgs (t : Task) : list string :=
  ["push"; "origin";
   "refs/heads/" ++ t_branch t ++ ":refs/heads/" ++ t_branch t;
   "--force-with-lease"].

Definition commitPush (t : Task) (w : Workspace) : M unit :=
  log "[5/5] Committing & pushing..." ;;;
  currentBranch <- exec "git" ["branch"; "--show-current"] (Some (w_dir w)) ;;
  if String.eqb currentBranch (baseBranch project)
  then throw (ErrFatalBranch (baseBranch project))
  else
    exec "git" ["add"; "-A"] (Some (w_dir w)) ;;;
    exec "git" ["commit"; "--no-verify"; "-m"; commitMsg t] (Some (w_dir w)) ;;;
    exec "git" (pushArgs t) (Some (w_dir w)) ;;;
    ret tt.

(** *** The results *)

Definition results (t : Task) (w : Workspace) (claudeOutput : JSVal) : M WorkerResult :=
  diff <- exec "git" ["diff"; "HEAD~1"] (Some (w_dir w)) ;;
  prBody <- match claudeOutput with
            | JStr output => ret (PrBody.prBody (issueNo job) output)
            | _ => type_error "claudeOutput.match is not a function"
            end ;;
  log "" ;;;
  log "========================================" ;;;
  log "  DONE" ;;;
  log ("  " ++ (if isDirect then "Task: " ++ t_title t else "Issue:  #" ++ issueNoStr)) ;;;
  log ("  Branch: " ++ t_branch t) ;;;
  log "  Create a PR from the web UI." ;;;
  log "========================================" ;;;
  ret {| status := "completed"; r_branch := Some (t_branch t); r_prBody := Some prBody;
         r_prTitle := Some (titleLine t); r_diff := Some diff |}.

(** *** The [try] block, its [catch] and its [finally] *)

(** Everything up to the checkpoint that precedes the commit. *)
Definition prepare : M (Task * Workspace * JSVal) :=
  getProvider (or_str (provider project) "claude") ;;;
  banner ;;;
  t <- resolve ;;
  checkpoint ;;;
  fetch t ;;;
  w <- workspace t ;;
  checkpoint ;;;
  claudeOutput <- agentStage t w ;;
  checkpoint ;;;
  ret (t, w, claudeOutput).

Definition body : M WorkerResult :=
  ready <- prepare ;;
  let '(t, w, claudeOutput) := ready in
  commitPush t w ;;;
  results t w claudeOutput.

Definition cancelledResult : WorkerResult :=
  {| status := "cancelled"; r_branch := None; r_prBody := None;
     r_prTitle := None; r_diff := None |}.

Definition on_error (err : Thrown) : M WorkerResult :=
  if String.eqb (message_of err) "cancelled" then ret cancelledResult
  else
    log "" ;;;
    log ("Error: " ++ message_of err) ;;;
    throw err.

Definition cleanup (st : WState) : WState :=
  match cloneDir st with
  | Some dir =>
      if JS.nonempty dir then
        let ok := env_rm env (trace st) dir in
        let st' := record (ARm dir ok) st in
        if ok then snd ((log "" ;;; log "Cleaning up workspace...") st') else st'
      else st
  | None => st
  end.

Definition workerPromise : M WorkerResult :=
  finally (try_catch body on_error) cleanup.

(** *** Settling: the [.then] and [.catch] of [workerPromise] *)

Definition emit (tp payload : string) (st : WState) : WState :=
  {| trace := trace st; logBuffer := logBuffer st;
     emitted := (emitted st ++ [(tp, payload)])%list; cloneDir := cloneDir st |}.

Definition updateFinal (data : FinalData) (st : WState) : WState :=
  record (AUpdateFinal data (env_updateFinal env (trace st) data)) st.

Definition announce (finalStatus : string) (st : WState) : WState :=
  emit (topic ++ ":done") finalStatus
    (emit topic (JS.LF ++ "[worker exited: " ++ finalStatus ++ "]") st).

Definition cancelled_now (st : WState) : bool * WState :=
  match isCancelled st with
  | (Normal b, st') => (b, st')
  | (Throw _, st') => (false, st')
  end.

Record Settlement : Type := {
  finalStatus : string;
  final : WState
}.

Definition settle (c : Completion WorkerResult) (st : WState) : Settlement :=
  match c with
  | Normal result =>
      let '(fs, st1) :=
        if negb (String.eqb (status result) "cancelled") then
          let '(b, st') := cancelled_now st in
          ((if b then "cancelled" else status result), st')
        else (status result, st) in
      let st2 :=
        updateFinal (Settled fs (logBuffer st1) (or_null (r_branch result))
                       (or_null (r_prBody result)) (or_null (r_prTitle result))
                       (or_null (r_diff result))) st1 in
      {| finalStatus := fs; final := announce fs st2 |}
  | Throw _ =>
      let '(b, st1) := cancelled_now st in
      let fs := if b then "cancelled" else "failed" in
      let st2 := updateFinal (StatusAndLog fs (logBuffer st1)) st1 in
      {| finalStatus := fs; final := announce fs st2 |}
  end.

Definition initial : WState :=
  {| trace := []; logBuffer := ""; emitted := []; cloneDir := None |}.

(** [runWorker({ job, project, prisma, followUp })], run until the job has
    settled. *)
Definition runWorker : Settlement :=
  let '(c, st) := workerPromise initial in settle c st.

End Run.

(** *** Reading a history *)

(** [git clone <source> <target> ...] *)
Definition is_clone (a : Action) : bool :=
  match a with
  | AExec "git" ("clone" :: _) _ _ => true
  | _ => false
  end.

Definition clone_target (a : Action) : option string :=
  match a with
  | AExec _ (_ :: _ :: target :: _) _ _ => Some target
  | _ => None
  end.

Definition targets (dir : string) (a : Action) : bool :=
  is_clone a &&
  match clone_target a with
  | Some target => String.eqb target dir
  | None => false
  end.

Definition succeeded (a : Action) : bool :=
  match a with
  | AExec _ _ _ (ExecOk _) => true
  | _ => false
  end.

(** Whether [dir] exists after the actions of [h]: a successful [git clone]
    into it creates it, a successful [rm] removes it. *)
Definition creates (dir : string) (a : Action) : bool :=
  targets dir a && succeeded a.

Definition removes (dir : string) (a : Action) : bool :=
  match a with
  | ARm d true => String.eqb d dir
  | _ => false
  end.

Definition present (dir : string) (h : History) : bool :=
  fold_left (fun p a => if creates dir a then true else if removes dir a then false else p)
            h false.

(** The git commands of the commit-and-push stage. *)
Definition is_git (sub : string) (a : Action) : bool :=
  match a with
  | AExec "git" (first :: _) _ _ => String.eqb first sub
  | _ => false
  end.

Definition commits (a : Action) : bool :=
  is_git "add" a || is_git "commit" a || is_git "push" a.

Definition is_spawn (a : Action) : bool :=
  match a with
  | AExec _ _ _ _ | ASpawn _ _ _ _ => true
  | _ => false
  end.

Definition is_branch_query (a : Action) : bool :=
  match a with
  | AExec "git" ["branch"; "--show-current"] _ _ => true
  | _ => false
  end.

Definition is_rm (a : Action) : bool :=
  match a with ARm _ _ => true | _ => false end.

Definition is_settling (a : Action) : bool :=
  match a with AUpdateFinal _ _ => true | _ => false end.

(** The last command of a change check that found nothing. *)
Definition reports_no_change (a : Action) : bool :=
  match a with
  | AExec "git" ["ls-files"; "--others"; "--exclude-standard"] _ (ExecOk stdout) =>
      negb (JS.nonempty (JS.trim stdout))
  | _ => false
  end.

Definition count (f : Action -> bool) (h : History) : nat := List.length (filter f h).

Definition is_poll (a : Action) : bool :=
  match a with AFindStatus _ => true | _ => false end.

Definition is_comment (a : Action) : bool :=
  match a with
  | AExec "gh" ("issue" :: "comment" :: _) _ _ => true
  | _ => false
  end.

(** The status and the branch a final update writes. *)
Definition status_of (d : FinalData) : string :=
  match d with
  | Settled status _ _ _ _ _ => status
  | StatusAndLog status _ => status
  end.

Definition branch_of (d : FinalData) : option string :=
  match d with
  | Settled _ _ branch _ _ _ => branch
  | StatusAndLog _ _ => None
  end.

(** What the clean-up adds to the history of [st]. *)
Definition tidied (env : Env) (st : WState) : History :=
  match cloneDir st with
  | Some dir => if JS.nonempty dir then [ARm dir (env_rm env (trace st) dir)] else []
  | None => []
  end.

(** Whether a read of the job's status says [cancelled]. *)
Definition says_cancelled (r : StatusRead) : bool :=
  match r with
  | Status s => String.eqb s "cancelled"
  | NoSuchJob | ReadFails => false
  end.

(** Nothing of the commit stage, of the clean-up or of the settling. *)
Definition quiet (a : Action) : bool :=
  negb (commits a) && negb (is_branch_query a) && negb (is_rm a) && negb (is_settling a).

(** Nothing of the retry loop's change check and comment. *)
Definition off_loop (a : Action) : bool :=
  negb (reports_no_change a) && negb (is_comment a).

(** A clone, if any, goes into [dir]; no clean-up, no settling. *)
Definition housed (dir : string) (a : Action) : bool :=
  (negb (is_clone a) || targets dir a) && negb (is_rm a) && negb (is_settling a).

(** No clone at all; no clean-up, no settling. *)
Definition homeless (a : Action) : bool :=
  negb (is_clone a) && negb (is_rm a) && negb (is_settling a).

(** A computation that does not throw the sentinel of cancellation. *)
Definition NeverCancels {A : Type} (m : M A) : Prop :=
  forall st e, fst (m st) = Throw e -> e <> ErrCancelled.

(** What follows the branch check in the commit stage, and the results. *)
Definition pushing (a : Action) : bool :=
  negb (is_branch_query a) && negb (is_rm a) && negb (is_settling a)
  && negb (reports_no_change a) && negb (is_comment a) && negb (is_clone a).

(** The clean-up and the settling. *)
Definition closing (a : Action) : bool :=
  is_rm a || is_poll a || is_settling a.

(** The line logged when the retries are used up. *)
Definition exhausted_line : string :=
  "No changes detected after " ++ JS.of_nat MAX_RETRY ++ " retries." ++ JS.LF.

(** [st'] continues [st]: the history grew by actions that all satisfy [Q],
    the log grew, and, when [keep] is set, [cloneDir] is the same. *)
Definition Grows (keep : bool) (Q : Action -> bool) (st st' : WState) : Prop :=
  (exists l, trace st' = (trace st ++ l)%list /\ forallb Q l = true)
  /\ (exists s, logBuffer st' = logBuffer st ++ s)
  /\ (keep = true -> cloneDir st' = cloneDir st).

Definition Safe {A : Type} (keep : bool) (Q : Action -> bool) (m : M A) : Prop :=
  forall st, Grows keep Q st (snd (m st)).

(** From [st] to [st'] at most [n] change checks reported no change, and if
    [n] did, the retries were used up: the line saying so was logged, the
    comment on the issue was attempted once for a job with an issue, and
    [ErrNoChanges] was thrown. *)
Definition Due (job : Job) {A : Type} (n : nat) (st : WState) (c : Completion A)
    (st' : WState) : Prop :=
  exists l s,
    trace st' = (trace st ++ l)%list
    /\ logBuffer st' = logBuffer st ++ s
    /\ count reports_no_change l <= n
    /\ (count reports_no_change l = n ->
        c = Throw ErrNoChanges
        /\ JS.includes s exhausted_line = true
        /\ count is_comment l = (if isDirect job then 0 else 1)).

Definition Dues (job : Job) {A : Type} (n : nat) (m : M A) : Prop :=
  forall st, Due job n st (fst (m st)) (snd (m st)).

(** From [st] to [st'] nothing was removed or settled, and either
    [cloneDir] is the same and nothing was cloned, or [cloneDir] is some [d]
    and whatever was cloned was cloned into [d]. *)
Definition Lodges (st st' : WState) : Prop :=
  exists l,
    trace st' = (trace st ++ l)%list
    /\ ((cloneDir st' = cloneDir st /\ forallb homeless l = true)
        \/ (exists d, cloneDir st' = Some d /\ forallb (housed d) l = true)).

Definition Lodging {A : Type} (m : M A) : Prop :=
  forall st, Lodges st (snd (m st)).

(** *** Runs of the agent in a history *)

Definition is_agent (a : Action) : bool :=
  match a with ASpawn _ _ _ _ => true | _ => false end.

(** The error the promise of an agent run rejects with, if it rejects: the
    ['close'] handler rejects for every code but 0, the ['error'] handler
    always. *)
Definition agent_error (run : AgentRun) : option Thrown :=
  match ending run with
  | Close (Some 0%Z) => None
  | Close code => Some (ErrAgentExit code)
  | Failed message => Some (ErrAgentSpawn message)
  end.

Definition failed_agent (a : Action) : option Thrown :=
  match a with
  | ASpawn _ _ _ run => agent_error run
  | _ => None
  end.

Definition nospawn (a : Action) : bool := negb (is_agent a).
Definition nocommit (a : Action) : bool := negb (commits a).

(** Neither a run of the agent nor a command of the commit stage. *)
Definition calm (a : Action) : bool := nospawn a && nocommit a.

(** If an agent run of [m] rejected, [m] threw the error of that run and
    issued no command of the commit stage. *)
Definition Halts {A : Type} (m : M A) : Prop :=
  forall st, exists l,
    trace (snd (m st)) = (trace st ++ l)%list
    /\ forall a e, In a l -> failed_agent a = Some e ->
         fst (m st) = Throw e /\ forallb nocommit l = true.

(** Every run of the agent in [h] directly follows a read of the job's
    status that did not say [cancelled]; [clear] tells whether such a read
    directly precedes [h]. *)
Fixpoint guarded (clear : bool) (h : History) : bool :=
  match h with
  | [] => true
  | a :: r =>
      match a with
      | ASpawn _ _ _ _ => clear && guarded false r
      | AFindStatus read => guarded (negb (says_cancelled read)) r
      | _ => guarded false r
      end
  end.

(** A read of the status that said [cancelled]. *)
Definition said_cancelled (a : Action) : bool :=
  match a with
  | AFindStatus read => says_cancelled read
  | _ => false
  end.

(** No agent is run after a read of the status that said [cancelled]. *)
Fixpoint heeded (h : History) : bool :=
  match h with
  | [] => true
  | a :: r => (if said_cancelled a then forallb nospawn r else true) && heeded r
  end.

(** Neither a run of the agent nor a read of the status. *)
Definition still (a : Action) : bool := nospawn a && negb (is_poll a).

(** [m] runs the agent at most [n] times, each time directly after a read of
    the status that did not say [cancelled]; it runs no agent after a read
    that said [cancelled], and it throws when a read said so. *)
Definition Wary {A : Type} (n : nat) (m : M A) : Prop :=
  forall st, exists l,
    trace (snd (m st)) = (trace st ++ l)%list
    /\ guarded false l = true
    /\ count is_agent l <= n
    /\ heeded l = true
    /\ (existsb said_cancelled l = true -> exists e, fst (m st) = Throw e).

(** *** Where the commands run *)

(** The commands run in the directory of the project itself. *)
Definition reads_repository (a : Action) : bool :=
  match a with
  | AExec "git" ("fetch" :: "origin" :: _) _ _ => true
  | AExec "git" ["remote"; "get-url"; "origin"] _ _ => true
  | AExec "gh" ("issue" :: "view" :: _) _ _ => true
  | _ => false
  end.

Definition in_dir (dir : string) (cwd : option string) : bool :=
  match cwd with
  | Some d => String.eqb d dir
  | None => false
  end.

(** [git clone root dir ...], run without a working directory. *)
Definition is_clone_of (root dir : string) (a : Action) : bool :=
  match a with
  | AExec "git" ("clone" :: source :: target :: _) None _ =>
      String.eqb source root && String.eqb target dir
  | _ => false
  end.

(** Before the workspace has a name: nothing but the commands that read the
    repository, run in [root]. *)
Definition outside (root : string) (a : Action) : bool :=
  match a with
  | AExec _ _ cwd _ => reads_repository a && in_dir root cwd
  | ASpawn _ _ _ _ | ARm _ _ => false
  | _ => true
  end.

(** With the workspace [dir]: a command runs in [dir], or reads the
    repository in [root], or is the clone of [root] into [dir]; the agent
    runs in [dir]; nothing but [dir] is removed. *)
Definition confined (root dir : string) (a : Action) : bool :=
  match a with
  | AExec _ _ cwd _ =>
      in_dir dir cwd || (reads_repository a && in_dir root cwd) || is_clone_of root dir a
  | ASpawn _ _ cwd _ => String.eqb cwd dir
  | ARm d _ => String.eqb d dir
  | _ => true
  end.

(** From [st] to [st']: either no workspace was named and the actions are
    [outside], or the workspace is [d] and the actions are [confined] to it. *)
Definition Phased (root : string) (st st' : WState) : Prop :=
  exists l,
    trace st' = (trace st ++ l)%list
    /\ ((cloneDir st' = None /\ forallb (outside root) l = true)
        \/ (exists d, cloneDir st' = Some d /\ forallb (confined root d) l = true)).

Definition Phasing (root : string) {A : Type} (m : M A) : Prop :=
  forall st, cloneDir st = None -> Phased root st (snd (m st)).

(** *** The log and what is published *)

(** A computation under which the relation [R] between the state before and
    the state after holds. *)
Definition Steady (R : WState -> WState -> Prop) {A : Type} (m : M A) : Prop :=
  forall st, R st (snd (m st)).

Definition on_topic (job : Job) (ev : string * string) : bool :=
  String.eqb (fst ev) (topic job).

(** From [st] to [st'] the log grew by exactly the text published on the
    topic of the job, and nothing was published elsewhere. *)
Definition Echo (job : Job) (st st' : WState) : Prop :=
  exists evs,
    emitted st' = (emitted st ++ evs)%list
    /\ forallb (on_topic job) evs = true
    /\ logBuffer st' = logBuffer st ++ JS.concat (map snd evs).

(** The log a final update writes. *)
Definition log_of (d : FinalData) : string :=
  match d with
  | Settled _ log _ _ _ _ => log
  | StatusAndLog _ log => log
  end.

(** *** What the result of an agent run depends on *)

Definition is_stdout (ev : ProcEvent) : bool :=
  match ev with Stdout _ => true | Stderr _ => false end.

(** A computation whose outcome (the value returned or the error thrown)
    is the same in every state. *)
Definition Blind {A : Type} (m : M A) : Prop :=
  forall st st', fst (m st) = fst (m st').

(** Two parsers that agree on the result so far and on the line buffer. *)
Definition alike {S1 S2 : Type} (a : Claude.Parser (S := S1)) (b : Claude.Parser (S := S2))
  : Prop :=
  Claude.finalResult a = Claude.finalResult b /\ Claude.lineBuf a = Claude.lineBuf b.

(** *** What went well *)

(** The failures the worker swallows: of the fetch of the follow-up branch
    in the project's directory, of [git ls-remote], of the three commands of
    the change check, and of the comment on the issue. *)
Definition tolerated (follows : option string) (root : string) (a : Action) : bool :=
  match a with
  | AExec "git" ["fetch"; "origin"; b] (Some d) (ExecFail _) =>
      match follows with
      | Some branchName => String.eqb b branchName && String.eqb d root
      | None => false
      end
  | AExec "git" ("ls-remote" :: _) _ (ExecFail _) => true
  | AExec "git" ["diff"; "--quiet"] _ (ExecFail _) => true
  | AExec "git" ["diff"; "--cached"; "--quiet"] _ (ExecFail _) => true
  | AExec "git" ("ls-files" :: _) _ (ExecFail _) => true
  | AExec "gh" ("issue" :: "comment" :: _) _ (ExecFail _) => true
  | _ => false
  end.

Definition went_well (follows : option string) (root : string) (a : Action) : bool :=
  match a with
  | AExec _ _ _ (ExecOk _) => true
  | AExec _ _ _ (ExecFail _) => tolerated follows root a
  | AFindStatus read => negb (says_cancelled read)
  | AUpdateTitle _ failure => match failure with None => true | Some _ => false end
  | AReadFile _ r => match r with Some _ => true | None => false end
  | ASpawn _ _ _ run => match agent_error run with None => true | Some _ => false end
  | AExistsSync _ _ | ARm _ _ | AUpdateFinal _ _ => true
  end.

(** When [m] returns, the actions it added to the history satisfy [Q]. *)
Definition Clean (Q : Action -> bool) {A : Type} (m : M A) : Prop :=
  forall st a st',
    m st = (Normal a, st') ->
    exists l, trace st' = (trace st ++ l)%list /\ forallb Q l = true.

End Worker.

(* ===================================================================== *)
(** ** The live log endpoint: [GET /api/jobs/:jobId/log] *)
(* ===================================================================== *)

Module LogRoute.

(** What the handler does to the HTTP response. *)
Inductive ReplyOp : Type :=
| Send (code : nat) (payload : string)       (* [reply.code(c).send(payload)] *)
| WriteHead (code : nat) (headers : list (string * string))
| Write (chunk : string)                     (* [reply.raw.write(chunk)] *)
| End.                                       (* [reply.raw.end()] *)

(** The two listeners of the handler. *)
Inductive Listener : Type :=
| OnLog                                      (* [logEmitter.on(`job:${id}`, onLog)] *)
| OnDone.                                    (* [logEmitter.once(`job:${id}:done`, onDone)] *)

(** One request: what was written to its response, and the listeners it
    still has on [logEmitter]. *)
Record Conn : Type := {
  ops : list ReplyOp;
  listeners : list (string * Listener)
}.

Inductive Lookup : Type :=
| NotFound                                   (* [findUnique] resolved with [null] *)
| Found (id : Z) (status : string).

Definition sse_headers : list (string * string) :=
  [("Content-Type", "text/event-stream");
   ("Cache-Control", "no-cache");
   ("Connection", "keep-alive")].

Definition done_event (status : string) : string :=
  "event: done" ++ JS.LF ++ "data: " ++ status ++ JS.LF ++ JS.LF.

Definition data_event (P : Platform) (chunk : string) : string :=
  "data: " ++ JSON_stringify P (JStr chunk) ++ JS.LF ++ JS.LF.

Definition logTopic (id : Z) : string := "job:" ++ JS.of_Z id.
Definition doneTopic (id : Z) : string := "job:" ++ JS.of_Z id ++ ":done".

(** The handler, up to its return. *)
Definition handle (job : Lookup) : Conn :=
  match job with
  | NotFound => {| ops := [Send 404 "Not found"]; listeners := [] |}
  | Found id status =>
      if negb (String.eqb status "running") then
        {| ops := [WriteHead 200 sse_headers; Write (done_event status); End];
           listeners := [] |}
      else
        {| ops := [WriteHead 200 sse_headers];
           listeners := [(logTopic id, OnLog); (doneTopic id, OnDone)] |}
  end.

(** [logEmitter.emit(topic, payload)] as this request sees it: every listener
    on [topic] runs, and a [once] listener is removed when it has run. *)
Definition run_listener (P : Platform) (payload : string) (l : Listener) : list ReplyOp :=
  match l with
  | OnLog => [Write (data_event P payload)]
  | OnDone => [Write (done_event (if JS.nonempty payload then payload else "done")); End]
  end.

Fixpoint deliver (P : Platform) (tp payload : string) (ls : list (string * Listener))
  : list ReplyOp * list (string * Listener) :=
  match ls with
  | [] => ([], [])
  | (t, l) :: rest =>
      let '(written, kept) := deliver P tp payload rest in
      if String.eqb t tp then
        ((run_listener P payload l ++ written)%list,
         match l with OnDone => kept | OnLog => (t, l) :: kept end)
      else (written, (t, l) :: kept)
  end.

Definition emit (P : Platform) (c : Conn) (ev : string * string) : Conn :=
  let '(written, kept) := deliver P (fst ev) (snd ev) (listeners c) in
  {| ops := (ops c ++ written)%list; listeners := kept |}.

(** [req.raw.on('close', ...)]: both listeners are taken off. *)
Definition close (c : Conn) : Conn := {| ops := ops c; listeners := [] |}.

(** A [data] event is a write that is not the [done] event. *)
Definition is_data (op : ReplyOp) : bool :=
  match op with
  | Write chunk => JS.starts_with "data: " chunk
  | _ => false
  end.

End LogRoute.

(* ===================================================================== *)
(** ** Concrete inputs *)
(* ===================================================================== *)

Module Scenario.

Definition q : string := JS.DQ.

(** The record of a [Write] of [a.ts], as the agent prints it on one line. *)
Definition write_record : string :=
  "{" ++ q ++ "type" ++ q ++ ":" ++ q ++ "assistant" ++ q ++ "," ++
  q ++ "message" ++ q ++ ":{" ++ q ++ "content" ++ q ++ ":[{" ++
  q ++ "type" ++ q ++ ":" ++ q ++ "tool_use" ++ q ++ "," ++
  q ++ "name" ++ q ++ ":" ++ q ++ "Write" ++ q ++ "," ++
  q ++ "input" ++ q ++ ":{" ++ q ++ "file_path" ++ q ++ ":" ++ q ++ "a.ts" ++ q ++ "}}]}}".

Definition write_call : Claude.Call :=
  Claude.CallToolUse (JStr "Write") (JObj [("file_path", JStr "a.ts")]).

(** What the recording callbacks saw of one stderr chunk. *)
Definition stderr_calls (chunk : string) : list Claude.Call :=
  Claude.user (Claude.onStderr Claude.recorder chunk (Claude.start [])).

(** *** Jobs and outside worlds *)

Import Worker.

Definition direct_job : Job :=
  {| id := 7; issueNo := None; type := "feat";
     description := Some "Add a health endpoint."; issueTitle := Some "Health endpoint" |}.

Definition issue_job : Job :=
  {| id := 8; issueNo := Some 42%Z; type := "fix";
     description := None; issueTitle := None |}.

Definition project : Project :=
  {| baseBranch := "main"; path := "/srv/repo"; prompt := None; provider := None |}.

(** Git as it answers when the agent has changed a tracked file and the
    workspace is on the branch of the job. *)
Definition git_changed (h : History) (cmd : string) (args : list string)
    (cwd : option string) : ExecResult :=
  match cmd, args with
  | "git", ["diff"; "--quiet"] => ExecFail "Command failed: git diff --quiet"
  | "git", ["branch"; "--show-current"] => ExecOk ("feat/7" ++ JS.LF)
  | "git", ["remote"; "get-url"; "origin"] => ExecOk ("git@example.com:o/r.git" ++ JS.LF)
  | "gh", ["issue"; "view"; _; "--json"; "title"; "-q"; ".title"] => ExecOk ("Crash on start" ++ JS.LF)
  | _, _ => ExecOk ""
  end.

(** The same, but the workspace is on the base branch. *)
Definition git_on_base (h : History) (cmd : string) (args : list string)
    (cwd : option string) : ExecResult :=
  match cmd, args with
  | "git", ["branch"; "--show-current"] => ExecOk ("main" ++ JS.LF)
  | _, _ => git_changed h cmd args cwd
  end.

(** Git as it answers when the agent never changes anything; the comment on
    the issue fails. *)
Definition git_unchanged (h : History) (cmd : string) (args : list string)
    (cwd : option string) : ExecResult :=
  match cmd, args with
  | "git", ["diff"; "--quiet"] => ExecOk ""
  | "gh", ("issue" :: "comment" :: _) => ExecFail "Command failed: gh issue comment"
  | _, _ => git_changed h cmd args cwd
  end.

Definition agent_writes : AgentRun :=
  {| events := [Stdout (JS.take 40 (write_record ++ JS.LF));
                Stdout (JS.drop 40 (write_record ++ JS.LF))];
     ending := Close (Some 0%Z) |}.

(** An outside world: [exec] answers the commands, the status read number
    [n] (from 0) is answered by [status_at n], and [rm_ok] says whether the
    removal of the workspace succeeds. *)
Definition world
    (exec : History -> string -> list string -> option string -> ExecResult)
    (status_at : nat -> StatusRead) (rm_ok : bool) : Env :=
  {| env_exec := exec;
     env_findStatus := fun h => status_at (count is_poll h);
     env_updateTitle := fun _ _ => None;
     env_updateFinal := fun _ _ => true;
     env_now := fun _ => "2026-01-02T03:04:05.678Z";
     env_Date_now := fun _ => 1767323045678%Z;
     env_tmpdir := "/tmp";
     env_existsSync := fun _ _ => false;
     env_readFileSync := fun _ _ => None;
     env_agent := fun _ _ _ => agent_writes;
     env_rm := fun _ _ => rm_ok |}.

(** The same outside world, but the agent process behaves as [run]. *)
Definition with_agent (run : AgentRun) (env : Env) : Env :=
  {| env_exec := env_exec env;
     env_findStatus := env_findStatus env;
     env_updateTitle := env_updateTitle env;
     env_updateFinal := env_updateFinal env;
     env_now := env_now env;
     env_Date_now := env_Date_now env;
     env_tmpdir := env_tmpdir env;
     env_existsSync := env_existsSync env;
     env_readFileSync := env_readFileSync env;
     env_agent := fun _ _ _ => run;
     env_rm := env_rm env |}.

(** An agent killed by a signal in the middle of a line. *)
Definition agent_killed : AgentRun :=
  {| events := [Stdout (JS.take 40 write_record)]; ending := Close None |}.

(** Git as in [git_changed], but the push is rejected. *)
Definition git_push_rejected (h : History) (cmd : string) (args : list string)
    (cwd : option string) : ExecResult :=
  match cmd, args with
  | "git", ("push" :: _) => ExecFail "Command failed: git push (stale info)"
  | _, _ => git_changed h cmd args cwd
  end.

Definition running (n : nat) : StatusRead := Status "running".

(** A cancel request that lands just before the status read number [k]. *)
Definition cancelled_from (k n : nat) : StatusRead :=
  if (n <? k)%nat then Status "running" else Status "cancelled".

(** The job table cannot be read from the status read number [k] on. *)
Definition unreadable_from (k n : nat) : StatusRead :=
  if (n <? k)%nat then Status "running" else ReadFails.

Definition workspace_dir : string := "/tmp/vampire-direct-7-1767323045678".

End Scenario.

(* ===================================================================== *)
(** ** The provider registry: [providers/registry.ts] *)
(* ===================================================================== *)

Module Registry.

Record ProviderListItem : Type := {
  name : string;
  displayName : string;
  comingSoon : bool                         (* [false]: the field is absent *)
}.

(** The map [providers], in insertion order: its keys and the [info] of its
    values. *)
Definition providers : list (string * (string * string)) :=
  [("claude", ("claude", "Claude Code"))].

Definition comingSoonProviders : list ProviderListItem :=
  [{| name := "gemini"; displayName := "Gemini CLI"; comingSoon := true |};
   {| name := "codex"; displayName := "Codex"; comingSoon := true |}].

(** [providers.get(name)] *)
Fixpoint get (key : string) (m : list (string * (string * string)))
  : option (string * string) :=
  match m with
  | [] => None
  | (k, v) :: rest => if String.eqb k key then Some v else get key rest
  end.

(** [getProvider(name)]: the [info] of the provider, or the message of the
    error thrown. *)
Definition getProvider (key : string) : (string * string) + string :=
  match get key providers with
  | Some info => inl info
  | None => inr ("Unknown provider: " ++ key)
  end.

Definition listProviders : list ProviderListItem :=
  (map (fun p => {| name := fst (snd p); displayName := snd (snd p); comingSoon := false |})
     providers ++ comingSoonProviders)%list.

Definition DEFAULT_PROVIDER : string := "claude".

End Registry.

(* ===================================================================== *)
(** ** The GitHub service and the routes of the server *)
(* ===================================================================== *)

Module Server.

(** *** Numbers *)

(** The classes of a JavaScript number, as far as the checks of the routes
    tell them apart; [Integer 0] stands for both zeros. *)
Inductive JsNum : Type :=
| NaN
| Infinite (negative : bool)
| Integer (z : Z)
| Fraction (negative : bool).




(** *** Rows, calls and replies *)

Record ProjectRow : Type := {
  p_id : Z;
  p_project : Worker.Project
}.

Record JobRow : Type := {
  j_id : Z;
  j_projectId : Z;
  j_issueNo : option JsNum;
  j_issueTitle : option string;
  j_description : option string;
  j_type : string;
  j_status : string;
  j_branch : option string;
  j_diff : option string;
  j_prUrl : option string;
  j_project : option ProjectRow             (* [include: { project: true }] *)
}.

(** The [data] of [prisma.job.create]. *)
Record NewJob : Type := {
  n_projectId : Z;
  n_issueNo : option JsNum;
  n_issueTitle : option string;
  n_description : option string;
  n_type : JSVal;
  n_status : string
}.

(** The [data] of [prisma.job.update] in the routes. *)
Inductive JobPatch : Type :=
| SetCancelled                               (* [{ status: 'cancelled' }] *)
| SetPr (prUrl : string) (prBody prTitle : JSVal).

(** The [data] of [prisma.project.create]. *)
Record NewProject : Type := {
  np_name : string;
  np_path : string;
  np_baseBranch : JSVal;
  np_provider : JSVal
}.

Record FollowUp : Type := {
  f_branch : string;
  f_message : string;
  f_previousDiff : option string
}.

(** What a prisma call answers. *)
Inductive Db (A : Type) : Type :=
| Row (a : A)
| DbFails (message : string).
Arguments Row {A} a.
Arguments DbFails {A} message.

(** What [execFileAsync] answers. *)
Inductive Ran : Type :=
| RanOk (stdout : string)
| RanFails (stderr message : string).

Inductive Call : Type :=
| CExec (cmd : string) (args : list string) (cwd : string) (r : Ran)
| CFindProject (id : string) (r : Db (option ProjectRow))
| CFindJob (id : string) (r : Db (option JobRow))
| CFindRunning (projectId : Z) (issueNo : JsNum) (r : Db (option JobRow))
| CFindRunningOf (projectId : string) (r : Db (list JobRow))
| CCreateJob (data : NewJob) (r : Db JobRow)
| CUpdateJob (id : Z) (data : JobPatch) (r : Db JobRow)
| CDeleteJob (id : Z) (r : Db unit)
| CDeleteJobsOf (projectId : string) (r : Db unit)
| CDeleteProject (id : string) (r : Db unit)
| CCreateProject (data : NewProject) (r : Db ProjectRow)
| CKill (jobId : Z)                          (* [worker.kill()] *)
| CRunWorker (job : JobRow) (project : option ProjectRow) (followUp : option FollowUp).

(** Errors thrown in the routes and in the service. *)
Inductive Fault : Type :=
| ExecFault (stderr message : string)        (* [execFileAsync] rejected *)
| DbFault (message : string)                 (* a prisma call rejected *)
| TypeFault (message : string)               (* a TypeError of the runtime, with the
                                                message the runtime gives it *)
| FsFault (message : string)                 (* [statSync] threw *)
| ParseFault (output : string).              (* [createIssue] found no issue number *)

Definition fault_message (f : Fault) : string :=
  match f with
  | ExecFault _ m | DbFault m | TypeFault m | FsFault m => m
  | ParseFault output => "Failed to parse issue number from: " ++ output
  end.

(** [e.stderr]: only the errors of [execFileAsync] have one. *)
Definition fault_stderr (f : Fault) : option string :=
  match f with
  | ExecFault stderr _ => Some stderr
  | _ => None
  end.

Inductive Payload : Type :=
| JobPayload (job : JobRow)                  (* [{ job }] *)
| ProjectPayload (project : ProjectRow)      (* [{ project }] *)
| ErrorPayload (error : string)              (* [{ error }] *)
| TestPayload (ok : bool) (message : string) (* [{ ok, message }] *)
| NoPayload.

Record Reply : Type := {
  code : nat;
  payload : Payload
}.

(** The world outside: it answers each call as a function of the calls made
    before. *)
Record World : Type := {
  w_exec : list Call -> string -> list string -> string -> Ran;
  w_findProject : list Call -> string -> Db (option ProjectRow);
  w_findJob : list Call -> string -> Db (option JobRow);
  w_findRunning : list Call -> Z -> JsNum -> Db (option JobRow);
  w_findRunningOf : list Call -> string -> Db (list JobRow);
  w_createJob : list Call -> NewJob -> Db JobRow;
  w_updateJob : list Call -> Z -> JobPatch -> Db JobRow;
  w_deleteJob : list Call -> Z -> Db unit;
  w_deleteJobsOf : list Call -> string -> Db unit;
  w_deleteProject : list Call -> string -> Db unit;
  w_createProject : list Call -> NewProject -> Db ProjectRow;
  w_existsSync : string -> bool;
  w_isDirectory : string -> bool + string;   (* [inr message]: [statSync] throws *)
  w_typeError : string -> string             (* the message of the TypeError that
                                                the runtime raises at the place named *)
}.

(** The calls made so far and the registry [activeWorkers] of [worker.ts]. *)
Record SState : Type := {
  calls : list Call;
  activeWorkers : list Z
}.

Definition S (A : Type) : Type := SState -> (A + Fault) * SState.

Definition ret {A} (a : A) : S A := fun st => (inl a, st).
Definition throw {A} (f : Fault) : S A := fun st => (inr f, st).

Definition bind {A B} (m : S A) (k : A -> S B) : S B :=
  fun st =>
    match m st with
    | (inl a, st') => k a st'
    | (inr f, st') => (inr f, st')
    end.

Definition try_catch {A} (m : S A) (handler : Fault -> S A) : S A :=
  fun st =>
    match m st with
    | (inl a, st') => (inl a, st')
    | (inr f, st') => handler f st'
    end.

Declare Scope server_scope.
Delimit Scope server_scope with server.
Notation "x <- m ;; k" := (bind m (fun x => k))
  (at level 100, m at next level, right associativity) : server_scope.
Notation "m ;;; k" := (bind m (fun _ => k))
  (at level 100, right associativity) : server_scope.
Local Open Scope server_scope.

Definition call (c : Call) (st : SState) : SState :=
  {| calls := (calls st ++ [c])%list; activeWorkers := activeWorkers st |}.

(** A prisma call: its answer is recorded, and a rejection is thrown. *)
Definition db {A} (ask : list Call -> Db A) (entry : Db A -> Call) : S A :=
  fun st =>
    let r := ask (calls st) in
    (match r with Row a => inl a | DbFails m => inr (DbFault m) end, call (entry r) st).

Section Routes.
Variable P : Platform.
Variable ToNumber : JSVal -> JsNum.          (* [Number(v)] *)
Variable coerce : JSVal -> option string.
Variable world : World.

(** *** [services/github.ts] *)

(** [exec(cmd, args, { cwd })] *)
Definition exec (cmd : string) (args : list string) (cwd : string) : S string :=
  fun st =>
    let r := w_exec world (calls st) cmd args cwd in
    (match r with
     | RanOk stdout => inl (JS.trim stdout)
     | RanFails stderr message => inr (ExecFault stderr message)
     end,
     call (CExec cmd args cwd r) st).

Definition getRemoteUrl (cwd : string) : S string :=
  exec "git" ["remote"; "get-url"; "origin"] cwd.

(** [output.match(/\/issues\/(\d+)/)?.[1]]: the digits after the leftmost
    [/issues/] that is followed by a digit. *)
Fixpoint issue_digits (output : string) : option string :=
  let here :=
    if JS.starts_with "/issues/" output
    then fst (Json.digits (JS.drop 8 output))
    else "" in
  if JS.nonempty here then Some here
  else match output with
       | EmptyString => None
       | String _ rest => issue_digits rest
       end.

(** [v.trim()] on a value that may not be a string. *)
Definition trim_of (v : JSVal) : S string :=
  match v with
  | JStr s => ret (JS.trim s)
  | _ => throw (TypeFault (w_typeError world "trim"))
  end.

(** [createIssue(cwd, { title, body })] *)
Definition createIssue (cwd : string) (title body : JSVal) : S JsNum :=
  t <- trim_of title ;;
  more <- (if Val.truthy P body then
             b <- trim_of body ;;
             ret (if JS.nonempty b then ["--body"; b] else [])
           else ret []) ;;
  output <- exec "gh" (["issue"; "create"; "--title"; t] ++ more)%list cwd ;;
  match issue_digits output with
  | None => throw (ParseFault output)
  | Some digits => ret (ToNumber (JStr digits))
  end.

(** An argument of a child process: a string is passed as it is; [coerce]
    is what the runtime makes of any other value ([None]: it throws). *)
Definition arg (v : JSVal) : option string :=
  match v with
  | JStr s => Some s
  | _ => coerce v
  end.

(** [createPR(cwd, { title, body, base, head })] *)
Definition createPR (cwd : string) (title body base head : JSVal) : S string :=
  repo <- getRemoteUrl cwd ;;
  match arg title, arg body, arg base, arg head with
  | Some t, Some b, Some bs, Some h =>
      exec "gh" ["pr"; "create"; "--title"; t; "--body"; b; "--base"; bs; "--head"; h;
                 "--repo"; repo] cwd
  | _, _, _, _ => throw (TypeFault (w_typeError world "execFile"))
  end.

(** *** [cancelWorker] of [worker.ts], and the start of a worker *)

Definition cancelWorker (jobId : Z) : S unit :=
  fun st =>
    if existsb (Z.eqb jobId) (activeWorkers st)
    then (inl tt,
          {| calls := (calls st ++ [CKill jobId])%list;
             activeWorkers := filter (fun i => negb (Z.eqb jobId i)) (activeWorkers st) |})
    else (inl tt, st).

(** [runWorker({ job, project, prisma, followUp })], as the route sees it:
    the worker is started and registered under the id of the job. *)
Definition runWorker (job : JobRow) (project : option ProjectRow)
    (followUp : option FollowUp) : S unit :=
  fun st =>
    (inl tt,
     {| calls := (calls st ++ [CRunWorker job project followUp])%list;
        activeWorkers := (filter (fun i => negb (Z.eqb (j_id job) i)) (activeWorkers st)
                          ++ [j_id job])%list |}).

(** *** The routes of the jobs *)


Definition findJob (id : string) : S (option JobRow) :=
  db (fun h => w_findJob world h id) (CFindJob id).


Definition createJob (data : NewJob) : S JobRow :=
  db (fun h => w_createJob world h data) (CCreateJob data).

Definition updateJob (id : Z) (data : JobPatch) : S JobRow :=
  db (fun h => w_updateJob world h id data) (CUpdateJob id data).

Definition deleteJob (id : Z) : S unit :=
  db (fun h => w_deleteJob world h id) (CDeleteJob id).


(** [const { a, b } = req.body]: a TypeError when there is no body. *)
Definition field (body : JSVal) (key : string) : S JSVal :=
  match Val.get body key with
  | Some v => ret v
  | None => throw (TypeFault (w_typeError world "req.body"))
  end.

(** [!issueTitle || !issueTitle.trim()] *)
Definition blank (v : JSVal) : S bool :=
  if Val.truthy P v then
    t <- trim_of v ;; ret (negb (JS.nonempty t))
  else ret true.



(** [POST /api/jobs/:jobId/cancel] *)
Definition postCancel (jobId : string) : S Reply :=
  found <- findJob jobId ;;
  match found with
  | None => ret {| code := 404; payload := ErrorPayload "Not found" |}
  | Some job =>
      if negb (String.eqb (j_status job) "running")
      then ret {| code := 200; payload := JobPayload job |}
      else
        cancelWorker (j_id job) ;;;
        updated <- updateJob (j_id job) SetCancelled ;;
        ret {| code := 200; payload := JobPayload updated |}
  end.

(** The [data] with which [retry] and [followup] create the new job. *)
Definition again (oldJob : JobRow) : NewJob :=
  {| n_projectId := j_projectId oldJob; n_issueNo := j_issueNo oldJob;
     n_issueTitle := j_issueTitle oldJob; n_description := j_description oldJob;
     n_type := JStr (j_type oldJob); n_status := "running" |}.

(** [POST /api/jobs/:jobId/retry] *)
Definition postRetry (jobId : string) : S Reply :=
  found <- findJob jobId ;;
  match found with
  | None => ret {| code := 404; payload := ErrorPayload "Not found" |}
  | Some oldJob =>
      if String.eqb (j_status oldJob) "running"
      then ret {| code := 200; payload := JobPayload oldJob |}
      else
        newJob <- createJob (again oldJob) ;;
        runWorker newJob (j_project oldJob) None ;;;
        ret {| code := 201; payload := JobPayload newJob |}
  end.

(** [DELETE /api/jobs/:jobId] *)
Definition deleteJobRoute (jobId : string) : S Reply :=
  found <- findJob jobId ;;
  match found with
  | None => ret {| code := 404; payload := ErrorPayload "Not found" |}
  | Some job =>
      (if String.eqb (j_status job) "running" then cancelWorker (j_id job) else ret tt) ;;;
      deleteJob (j_id job) ;;;
      ret {| code := 204; payload := NoPayload |}
  end.

(** [POST /api/jobs/:jobId/followup] *)
Definition postFollowup (jobId : string) (body : JSVal) : S Reply :=
  found <- findJob jobId ;;
  match found with
  | None => ret {| code := 404; payload := ErrorPayload "Not found" |}
  | Some oldJob =>
      match Worker.or_null (j_branch oldJob) with
      | None => ret {| code := 400; payload := ErrorPayload "Previous job has no branch." |}
      | Some branch =>
          message <- field body "message" ;;
          b <- blank message ;;
          if b then ret {| code := 400; payload := ErrorPayload "Feedback message is required." |}
          else
            newJob <- createJob (again oldJob) ;;
            text <- trim_of message ;;
            runWorker newJob (j_project oldJob)
              (Some {| f_branch := branch; f_message := text;
                       f_previousDiff := j_diff oldJob |}) ;;;
            ret {| code := 201; payload := JobPayload newJob |}
      end
  end.

(** A nullable column of a row, as a value. *)
Definition or_undefined (v : option string) : JSVal :=
  match v with Some s => JStr s | None => JNull end.

(** [POST /api/jobs/:jobId/pr] *)
Definition postPr (jobId : string) (body : JSVal) : S Reply :=
  found <- findJob jobId ;;
  match found with
  | None => ret {| code := 404; payload := ErrorPayload "Not found" |}
  | Some job =>
      match Worker.or_null (j_prUrl job) with
      | Some _ => ret {| code := 200; payload := JobPayload job |}
      | None =>
          prTitle <- field body "prTitle" ;;
          prBody <- field body "prBody" ;;
          try_catch
            (project <- match j_project job with
                        | Some project => ret project
                        | None => throw (TypeFault (w_typeError world "job.project"))
                        end ;;
             prUrl <- createPR (Worker.path (p_project project)) prTitle prBody
                        (JStr (Worker.baseBranch (p_project project)))
                        (or_undefined (j_branch job)) ;;
             updated <- updateJob (j_id job) (SetPr prUrl prBody prTitle) ;;
             ret {| code := 200; payload := JobPayload updated |})
            (fun e =>
               ret {| code := 500;
                      payload := ErrorPayload
                                   (Worker.or_str (fault_stderr e) (fault_message e)) |})
      end
  end.

(** [POST /api/providers/:name/test], for what [testConnection] answers. *)
Definition postProviderTest (name : string) (tested : bool * string) : Reply :=
  match Registry.getProvider name with
  | inl _ => {| code := 200; payload := TestPayload (fst tested) (snd tested) |}
  | inr message => {| code := 400; payload := TestPayload false message |}
  end.

(** *** The routes of the projects *)

(** The errors of [POST /api/projects], in the order they are pushed. *)
Definition projectErrors (name path : JSVal) : S (list string) :=
  nameBlank <- blank name ;;
  pathBlank <- blank path ;;
  pathErrors <-
    (if pathBlank then ret ["Project path is required."]
     else
       let p := Val.ToString P path in
       if negb (w_existsSync world p) then ret ["Path does not exist: " ++ p]
       else
         match w_isDirectory world p with
         | inr message => throw (FsFault message)
         | inl false => ret ["Path is not a directory: " ++ p]
         | inl true =>
             if negb (w_existsSync world (path_join P [p; ".git"]))
             then ret ["Not a git repository."]
             else ret []
         end) ;;
  ret ((if nameBlank then ["Project name is required."] else []) ++ pathErrors)%list.

(** [POST /api/projects] *)
Definition postProject (body : JSVal) : S Reply :=
  name <- field body "name" ;;
  path <- field body "path" ;;
  baseBranch <- field body "baseBranch" ;;
  provider <- field body "provider" ;;
  errors <- projectErrors name path ;;
  match errors with
  | _ :: _ => ret {| code := 400; payload := ErrorPayload (JS.join " " errors) |}
  | [] =>
      n <- trim_of name ;;
      p <- trim_of path ;;
      project <- db (fun h => w_createProject world h
                                {| np_name := n; np_path := p;
                                   np_baseBranch := Val.or_else P baseBranch (JStr "main");
                                   np_provider := Val.or_else P provider (JStr "claude") |})
                    (CCreateProject
                       {| np_name := n; np_path := p;
                          np_baseBranch := Val.or_else P baseBranch (JStr "main");
                          np_provider := Val.or_else P provider (JStr "claude") |}) ;;
      ret {| code := 201; payload := ProjectPayload project |}
  end.

(** [for (const job of runningJobs) cancelWorker(job.id)] *)
Fixpoint cancelAll (jobs : list JobRow) : S unit :=
  match jobs with
  | [] => ret tt
  | job :: rest => cancelWorker (j_id job) ;;; cancelAll rest
  end.

(** [DELETE /api/projects/:id] *)
Definition deleteProject (id : string) : S Reply :=
  runningJobs <- db (fun h => w_findRunningOf world h id) (CFindRunningOf id) ;;
  cancelAll runningJobs ;;;
  db (fun h => w_deleteJobsOf world h id) (CDeleteJobsOf id) ;;;
  db (fun h => w_deleteProject world h id) (CDeleteProject id) ;;;
  ret {| code := 204; payload := NoPayload |}.

End Routes.

(** The server as it starts: no call made, [activeWorkers] an empty map. *)
Definition start : SState := {| calls := []; activeWorkers := [] |}.

(** *** Reading the calls of a request *)

Definition is_start (c : Call) : bool :=
  match c with CRunWorker _ _ _ => true | _ => false end.

Definition is_write (c : Call) : bool :=
  match c with
  | CCreateJob _ _ | CUpdateJob _ _ _ | CDeleteJob _ _ | CDeleteJobsOf _ _
  | CDeleteProject _ _ | CCreateProject _ _ => true
  | _ => false
  end.


Definition is_kill (c : Call) : bool :=
  match c with CKill _ => true | _ => false end.

End Server.

(* ********************************************************************* *)
(** * Properties *)
(* ********************************************************************* *)

(* ===================================================================== *)
(** ** Strings *)
(* ===================================================================== *)

Module JSFacts.
Import JS.

Lemma append_empty_r (s : string) : s ++ "" = s.
Proof. induction s as [|c r IH]; simpl; [reflexivity | now rewrite IH]. Qed.

Lemma append_assoc (a b c : string) : (a ++ b) ++ c = a ++ b ++ c.
Proof. induction a as [|x r IH]; simpl; [reflexivity | now rewrite IH]. Qed.

Lemma take_drop (n : nat) (s : string) : take n s ++ drop n s = s.
Proof.
  revert s; induction n as [|n IH]; intros [|c r]; simpl; try reflexivity.
  now rewrite IH.
Qed.

Lemma take_all (n : nat) (s : string) : String.length s <= n -> take n s = s.
Proof.
  revert s; induction n as [|n IH]; intros [|c r]; simpl; intros H;
    try reflexivity; try lia.
  rewrite IH; [reflexivity | lia].
Qed.

Lemma take_app_le (n : nat) (s t : string) :
  n <= String.length s -> take n (s ++ t) = take n s.
Proof.
  revert s; induction n as [|n IH]; intros [|c r]; simpl; intros H;
    try reflexivity; try lia.
  rewrite IH; [reflexivity | lia].
Qed.

Lemma length_append (s t : string) :
  String.length (s ++ t) = String.length s + String.length t.
Proof. induction s as [|c r IH]; simpl; [reflexivity | now rewrite IH]. Qed.

(** *** Lines *)

Lemma complete_lines_cons (c : ascii) (r : string) :
  complete_lines (String c r) =
  if Ascii.eqb c (ascii_of_nat 10) then "" :: complete_lines r
  else match complete_lines r with
       | [] => []
       | l :: ls => String c l :: ls
       end.
Proof.
  unfold complete_lines; simpl.
  destruct (split_nl r) as [h t].
  destruct (Ascii.eqb c (ascii_of_nat 10)); [reflexivity |].
  destruct t; reflexivity.
Qed.

Lemma remainder_cons (c : ascii) (r : string) :
  remainder (String c r) =
  if Ascii.eqb c (ascii_of_nat 10) then remainder r
  else match complete_lines r with
       | [] => String c (remainder r)
       | _ :: _ => remainder r
       end.
Proof.
  unfold remainder, complete_lines; simpl.
  destruct (split_nl r) as [h t].
  destruct (Ascii.eqb c (ascii_of_nat 10)); [reflexivity |].
  destruct t; reflexivity.
Qed.

(** Splitting a text that arrives in two parts. *)
Lemma lines_app (s1 s2 : string) :
  complete_lines (s1 ++ s2) = (complete_lines s1 ++ complete_lines (remainder s1 ++ s2))%list
  /\ remainder (s1 ++ s2) = remainder (remainder s1 ++ s2).
Proof.
  induction s1 as [|c r [IHl IHr]].
  - split; reflexivity.
  - change (String c r ++ s2) with (String c (r ++ s2)).
    rewrite (complete_lines_cons c (r ++ s2)), (remainder_cons c (r ++ s2)).
    rewrite (complete_lines_cons c r), (remainder_cons c r).
    destruct (Ascii.eqb c (ascii_of_nat 10)) eqn:Ec.
    + rewrite IHl, IHr. split; reflexivity.
    + destruct (complete_lines r) as [|l ls] eqn:El.
      * change (String c (remainder r) ++ s2) with (String c (remainder r ++ s2)).
        rewrite complete_lines_cons, remainder_cons, Ec.
        simpl in IHl. rewrite <- IHl, <- IHr. split; reflexivity.
      * rewrite IHl, IHr. split; reflexivity.
Qed.

Lemma remainder_has_no_line (s : string) : complete_lines (remainder s) = [].
Proof.
  induction s as [|c r IH]; [reflexivity |].
  rewrite remainder_cons.
  destruct (Ascii.eqb c (ascii_of_nat 10)) eqn:Ec; [exact IH |].
  destruct (complete_lines r) eqn:El; [| exact IH].
  rewrite complete_lines_cons, Ec, IH. reflexivity.
Qed.

Lemma remainder_idem (s : string) : remainder (remainder s) = remainder s.
Proof.
  induction s as [|c r IH]; [reflexivity |].
  rewrite remainder_cons.
  destruct (Ascii.eqb c (ascii_of_nat 10)) eqn:Ec; [exact IH |].
  destruct (complete_lines r) eqn:El; [| exact IH].
  rewrite remainder_cons, Ec, remainder_has_no_line, IH. reflexivity.
Qed.

Lemma no_line_take (n : nat) (s : string) :
  complete_lines s = [] -> complete_lines (take n s) = [].
Proof.
  revert n; induction s as [|c r IH]; intros [|n] H; try reflexivity.
  simpl take. rewrite complete_lines_cons in *.
  destruct (Ascii.eqb c (ascii_of_nat 10)); [discriminate |].
  destruct (complete_lines r) eqn:El; [| discriminate].
  now rewrite IH.
Qed.

Lemma no_line_remainder (s : string) : complete_lines s = [] -> remainder s = s.
Proof.
  induction s as [|c r IH]; intros H; [reflexivity |].
  rewrite complete_lines_cons in H. rewrite remainder_cons.
  destruct (Ascii.eqb c (ascii_of_nat 10)); [discriminate |].
  destruct (complete_lines r) eqn:El; [| discriminate].
  now rewrite IH.
Qed.

(** *** [trim] removes white space at the two ends and nothing else *)

(** [all_ws] by the first character. *)
Lemma all_ws_1 (a : ascii) (r : string) :
  is_ws a = true -> all_ws (String a r) = all_ws r.
Proof. intros H. cbn [all_ws]. now rewrite H. Qed.

Lemma all_ws_2 (a b : ascii) (r : string) :
  is_ws a = false -> is_ws2 a b = true -> all_ws (String a (String b r)) = all_ws r.
Proof. intros Ha H. cbn [all_ws]. now rewrite Ha, H. Qed.

Lemma all_ws_3 (a b c : ascii) (r : string) :
  is_ws a = false -> is_ws2 a b = false -> is_ws3 a b c = true ->
  all_ws (String a (String b (String c r))) = all_ws r.
Proof. intros Ha Hb H. cbn [all_ws]. now rewrite Ha, Hb, H. Qed.

(** A string is white space only exactly when [trimStart] leaves nothing. *)
Lemma all_ws_trimStart (s : string) :
  all_ws s = negb (nonempty (trimStart s)).
Proof.
  assert (G : forall n s, String.length s <= n -> all_ws s = negb (nonempty (trimStart s))).
  { clear s. induction n as [|n IH]; intros s Hn.
    - destruct s; [reflexivity | simpl in Hn; lia].
    - destruct s as [|a r]; [reflexivity |]. simpl in Hn.
      destruct (is_ws a) eqn:Ea.
      + rewrite (all_ws_1 a r Ea). cbn [trimStart]. rewrite Ea. apply IH. lia.
      + destruct r as [|b r2]; [cbn; now rewrite Ea |]. simpl in Hn.
        destruct (is_ws2 a b) eqn:Eb.
        * rewrite (all_ws_2 a b r2 Ea Eb). cbn [trimStart]. rewrite Ea, Eb. apply IH. lia.
        * destruct r2 as [|c r3]; [cbn; now rewrite Ea, Eb |]. simpl in Hn.
          destruct (is_ws3 a b c) eqn:Ec.
          -- rewrite (all_ws_3 a b c r3 Ea Eb Ec). cbn [trimStart]. rewrite Ea, Eb, Ec.
             apply IH. lia.
          -- cbn [all_ws trimStart]. rewrite Ea, Eb, Ec. reflexivity. }
  apply (G (String.length s)). lia.
Qed.

Lemma trimStart_split (s : string) :
  exists l, s = l ++ trimStart s /\ all_ws l = true.
Proof.
  assert (G : forall n s, String.length s <= n ->
                          exists l, s = l ++ trimStart s /\ all_ws l = true).
  { clear s. induction n as [|n IH]; intros s Hn.
    - destruct s; [exists ""; split; reflexivity | simpl in Hn; lia].
    - destruct s as [|a r]; [exists ""; split; reflexivity |]. simpl in Hn.
      cbn [trimStart]. destruct (is_ws a) eqn:Ea.
      + destruct (IH r ltac:(lia)) as [l [E W]]. exists (String a l). split.
        * simpl. now rewrite <- E.
        * now rewrite (all_ws_1 a l Ea).
      + destruct r as [|b r2]; [exists ""; split; reflexivity |]. simpl in Hn.
        destruct (is_ws2 a b) eqn:Eb.
        * destruct (IH r2 ltac:(lia)) as [l [E W]]. exists (String a (String b l)). split.
          -- simpl. now rewrite <- E.
          -- now rewrite (all_ws_2 a b l Ea Eb).
        * destruct r2 as [|c r3]; [exists ""; split; reflexivity |]. simpl in Hn.
          destruct (is_ws3 a b c) eqn:Ec.
          -- destruct (IH r3 ltac:(lia)) as [l [E W]].
             exists (String a (String b (String c l))). split.
             ++ simpl. now rewrite <- E.
             ++ now rewrite (all_ws_3 a b c l Ea Eb Ec).
          -- exists "". split; reflexivity. }
  apply (G (String.length s)). lia.
Qed.

Lemma trimEnd_split (s : string) :
  exists r, s = trimEnd s ++ r /\ all_ws r = true.
Proof.
  induction s as [|c s' [r [E W]]].
  - exists ""; split; reflexivity.
  - cbn [trimEnd]. destruct (all_ws (String c s')) eqn:A.
    + exists (String c s'). split; [reflexivity | exact A].
    + exists r. split; [| exact W]. simpl. now rewrite <- E.
Qed.

Lemma trim_split (s : string) :
  exists l r, s = l ++ trim s ++ r /\ all_ws l = true /\ all_ws r = true.
Proof.
  destruct (trimStart_split s) as [l [El Wl]].
  destruct (trimEnd_split (trimStart s)) as [r [Er Wr]].
  exists l, r. unfold trim. rewrite <- Er. auto.
Qed.

(** White space at the head of a text does not count. *)
Lemma ws_head (u : string) :
  all_ws u = true ->
  forall w, all_ws (u ++ w) = all_ws w /\ trimStart (u ++ w) = trimStart w.
Proof.
  assert (G : forall n u, String.length u <= n -> all_ws u = true ->
                          forall w, all_ws (u ++ w) = all_ws w
                                    /\ trimStart (u ++ w) = trimStart w).
  { clear u. induction n as [|n IH]; intros u Hn Hu w.
    - destruct u; [split; reflexivity | simpl in Hn; lia].
    - destruct u as [|a r]; [split; reflexivity |]. simpl in Hn.
      cbn [all_ws] in Hu. cbn [append all_ws trimStart].
      destruct (is_ws a); [apply IH; [lia | exact Hu] |].
      destruct r as [|b r2]; [discriminate |]. simpl in Hn. cbn [append].
      destruct (is_ws2 a b); [apply IH; [lia | exact Hu] |].
      destruct r2 as [|c r3]; [discriminate |]. simpl in Hn. cbn [append].
      destruct (is_ws3 a b c); [apply IH; [lia | exact Hu] | discriminate]. }
  intros H. apply (G (String.length u)); [lia | exact H].
Qed.

Lemma trimStart_length (s : string) : String.length (trimStart s) <= String.length s.
Proof.
  destruct (trimStart_split s) as [l [E _]].
  rewrite E at 2. rewrite length_append. lia.
Qed.

(** What [trimStart] leaves does not begin with white space... *)
Lemma trimStart_tight (s u v : string) :
  trimStart s = u ++ v -> all_ws u = true -> u = "".
Proof.
  assert (I : forall n s, String.length s <= n -> trimStart (trimStart s) = trimStart s).
  { clear. induction n as [|n IH]; intros s Hn.
    - destruct s; [reflexivity | simpl in Hn; lia].
    - destruct s as [|a r]; [reflexivity |]. simpl in Hn.
      cbn [trimStart]. destruct (is_ws a) eqn:Ea; [apply IH; lia |].
      destruct r as [|b r2]; [cbn [trimStart]; now rewrite Ea |]. simpl in Hn.
      destruct (is_ws2 a b) eqn:Eb; [apply IH; lia |].
      destruct r2 as [|c r3]; [cbn [trimStart]; now rewrite Ea, Eb |]. simpl in Hn.
      destruct (is_ws3 a b c) eqn:Ec; [apply IH; lia |].
      cbn [trimStart]. now rewrite Ea, Eb, Ec. }
  intros E W. destruct u as [|a u']; [reflexivity | exfalso].
  pose proof (I (String.length s) s (Nat.le_refl _)) as Id. rewrite E in Id.
  destruct (ws_head _ W v) as [_ T]. rewrite T in Id.
  pose proof (trimStart_length v) as L. rewrite Id, length_append in L. simpl in L. lia.
Qed.

(** ... and what [trimEnd] leaves does not end with white space. *)
Lemma trimEnd_tight (s u v : string) :
  trimEnd s = u ++ v -> all_ws v = true -> v = "".
Proof.
  revert u. induction s as [|c s IH]; intros u E W.
  - destruct u; [simpl in E; now subst v | discriminate].
  - cbn [trimEnd] in E. destruct (all_ws (String c s)) eqn:A.
    + destruct u; [simpl in E; now subst v | discriminate].
    + destruct u as [|c' u'].
      * simpl in E. subst v. exfalso.
        destruct (trimEnd_split s) as [r [Es Wr]].
        assert (X : all_ws (String c (trimEnd s) ++ r) = true)
          by (destruct (ws_head _ W r) as [X _]; now rewrite X).
        change (String c (trimEnd s) ++ r) with (String c (trimEnd s ++ r)) in X.
        rewrite <- Es in X. congruence.
      * simpl in E. injection E as _ E. exact (IH u' E W).
Qed.

(** [trim] leaves nothing exactly when the text is white space only, and
    what it leaves neither begins nor ends with white space. *)
Lemma trim_tight (s : string) :
  (trim s = "" <-> all_ws s = true)
  /\ forall u v, trim s = u ++ v ->
                 (all_ws u = true -> u = "") /\ (all_ws v = true -> v = "").
Proof.
  split.
  - rewrite all_ws_trimStart. unfold trim.
    destruct (trimStart s) as [|c t] eqn:E; [simpl; tauto |].
    split; [| discriminate]. cbn [trimEnd].
    destruct (all_ws (String c t)) eqn:A; [| discriminate].
    exfalso. assert (X : String c t = "").
    { apply (trimStart_tight s (String c t) ""); [| exact A].
      now rewrite E, append_empty_r. }
    discriminate.
  - intros u v E. split; intros W.
    + unfold trim in E. destruct (trimEnd_split (trimStart s)) as [r [Es _]].
      rewrite E, append_assoc in Es. exact (trimStart_tight s u (v ++ r) Es W).
    + exact (trimEnd_tight (trimStart s) u v E W).
Qed.

End JSFacts.

(* ===================================================================== *)
(** ** The stream parser of the provider *)
(* ===================================================================== *)

Module ClaudeFacts.
Import JS Claude.

Section Generic.
Variable P : Platform.
Context {S : Type}.
Variable cb : StreamCallbacks (S := S).

Lemma set_lineBuf_twice (a b : string) (st : Parser (S := S)) :
  set_lineBuf a (set_lineBuf b st) = set_lineBuf a st.
Proof. reflexivity. Qed.

Lemma set_lineBuf_same (st : Parser (S := S)) : set_lineBuf (lineBuf st) st = st.
Proof. now destruct st. Qed.

(** The line buffer is only carried along by the parsing of a line. *)
Lemma each_block_lineBuf (blocks : list JSVal) (lb lb' : string) (fr : JSVal) (s : S) :
  each_block P cb blocks lb fr s = set_lineBuf lb (each_block P cb blocks lb' fr s).
Proof.
  revert fr s; induction blocks as [|block rest IH]; intros fr s; simpl.
  - reflexivity.
  - destruct (Val.get block "type") as [ty|]; [| reflexivity].
    destruct (Val.is_str ty "tool_use").
    + destruct (onToolUse cb _ _ s) as [[u|e] s']; [apply IH | reflexivity].
    + destruct (Val.is_str ty "text" && Val.truthy P (Val.get_opt block "text")).
      * destruct (onText cb _ s) as [[u|e] s']; [apply IH | reflexivity].
      * apply IH.
Qed.

Lemma processLine_set_lineBuf (b line : string) (st : Parser) :
  processLine P cb line (set_lineBuf b st) = set_lineBuf b (processLine P cb line st).
Proof.
  unfold processLine.
  destruct (negb (nonempty (trim line))); [reflexivity |].
  destruct (JSON_parse P line) as [event|]; [| reflexivity].
  destruct (Val.get event "type") as [ty|]; [| reflexivity].
  destruct (Val.is_str ty "assistant" &&
            Val.truthy P (Val.get_opt (Val.get_opt event "message") "content")).
  - destruct (Val.get_opt (Val.get_opt event "message") "content"); try reflexivity.
    simpl. apply each_block_lineBuf.
  - destruct (Val.is_str ty "result"); [| reflexivity].
    destruct (Val.truthy P (Val.get_opt event "result")); reflexivity.
Qed.

Lemma processLines_set_lineBuf (b : string) (ls : list string) (st : Parser) :
  processLines P cb ls (set_lineBuf b st) = set_lineBuf b (processLines P cb ls st).
Proof.
  revert st; induction ls as [|l ls IH]; intros st; simpl; [reflexivity |].
  rewrite processLine_set_lineBuf. apply IH.
Qed.

Lemma processLines_app (l1 l2 : list string) (st : Parser) :
  processLines P cb (l1 ++ l2) st = processLines P cb l2 (processLines P cb l1 st).
Proof. apply fold_left_app. Qed.

Lemma onStdout_lines (chunk : string) (st : Parser) :
  onStdout P cb chunk st =
  processLines P cb (complete_lines (lineBuf st ++ chunk))
    (set_lineBuf (remainder (lineBuf st ++ chunk)) st).
Proof.
  unfold onStdout, complete_lines, remainder.
  now destruct (split_nl (lineBuf st ++ chunk)).
Qed.

(** After any number of stdout chunks the parser has handled exactly the
    complete lines of the text received so far, and holds the rest. *)
Lemma feed_stdout (chunks : list string) (st : Parser) :
  complete_lines (lineBuf st) = [] ->
  feed P cb (map Stdout chunks) st =
  processLines P cb (complete_lines (lineBuf st ++ concat chunks))
    (set_lineBuf (remainder (lineBuf st ++ concat chunks)) st).
Proof.
  revert st; induction chunks as [|c cs IH]; intros st Hbuf.
  - simpl. rewrite JSFacts.append_empty_r, Hbuf, (JSFacts.no_line_remainder _ Hbuf).
    simpl. now rewrite set_lineBuf_same.
  - change (feed P cb (map Stdout (c :: cs)) st)
      with (feed P cb (map Stdout cs) (onStdout P cb c st)).
    change (concat (c :: cs)) with (c ++ concat cs).
    rewrite <- JSFacts.append_assoc.
    destruct (JSFacts.lines_app (lineBuf st ++ c) (concat cs)) as [El Er].
    rewrite El, Er, processLines_app.
    rewrite onStdout_lines, processLines_set_lineBuf.
    rewrite IH by (simpl; apply JSFacts.remainder_has_no_line).
    simpl lineBuf.
    rewrite !processLines_set_lineBuf, !set_lineBuf_twice.
    reflexivity.
Qed.

(** Whatever the callbacks keep of the caller's state, a run of the agent
    keeps too. *)
Section Invariant.
Variable R : S -> S -> Prop.
Hypothesis R_refl : forall s, R s s.
Hypothesis R_trans : forall a b c, R a b -> R b c -> R a c.
Hypothesis R_onToolUse : forall name input s, R s (snd (onToolUse cb name input s)).
Hypothesis R_onText : forall text s, R s (snd (onText cb text s)).

Lemma each_block_keeps (blocks : list JSVal) (lb : string) (fr : JSVal) (s : S) :
  R s (user (each_block P cb blocks lb fr s)).
Proof.
  revert fr s; induction blocks as [|block rest IH]; intros fr s; simpl.
  - apply R_refl.
  - destruct (Val.get block "type") as [ty|]; [| apply R_refl].
    destruct (Val.is_str ty "tool_use").
    + pose proof (R_onToolUse (Val.get_opt block "name")
                    (Val.or_else P (Val.get_opt block "input") (JObj [])) s) as H.
      destruct (onToolUse cb _ _ s) as [[u|e] s']; simpl in H.
      * eapply R_trans; [exact H | apply IH].
      * exact H.
    + destruct (Val.is_str ty "text" && Val.truthy P (Val.get_opt block "text")).
      * pose proof (R_onText (Val.get_opt block "text") s) as H.
        destruct (onText cb _ s) as [[u|e] s']; simpl in H.
        -- eapply R_trans; [exact H | apply IH].
        -- exact H.
      * apply IH.
Qed.

Lemma processLine_keeps (line : string) (st : Parser) :
  R (user st) (user (processLine P cb line st)).
Proof.
  unfold processLine.
  destruct (negb (nonempty (trim line))); [apply R_refl |].
  destruct (JSON_parse P line) as [event|]; [| apply R_refl].
  destruct (Val.get event "type") as [ty|]; [| apply R_refl].
  destruct (Val.is_str ty "assistant" &&
            Val.truthy P (Val.get_opt (Val.get_opt event "message") "content")).
  - destruct (Val.get_opt (Val.get_opt event "message") "content");
      try apply R_refl.
    apply each_block_keeps.
  - destruct (Val.is_str ty "result"); [| apply R_refl].
    destruct (Val.truthy P (Val.get_opt event "result")); apply R_refl.
Qed.

Lemma processLines_keeps (ls : list string) (st : Parser) :
  R (user st) (user (processLines P cb ls st)).
Proof.
  revert st; induction ls as [|l ls IH]; intros st; simpl; [apply R_refl |].
  eapply R_trans; [apply processLine_keeps | apply IH].
Qed.

Lemma onEvent_keeps (st : Parser) (ev : ProcEvent) :
  R (user st) (user (onEvent P cb st ev)).
Proof.
  destruct ev as [chunk | chunk]; simpl.
  - rewrite onStdout_lines. apply (processLines_keeps _ (set_lineBuf _ st)).
  - unfold onStderr. destruct (nonempty (trim chunk)); [apply R_onText | apply R_refl].
Qed.

Lemma feed_keeps (evs : list ProcEvent) (st : Parser) :
  R (user st) (user (feed P cb evs st)).
Proof.
  revert st; induction evs as [|ev evs IH]; intros st; simpl; [apply R_refl |].
  eapply R_trans; [apply onEvent_keeps | apply IH].
Qed.

Lemma runAgent_keeps (run : AgentRun) (s : S) :
  R s (snd (runAgent P cb run s)).
Proof.
  unfold runAgent.
  pose proof (feed_keeps (events run) (start s)) as H. simpl in H.
  destruct (ending run) as [code | message]; simpl; [| exact H].
  unfold onClose.
  assert (H' : R s (user (if nonempty (trim (lineBuf (feed P cb (events run) (start s))))
                          then processLine P cb (lineBuf (feed P cb (events run) (start s)))
                                 (feed P cb (events run) (start s))
                          else feed P cb (events run) (start s)))).
  { destruct (nonempty _); [| exact H].
    eapply R_trans; [exact H | apply processLine_keeps]. }
  destruct code as [[| |]|]; exact H'.
Qed.

End Invariant.

End Generic.

Lemma write_record_is_one_line : complete_lines Scenario.write_record = [].
Proof. vm_compute. reflexivity. Qed.

(** C4.  Whatever way the standard output of the agent is cut into chunks,
    the parser has handled, after any number of chunks, exactly the complete
    lines of the text received so far, each once and in order, and keeps the
    unfinished line in its buffer; when the process closes, the text left in
    the buffer is parsed as a last line.  For the record of a [Write] of
    [a.ts] cut at any offset [k]: nothing is reported while its line feed has
    not arrived, and the whole run reports exactly one [onToolUse] call with
    that name and input, also when the line feed never comes and the record is
    flushed at the close. *)
Theorem stdout_records_parsed_once_at_line_end :
  (forall (P : Platform) (S : Type) (cb : StreamCallbacks (S := S))
          (chunks : list string) (s : S),
      feed P cb (map Stdout chunks) (start s) =
      processLines P cb (complete_lines (concat chunks))
        (set_lineBuf (remainder (concat chunks)) (start s)))
  /\ (forall (P : Platform) (S : Type) (cb : StreamCallbacks (S := S))
             (chunks : list string) (code : option Z) (s : S),
      let parsed := processLines P cb (complete_lines (concat chunks))
                      (set_lineBuf (remainder (concat chunks)) (start s)) in
      runAgent P cb {| events := map Stdout chunks; ending := Close code |} s =
        onClose P cb code parsed
      /\ lineBuf parsed = remainder (concat chunks))
  /\ (forall k : nat,
      let text := Scenario.write_record ++ LF in
      user (feed Json.platform recorder [Stdout (take k text)] (start [])) =
        (if (k <? String.length text)%nat then [] else [Scenario.write_call])
      /\ snd (runAgent Json.platform recorder
                {| events := [Stdout (take k text); Stdout (drop k text)];
                   ending := Close (Some 0%Z) |} []) = [Scenario.write_call]
      /\ snd (runAgent Json.platform recorder
                {| events := [Stdout (take k Scenario.write_record);
                              Stdout (drop k Scenario.write_record)];
                   ending := Close (Some 0%Z) |} []) = [Scenario.write_call]).
Proof.
  assert (G : forall (P : Platform) (S : Type) (cb : StreamCallbacks (S := S))
                     (chunks : list string) (s : S),
             feed P cb (map Stdout chunks) (start s) =
             processLines P cb (complete_lines (concat chunks))
               (set_lineBuf (remainder (concat chunks)) (start s))).
  { intros P S cb chunks s. apply (feed_stdout P cb chunks (start s)). reflexivity. }
  assert (G2 : forall (P : Platform) (S : Type) (cb : StreamCallbacks (S := S))
                      (chunks : list string) (code : option Z) (s : S),
             runAgent P cb {| events := map Stdout chunks; ending := Close code |} s =
             onClose P cb code
               (processLines P cb (complete_lines (concat chunks))
                  (set_lineBuf (remainder (concat chunks)) (start s)))).
  { intros P S cb chunks code s. unfold runAgent; simpl events; simpl ending.
    now rewrite G. }
  split; [exact G |]. split.
  - intros P S cb chunks code s parsed. split; [apply G2 |].
    unfold parsed. now rewrite processLines_set_lineBuf.
  - intros k text. split; [| split].
    + change [Stdout (take k text)] with (map Stdout [take k text]).
      rewrite G. simpl concat. rewrite JSFacts.append_empty_r.
      destruct (Nat.ltb_spec k (String.length text)) as [Hlt | Hge].
      * unfold text in *. rewrite JSFacts.length_append in Hlt.
        change (String.length LF) with 1 in Hlt.
        rewrite JSFacts.take_app_le by lia.
        rewrite (JSFacts.no_line_take k _ write_record_is_one_line).
        reflexivity.
      * rewrite (JSFacts.take_all k text Hge). vm_compute. reflexivity.
    + rewrite (G2 Json.platform _ recorder [take k text; drop k text]).
      simpl concat. rewrite JSFacts.append_empty_r, JSFacts.take_drop.
      vm_compute. reflexivity.
    + rewrite (G2 Json.platform _ recorder
                 [take k Scenario.write_record; drop k Scenario.write_record]).
      simpl concat. rewrite JSFacts.append_empty_r, JSFacts.take_drop.
      vm_compute. reflexivity.
Qed.

(** A chunk of standard error reaches [onText] without the white space at
    its two ends. *)
Lemma stderr_chunk_not_verbatim :
  Scenario.stderr_calls " warn " <> [CallText (JStr " warn ")]
  /\ Scenario.stderr_calls LF = [].
Proof. split; [vm_compute; discriminate | vm_compute; reflexivity]. Qed.

(** C9, as the code has it.  A chunk of standard error is trimmed first: when
    something is left, [onText] is called once with the trimmed text, and when
    the chunk is white space only, it is not called; the trimmed text is the
    chunk without the white space at its two ends (it neither begins nor ends
    with white space, and it is empty exactly when the chunk is white space
    only), and neither the line buffer nor the running result is touched. *)
Theorem stderr_forwarded_trimmed :
  forall (chunk : string),
    Scenario.stderr_calls chunk =
      (if nonempty (trim chunk) then [CallText (JStr (trim chunk))] else [])
    /\ (exists l r, chunk = l ++ trim chunk ++ r /\ all_ws l = true /\ all_ws r = true)
    /\ (nonempty (trim chunk) = false <-> all_ws chunk = true)
    /\ (forall u v, trim chunk = u ++ v ->
                    (all_ws u = true -> u = "") /\ (all_ws v = true -> v = ""))
    /\ (forall (S : Type) (cb : StreamCallbacks (S := S)) (st : Parser),
          lineBuf (onStderr cb chunk st) = lineBuf st
          /\ finalResult (onStderr cb chunk st) = finalResult st
          /\ user (onStderr cb chunk st) =
             (if nonempty (trim chunk)
              then snd (onText cb (JStr (trim chunk)) (user st))
              else user st)).
Proof.
  intros chunk. split; [| split; [| split; [| split]]].
  - unfold Scenario.stderr_calls, onStderr.
    destruct (nonempty (trim chunk)); reflexivity.
  - apply JSFacts.trim_split.
  - destruct (JSFacts.trim_tight chunk) as [[T1 T2] _].
    split; intros H.
    + apply T1. now destruct (trim chunk).
    + now rewrite (T2 H).
  - apply JSFacts.trim_tight.
  - intros S cb st. unfold onStderr.
    destruct (nonempty (trim chunk)); auto.
Qed.

End ClaudeFacts.

(* ===================================================================== *)
(** ** The live log endpoint *)
(* ===================================================================== *)

Module LogRouteFacts.
Import LogRoute.

Lemma emit_without_listeners (P : Platform) (c : Conn) (ev : string * string) :
  listeners c = [] -> emit P c ev = c.
Proof.
  intros H. destruct c as [o l]. simpl in H. subst l.
  unfold emit. simpl. now rewrite app_nil_r.
Qed.

Lemma emits_without_listeners (P : Platform) (evs : list (string * string)) (c : Conn) :
  listeners c = [] -> fold_left (emit P) evs c = c.
Proof.
  revert c; induction evs as [|ev evs IH]; intros c H; simpl; [reflexivity |].
  rewrite (emit_without_listeners P c ev H). now apply IH.
Qed.

(** C8.  When the job read by the endpoint is not running, the response
    consists of the head of an event stream, one [done] event, which is the
    text [event: done], a line feed, [data: ] followed by the status of the
    job, and two line feeds, and the end of the stream; the request leaves no
    listener on the bus, so that whatever is published afterwards writes
    nothing more: the response stays these three operations, and no data
    event is ever written. *)
Theorem terminal_job_gets_done_at_once :
  forall (P : Platform) (id : Z) (status : string) (later : list (string * string)),
    status <> "running" ->
    let c := handle (Found id status) in
    let response :=
      [WriteHead 200 [("Content-Type", "text/event-stream");
                      ("Cache-Control", "no-cache");
                      ("Connection", "keep-alive")];
       Write ("event: done" ++ JS.LF ++ "data: " ++ status ++ JS.LF ++ JS.LF);
       End] in
    ops c = response
    /\ listeners c = []
    /\ fold_left (emit P) later c = c
    /\ ops (fold_left (emit P) later c) = response
    /\ filter is_data (ops (fold_left (emit P) later c)) = [].
Proof.
  intros P id status later Hs c response.
  assert (E : c = {| ops := response; listeners := [] |}).
  { unfold c, handle. apply String.eqb_neq in Hs. now rewrite Hs. }
  rewrite E. split; [reflexivity |]. split; [reflexivity |].
  rewrite emits_without_listeners by reflexivity.
  split; [reflexivity |]. split; reflexivity.
Qed.

Lemma terminal_job_gets_done_at_once_witness :
  let c := handle (Found 7 "completed") in
  let later := [("job:7", "late line"); ("job:7:done", "completed")] in
  let response :=
    [WriteHead 200 [("Content-Type", "text/event-stream");
                    ("Cache-Control", "no-cache");
                    ("Connection", "keep-alive")];
     Write ("event: done" ++ JS.LF ++ "data: completed" ++ JS.LF ++ JS.LF);
     End] in
  "completed" <> "running"
  /\ ops c = response
  /\ listeners c = []
  /\ fold_left (emit Json.platform) later c = c
  /\ ops (fold_left (emit Json.platform) later c) = response
  /\ filter is_data (ops (fold_left (emit Json.platform) later c)) = [].
Proof.
  assert (H : "completed" <> "running") by discriminate.
  split; [exact H |].
  exact (terminal_job_gets_done_at_once Json.platform 7 "completed"
           [("job:7", "late line"); ("job:7:done", "completed")] H).
Defined.

End LogRouteFacts.

(* ===================================================================== *)
(** ** The change description *)
(* ===================================================================== *)

Module PrBodyFacts.
Import JS PrBody.

Lemma find_eq (needle s : string) :
  find needle s =
  if starts_with needle s then Some ("", drop (String.length needle) s)
  else match s with
       | "" => None
       | String c r =>
           match find needle r with
           | Some (before, after) => Some (String c before, after)
           | None => None
           end
       end.
Proof. destruct s; reflexivity. Qed.

Lemma starts_with_app (n b : string) : starts_with n (n ++ b) = true.
Proof.
  induction n as [|c n IH]; simpl; [reflexivity |].
  now rewrite Ascii.eqb_refl, IH.
Qed.

Lemma drop_app (n b : string) : drop (String.length n) (n ++ b) = b.
Proof. induction n as [|c n IH]; simpl; [now destruct b | exact IH]. Qed.

Lemma starts_with_split (n s : string) :
  starts_with n s = true -> s = n ++ drop (String.length n) s.
Proof.
  revert s; induction n as [|c n IH]; intros s H; simpl in *.
  - now destruct s.
  - destruct s as [|d s]; [discriminate |].
    apply andb_prop in H as [Hc Hr]. apply Ascii.eqb_eq in Hc. subst d.
    now rewrite <- IH.
Qed.

(** [find] cuts the text around an occurrence of the needle... *)
Lemma find_sound (needle s a b : string) :
  find needle s = Some (a, b) -> s = a ++ needle ++ b.
Proof.
  revert a b; induction s as [|c s IH]; intros a b; rewrite find_eq.
  - destruct (starts_with needle "") eqn:E; [| discriminate].
    intros H; injection H as <- <-. now apply starts_with_split.
  - destruct (starts_with needle (String c s)) eqn:E.
    + intros H; injection H as <- <-. now apply starts_with_split.
    + destruct (find needle s) as [[a' b']|]; [| discriminate].
      intros H; injection H as <- <-. simpl. now rewrite (IH a' b').
Qed.

(** ... and around the first one. *)
Lemma find_first (needle a b : string) :
  (forall i, i < String.length a ->
             starts_with needle (drop i (a ++ needle ++ b)) = false) ->
  find needle (a ++ needle ++ b) = Some (a, b).
Proof.
  induction a as [|c a IH]; intros H; rewrite find_eq.
  - simpl. now rewrite starts_with_app, drop_app.
  - assert (H0 := H 0 ltac:(simpl; lia)). simpl in H0.
    simpl. rewrite H0, IH; [reflexivity |].
    intros i Hi. apply (H (S i)). simpl. lia.
Qed.

Lemma find_complete (needle a b : string) : find needle (a ++ needle ++ b) <> None.
Proof.
  induction a as [|c a IH]; rewrite find_eq.
  - simpl. now rewrite starts_with_app.
  - simpl. destruct (starts_with needle (String c (a ++ needle ++ b))); [discriminate |].
    destruct (find needle (a ++ needle ++ b)) as [[x y]|]; [discriminate | contradiction].
Qed.

Lemma includes_app (needle a b : string) : includes (a ++ needle ++ b) needle = true.
Proof.
  unfold includes. destruct (find needle (a ++ needle ++ b)) eqn:E; [reflexivity |].
  now apply find_complete in E.
Qed.

(** No occurrence of the needle starts before the one [find] cuts at. *)
Lemma find_minimal (needle s a b : string) :
  find needle s = Some (a, b) ->
  forall i, i < String.length a -> starts_with needle (drop i s) = false.
Proof.
  revert a b; induction s as [|c s IH]; intros a b; rewrite find_eq.
  - destruct (starts_with needle "") eqn:E; [| discriminate].
    intros H; injection H as <- <-. intros i Hi. simpl in Hi. lia.
  - destruct (starts_with needle (String c s)) eqn:E.
    + intros H; injection H as <- <-. intros i Hi. simpl in Hi. lia.
    + destruct (find needle s) as [[a' b']|] eqn:F; [| discriminate].
      intros H; injection H as <- <-. intros [|i] Hi; [exact E |].
      simpl in Hi. simpl. apply (IH a' b' eq_refl). lia.
Qed.

Lemma drop_app_le (n : nat) (u v : string) :
  n <= String.length u -> drop n (u ++ v) = drop n u ++ v.
Proof.
  revert u; induction n as [|n IH]; intros u H; [now destruct u |].
  destruct u as [|c u]; simpl in *; [lia |]. apply IH. lia.
Qed.

Lemma drop_length (u v : string) : drop (String.length u) (u ++ v) = v.
Proof. induction u as [|c u IH]; simpl; [now destruct v | exact IH]. Qed.

(** An output that holds a start line and later an end line holds them as
    [group1] finds them: the first start line, and the first end line after
    it. *)
Lemma first_marker_lines (o a b c : string) :
  o = a ++ (START ++ LF) ++ b ++ (LF ++ END_) ++ c ->
  exists pre body post,
    o = pre ++ (START ++ LF) ++ body ++ (LF ++ END_) ++ post
    /\ (forall i, i < String.length pre -> starts_with (START ++ LF) (drop i o) = false)
    /\ (forall j, j < String.length body ->
                  starts_with (LF ++ END_) (drop j (body ++ (LF ++ END_) ++ post)) = false).
Proof.
  intros E.
  destruct (find (START ++ LF) o) as [[pre rest]|] eqn:F1;
    [| subst o; now apply find_complete in F1].
  assert (M1 := find_minimal _ _ _ _ F1).
  assert (S1 := find_sound _ _ _ _ F1).
  assert (L : String.length pre <= String.length a).
  { destruct (Nat.le_gt_cases (String.length pre) (String.length a)) as [H | H];
      [exact H |].
    specialize (M1 _ H). rewrite E, drop_length in M1.
    rewrite starts_with_app in M1. discriminate. }
  assert (R : rest = drop (String.length (pre ++ START ++ LF)) o).
  { rewrite S1.
    replace (pre ++ (START ++ LF) ++ rest) with ((pre ++ START ++ LF) ++ rest)
      by now rewrite !JSFacts.append_assoc.
    now rewrite drop_length. }
  assert (R2 : rest = drop (String.length (pre ++ START ++ LF)) (a ++ (START ++ LF) ++ b)
                      ++ (LF ++ END_) ++ c).
  { rewrite R, E.
    replace (a ++ (START ++ LF) ++ b ++ (LF ++ END_) ++ c)
      with ((a ++ (START ++ LF) ++ b) ++ (LF ++ END_) ++ c)
      by now rewrite !JSFacts.append_assoc.
    apply drop_app_le. rewrite !JSFacts.length_append in *. lia. }
  destruct (find (LF ++ END_) rest) as [[body post]|] eqn:F2;
    [| rewrite R2 in F2; now apply find_complete in F2].
  assert (M2 := find_minimal _ _ _ _ F2).
  assert (S2 := find_sound _ _ _ _ F2).
  exists pre, body, post. split; [now rewrite S1, S2 |].
  split; [exact M1 |]. now rewrite <- S2.
Qed.

(** An output in which some group is found contains both markers. *)
Lemma group1_markers (output body : string) :
  group1 output = Some body ->
  includes output START = true /\ includes output END_ = true.
Proof.
  unfold group1.
  destruct (find (START ++ LF) output) as [[pre rest]|] eqn:E1; [| discriminate].
  destruct (find (LF ++ END_) rest) as [[b post]|] eqn:E2; [| discriminate].
  intros _. apply find_sound in E1, E2. subst rest. subst output. split.
  - rewrite JSFacts.append_assoc. apply includes_app.
  - replace (pre ++ (START ++ LF) ++ b ++ (LF ++ END_) ++ post)
      with ((pre ++ START ++ LF ++ b ++ LF) ++ END_ ++ post).
    + apply includes_app.
    + now rewrite !JSFacts.append_assoc.
Qed.

Lemma fallback_nonempty (i : option Z) : nonempty (fallback i) = true.
Proof. destruct i; reflexivity. Qed.

Lemma prBody_nonempty (i : option Z) (output : string) : nonempty (prBody i output) = true.
Proof.
  unfold prBody, extract. destruct (group1 output) as [body|].
  - destruct (nonempty (trim body)) eqn:E; [exact E | apply fallback_nonempty].
  - apply fallback_nonempty.
Qed.

(** The two markers with text between them, but not on lines of their own:
    nothing is extracted and the default description is used. *)
Lemma markers_without_line_feeds_not_extracted :
  let output := START ++ "Fixed the parser." ++ END_ in
  includes output START = true
  /\ includes output END_ = true
  /\ prBody None output <> trim "Fixed the parser."
  /\ prBody None output = "_Auto-generated by Vampire_".
Proof. vm_compute. repeat split; discriminate. Qed.

(** C5, as the code has it.  When the agent's output holds a line feed after
    its first start marker, and later a line feed before an end marker, the
    change description is the text between that start line and the first such
    end line, without the white space at its two ends, unless nothing but
    white space is there; an output
    lacking a marker gets the default description, which names the issue when
    the job has one; the description is never empty, so it is what the result
    of the worker carries to the final update.  Every other output gets the
    default description too: an output that holds no start line followed, at
    any distance, by an end line; and an output that does hold them is one of
    those described first. *)
Theorem prBody_between_marker_lines :
  forall (issue : option Z) (pre body post : string),
    let output := pre ++ (START ++ LF) ++ body ++ (LF ++ END_) ++ post in
    (forall i, i < String.length pre ->
               starts_with (START ++ LF) (drop i output) = false) ->
    (forall j, j < String.length body ->
               starts_with (LF ++ END_) (drop j (body ++ (LF ++ END_) ++ post)) = false) ->
    prBody issue output = (if nonempty (trim body) then trim body else fallback issue)
    /\ (exists l r, body = l ++ trim body ++ r /\ all_ws l = true /\ all_ws r = true)
    /\ (nonempty (trim body) = false <-> all_ws body = true)
    /\ (forall u v, trim body = u ++ v ->
                    (all_ws u = true -> u = "") /\ (all_ws v = true -> v = ""))
    /\ (forall o : string,
          includes o START = false \/ includes o END_ = false ->
          prBody issue o = fallback issue)
    /\ (forall o : string,
          (forall a b c, o <> a ++ (START ++ LF) ++ b ++ (LF ++ END_) ++ c) ->
          prBody issue o = fallback issue)
    /\ (forall o a b c : string,
          o = a ++ (START ++ LF) ++ b ++ (LF ++ END_) ++ c ->
          exists pre' body' post',
            o = pre' ++ (START ++ LF) ++ body' ++ (LF ++ END_) ++ post'
            /\ (forall i, i < String.length pre' ->
                          starts_with (START ++ LF) (drop i o) = false)
            /\ (forall j, j < String.length body' ->
                          starts_with (LF ++ END_)
                            (drop j (body' ++ (LF ++ END_) ++ post')) = false)
            /\ prBody issue o =
               (if nonempty (trim body') then trim body' else fallback issue))
    /\ (forall n : Z, includes (fallback (Some n)) ("#" ++ of_Z n) = true)
    /\ fallback None = "_Auto-generated by Vampire_"
    /\ (forall (env : Worker.Env) (job : Worker.Job) (t : Worker.Task) (w : Worker.Workspace)
               (o : string) (st st' : Worker.WState) (r : Worker.WorkerResult),
          Worker.results env job t w (JStr o) st = (Normal r, st') ->
          Worker.status r = "completed"
          /\ Worker.or_null (Worker.r_prBody r) = Some (prBody (Worker.issueNo job) o)).
Proof.
  intros issue pre body post output H1 H2.
  assert (First : forall pre body post : string,
             (forall i, i < String.length pre ->
                        starts_with (START ++ LF)
                          (drop i (pre ++ (START ++ LF) ++ body ++ (LF ++ END_) ++ post))
                        = false) ->
             (forall j, j < String.length body ->
                        starts_with (LF ++ END_) (drop j (body ++ (LF ++ END_) ++ post))
                        = false) ->
             prBody issue (pre ++ (START ++ LF) ++ body ++ (LF ++ END_) ++ post) =
             (if nonempty (trim body) then trim body else fallback issue)).
  { intros pre0 body0 post0 F1 F2. unfold prBody, extract, group1.
    rewrite (find_first _ _ _ F1), (find_first _ _ _ F2).
    destruct (nonempty (trim body0)); reflexivity. }
  split; [| split; [| split; [| split; [| split; [| split; [| split; [| split; [| split]]]]]]]].
  - exact (First pre body post H1 H2).
  - apply JSFacts.trim_split.
  - destruct (JSFacts.trim_tight body) as [[T1 T2] _].
    split; intros H.
    + apply T1. now destruct (trim body).
    + now rewrite (T2 H).
  - apply JSFacts.trim_tight.
  - intros o Ho. unfold prBody, extract.
    destruct (group1 o) as [b|] eqn:E; [| reflexivity].
    apply group1_markers in E as [E1 E2].
    destruct Ho as [Ho | Ho]; congruence.
  - intros o Ho. unfold prBody, extract, group1.
    destruct (find (START ++ LF) o) as [[a rest]|] eqn:E1; [| reflexivity].
    destruct (find (LF ++ END_) rest) as [[b c]|] eqn:E2; [| reflexivity].
    apply find_sound in E1, E2. subst rest. destruct (Ho a b c E1).
  - intros o a b c E.
    destruct (first_marker_lines o a b c E) as [pre' [body' [post' [Eo [F1 F2]]]]].
    exists pre', body', post'. split; [exact Eo |]. split; [exact F1 |].
    split; [exact F2 |]. rewrite Eo in F1 |- *. exact (First pre' body' post' F1 F2).
  - intros n.
    exact (includes_app ("#" ++ of_Z n) "Resolves "
             (LF ++ LF ++ "_Auto-generated by Vampire_")).
  - reflexivity.
  - intros env job t w o st st' r. unfold Worker.results, Worker.bind, Worker.exec.
    destruct (Worker.env_exec env _ _ _ _); [| discriminate].
    simpl. intros H; injection H as <- <-. simpl. split; [reflexivity |].
    now rewrite prBody_nonempty.
Qed.

Lemma prBody_between_marker_lines_witness :
  prBody (Some 42%Z)
    (("Done." ++ LF) ++ (START ++ LF) ++ ("  Resolves #42" ++ LF) ++ (LF ++ END_) ++ LF)
  = "Resolves #42".
Proof.
  refine (proj1 (prBody_between_marker_lines (Some 42%Z) ("Done." ++ LF)
                   ("  Resolves #42" ++ LF) LF _ _)).
  - intros i Hi. simpl in Hi.
    do 6 (destruct i as [|i]; [reflexivity |]). lia.
  - intros j Hj. simpl in Hj.
    do 15 (destruct j as [|j]; [reflexivity |]). lia.
Defined.

End PrBodyFacts.

(* ===================================================================== *)
(** ** The worker *)
(* ===================================================================== *)

Module WorkerFacts.
Import JS Worker.
Local Open Scope worker_scope.

(** *** Running a bind *)

Lemma bind_run {A B} (m : M A) (f : A -> M B) (st : WState) :
  bind m f st =
  match m st with
  | (Normal a, st') => f a st'
  | (Throw e, st') => (Throw e, st')
  end.
Proof. reflexivity. Qed.

(** *** What a computation may add to the history *)

Section Growth.
Variable keep : bool.
Variable Q : Action -> bool.

Lemma Grows_refl (st : WState) : Grows keep Q st st.
Proof.
  repeat split.
  - exists []. now rewrite app_nil_r.
  - exists "". now rewrite JSFacts.append_empty_r.
Qed.

Lemma Grows_trans (a b c : WState) :
  Grows keep Q a b -> Grows keep Q b c -> Grows keep Q a c.
Proof.
  intros [[l1 [T1 F1]] [[s1 L1] K1]] [[l2 [T2 F2]] [[s2 L2] K2]].
  repeat split.
  - exists (l1 ++ l2)%list. rewrite T2, T1, <- app_assoc, forallb_app, F1, F2. auto.
  - exists (s1 ++ s2). now rewrite L2, L1, JSFacts.append_assoc.
  - intros H. now rewrite (K2 H), (K1 H).
Qed.

Lemma Grows_record (a : Action) (st : WState) :
  Q a = true -> Grows keep Q st (record a st).
Proof.
  intros H. repeat split.
  - exists [a]. simpl. now rewrite H.
  - exists "". simpl. now rewrite JSFacts.append_empty_r.
Qed.

Lemma Safe_ret {A} (a : A) : Safe keep Q (ret a).
Proof. intros st. apply Grows_refl. Qed.

Lemma Safe_throw {A} (e : Thrown) : Safe keep Q (throw (A := A) e).
Proof. intros st. apply Grows_refl. Qed.

Lemma Safe_bind {A B} (m : M A) (f : A -> M B) :
  Safe keep Q m -> (forall a, Safe keep Q (f a)) -> Safe keep Q (bind m f).
Proof.
  intros Hm Hf st. rewrite bind_run. specialize (Hm st).
  destruct (m st) as [[a|e] st']; simpl in *.
  - eapply Grows_trans; [exact Hm | apply Hf].
  - exact Hm.
Qed.

Lemma Safe_try_catch {A} (m : M A) (h : Thrown -> M A) :
  Safe keep Q m -> (forall e, Safe keep Q (h e)) -> Safe keep Q (try_catch m h).
Proof.
  intros Hm Hh st. unfold try_catch. specialize (Hm st).
  destruct (m st) as [[a|e] st']; simpl in *.
  - exact Hm.
  - eapply Grows_trans; [exact Hm | apply Hh].
Qed.

Lemma Safe_attempt (m : M unit) : Safe keep Q m -> Safe keep Q (attempt m).
Proof. intros H. apply Safe_try_catch; [exact H | intros e; apply Safe_ret]. Qed.

Section Primitives.
Variable P : Platform.
Variable env : Env.
Variable job : Job.

Lemma Safe_log (text : string) : Safe keep Q (log job text).
Proof.
  intros st. repeat split.
  - exists []. simpl. now rewrite app_nil_r.
  - exists (text ++ LF). reflexivity.
Qed.

Lemma Safe_exec (cmd : string) (args : list string) (cwd : option string) :
  (forall r, Q (AExec cmd args cwd r) = true) -> Safe keep Q (exec env cmd args cwd).
Proof.
  intros H st. unfold exec.
  destruct (env_exec env (trace st) cmd args cwd); apply Grows_record, H.
Qed.

Lemma Safe_isCancelled :
  (forall r, Q (AFindStatus r) = true) -> Safe keep Q (isCancelled env).
Proof. intros H st. apply Grows_record, H. Qed.

Lemma Safe_checkpoint :
  (forall r, Q (AFindStatus r) = true) -> Safe keep Q (checkpoint env).
Proof.
  intros H. apply Safe_bind; [now apply Safe_isCancelled |].
  intros [|]; [apply Safe_throw | apply Safe_ret].
Qed.

Lemma Safe_updateTitle (title : string) :
  (forall r, Q (AUpdateTitle title r) = true) -> Safe keep Q (updateTitle env title).
Proof. intros H st. apply Grows_record, H. Qed.

Lemma Safe_existsSync (file : string) :
  (forall r, Q (AExistsSync file r) = true) -> Safe keep Q (existsSync env file).
Proof. intros H st. apply Grows_record, H. Qed.

Lemma Safe_readFileSync (file : string) :
  (forall r, Q (AReadFile file r) = true) -> Safe keep Q (readFileSync env file).
Proof. intros H st. apply Grows_record, H. Qed.

Lemma Safe_now : Safe keep Q (now env).
Proof. intros st. apply Grows_refl. Qed.

Lemma Safe_Date_now : Safe keep Q (Date_now env).
Proof. intros st. apply Grows_refl. Qed.

Lemma Safe_getProvider (name : string) : Safe keep Q (getProvider name).
Proof. unfold getProvider. destruct (name =? "claude")%string; [apply Safe_ret | apply Safe_throw]. Qed.

Lemma Safe_field_or (input : JSVal) (key dflt : string) :
  Safe keep Q (field_or P input key dflt).
Proof. unfold field_or. destruct (Val.get input key); [apply Safe_ret | apply Safe_throw]. Qed.

End Primitives.
End Growth.

Lemma Safe_set_cloneDir (Q : Action -> bool) (dir : string) :
  Safe false Q (set_cloneDir dir).
Proof.
  intros st. repeat split.
  - exists []. simpl. now rewrite app_nil_r.
  - exists "". simpl. now rewrite JSFacts.append_empty_r.
  - discriminate.
Qed.

(** One step of a proof that a computation is [Safe]: the rule of its head
    construct, with the condition on the action it records decided by
    computation. *)
Ltac safe_step :=
  lazymatch goal with
  | |- Safe _ _ (ret _) => apply Safe_ret
  | |- Safe _ _ (throw _) => apply Safe_throw
  | |- Safe _ _ (type_error _) => apply Safe_throw
  | |- Safe _ _ (bind _ _) => apply Safe_bind; [| intros ?]
  | |- Safe _ _ (try_catch _ _) => apply Safe_try_catch; [| intros ?]
  | |- Safe _ _ (attempt _) => apply Safe_attempt
  | |- Safe _ _ (log _ _) => apply Safe_log
  | |- Safe _ _ (exec _ _ _ _) =>
      apply Safe_exec; intros;
      first [reflexivity
            | unfold housed, targets, clone_target, is_clone; simpl;
              rewrite String.eqb_refl; reflexivity]
  | |- Safe _ _ (isCancelled _) => apply Safe_isCancelled; intros; reflexivity
  | |- Safe _ _ (checkpoint _) => apply Safe_checkpoint; intros; reflexivity
  | |- Safe _ _ (updateTitle _ _) => apply Safe_updateTitle; intros; reflexivity
  | |- Safe _ _ (existsSync _ _) => apply Safe_existsSync; intros; reflexivity
  | |- Safe _ _ (readFileSync _ _) => apply Safe_readFileSync; intros; reflexivity
  | |- Safe _ _ (now _) => apply Safe_now
  | |- Safe _ _ (Date_now _) => apply Safe_Date_now
  | |- Safe _ _ (getProvider _) => apply Safe_getProvider
  | |- Safe _ _ (field_or _ _ _ _) => apply Safe_field_or
  | |- Safe false _ (set_cloneDir _) => apply Safe_set_cloneDir
  | |- Safe _ _ (if ?b then _ else _) => destruct b
  | |- Safe _ _ (match ?x with _ => _ end) => destruct x
  | |- Safe _ _ (let '_ := ?x in _) => destruct x
  end.

Ltac safe := repeat safe_step.

(** *** The callbacks and the agent *)

Section Stages.
Variable P : Platform.
Variable env : Env.
Variable job : Job.
Variable project : Project.
Variable followUp : option FollowUpContext.

Lemma Safe_onToolUse keep Q (name input : JSVal) :
  Safe keep Q (worker_onToolUse P job name input).
Proof. unfold worker_onToolUse. safe. Qed.

Lemma Safe_onText keep Q (text : JSVal) : Safe keep Q (worker_onText job text).
Proof. unfold worker_onText. safe. Qed.

(** On a string the worker's [onText] does not throw. *)
Lemma onText_string_normal (s : string) (st : WState) :
  fst (worker_onText job (JStr s) st) = Normal tt.
Proof. reflexivity. Qed.

Lemma Safe_runAgent keep Q (prompt cwd : string) :
  (forall run, Q (ASpawn "claude" (Claude.spawn_args prompt) cwd run) = true) ->
  Safe keep Q (runAgent P env job prompt cwd).
Proof.
  intros H st. unfold runAgent.
  eapply Grows_trans; [apply Grows_record, H |].
  apply (ClaudeFacts.runAgent_keeps P (callbacks P job) (Grows keep Q)).
  - apply Grows_refl.
  - apply Grows_trans.
  - intros name input s. apply Safe_onToolUse.
  - intros text s. apply Safe_onText.
Qed.

(** *** The change check *)


End Stages.

Ltac stage :=
  unfold prepare, banner, resolve, fetch, workspace, agentStage, buildPrompt,
    prInstructions, checkChanges, commitPush, results, on_error;
  repeat first [ safe_step
               | apply Safe_runAgent; intros; reflexivity ].

(** *** The stages, by what they may add to the history *)

Lemma attempts_quiet P env job project (remaining : nat) :
  forall attempt_no t w prompt0 claudeOutput,
    Safe false quiet (attempts P env job project remaining attempt_no t w prompt0 claudeOutput).
Proof.
  induction remaining as [|remaining IH]; intros; simpl attempts.
  - apply Safe_ret.
  - stage. apply IH.
Qed.

Lemma prepare_quiet P env job project followUp :
  Safe false quiet (prepare P env job project followUp).
Proof. stage. apply attempts_quiet. Qed.

(** *** After the [try] block: [catch], [finally] and the settling *)

Lemma runWorker_run P env job project followUp :
  runWorker P env job project followUp =
  let '(c, st) := try_catch (body P env job project followUp) (on_error job) initial in
  settle env job c (cleanup env job st).
Proof.
  unfold runWorker, workerPromise, finally.
  now destruct (try_catch _ _ initial).
Qed.

Lemma cleanup_trace env job (st : WState) :
  trace (cleanup env job st) = (trace st ++ tidied env st)%list.
Proof.
  unfold cleanup, tidied. destruct (cloneDir st) as [dir|].
  - destruct (nonempty dir).
    + destruct (env_rm env (trace st) dir); reflexivity.
    + now rewrite app_nil_r.
  - now rewrite app_nil_r.
Qed.

Lemma cleanup_log env job (st : WState) :
  exists tidy, logBuffer (cleanup env job st) = logBuffer st ++ tidy
               /\ (tidy = "" \/ tidy = LF ++ "Cleaning up workspace..." ++ LF).
Proof.
  unfold cleanup. destruct (cloneDir st) as [dir|].
  - destruct (nonempty dir).
    + destruct (env_rm env (trace st) dir); simpl.
      * exists (LF ++ "Cleaning up workspace..." ++ LF). split; [| now right].
        now rewrite JSFacts.append_assoc.
      * exists "". rewrite JSFacts.append_empty_r. auto.
    + exists "". rewrite JSFacts.append_empty_r. auto.
  - exists "". rewrite JSFacts.append_empty_r. auto.
Qed.

Lemma cleanup_cloneDir env job (st : WState) :
  cloneDir (cleanup env job st) = cloneDir st.
Proof.
  unfold cleanup. destruct (cloneDir st) as [dir|] eqn:E; [| exact E].
  destruct (nonempty dir); [| exact E].
  destruct (env_rm env (trace st) dir); exact E.
Qed.

(** The settling after a rejection, or after a result that is not
    [cancelled]: one read of the status, then the final update. *)
Lemma settle_throw env job (e : Thrown) (st : WState) :
  let read := env_findStatus env (trace st) in
  let fs := if says_cancelled read then "cancelled" else "failed" in
  finalStatus (settle env job (Throw e) st) = fs
  /\ (exists ok, trace (final (settle env job (Throw e) st)) =
                 (trace st ++ [AFindStatus read;
                               AUpdateFinal (StatusAndLog fs (logBuffer st)) ok])%list)
  /\ logBuffer (final (settle env job (Throw e) st)) = logBuffer st
  /\ cloneDir (final (settle env job (Throw e) st)) = cloneDir st.
Proof.
  intros read fs. unfold settle, cancelled_now, isCancelled. fold read.
  change (match read with
          | Status s => (s =? "cancelled")%string
          | _ => false
          end) with (says_cancelled read).
  fold fs. simpl. repeat split.
  eexists. unfold updateFinal, record. simpl. rewrite <- app_assoc. reflexivity.
Qed.

Lemma settle_normal env job (r : WorkerResult) (st : WState) :
  (status r =? "cancelled")%string = false ->
  let read := env_findStatus env (trace st) in
  let fs := if says_cancelled read then "cancelled" else status r in
  finalStatus (settle env job (Normal r) st) = fs
  /\ (exists ok, trace (final (settle env job (Normal r) st)) =
                 (trace st ++ [AFindStatus read;
                               AUpdateFinal (Settled fs (logBuffer st) (or_null (r_branch r))
                                               (or_null (r_prBody r)) (or_null (r_prTitle r))
                                               (or_null (r_diff r))) ok])%list)
  /\ logBuffer (final (settle env job (Normal r) st)) = logBuffer st
  /\ cloneDir (final (settle env job (Normal r) st)) = cloneDir st.
Proof.
  intros H read fs. unfold settle, cancelled_now, isCancelled. rewrite H. fold read.
  change (match read with
          | Status s => (s =? "cancelled")%string
          | _ => false
          end) with (says_cancelled read).
  simpl negb. cbv iota. fold fs. simpl. repeat split.
  eexists. unfold updateFinal, record. simpl. rewrite <- app_assoc. reflexivity.
Qed.

(** The settling after the sentinel was caught: no read, the final update
    says [cancelled]. *)
Lemma settle_cancelled env job (st : WState) :
  finalStatus (settle env job (Normal cancelledResult) st) = "cancelled"
  /\ (exists ok, trace (final (settle env job (Normal cancelledResult) st)) =
                 (trace st ++ [AUpdateFinal (Settled "cancelled" (logBuffer st)
                                               None None None None) ok])%list)
  /\ logBuffer (final (settle env job (Normal cancelledResult) st)) = logBuffer st
  /\ cloneDir (final (settle env job (Normal cancelledResult) st)) = cloneDir st.
Proof. repeat split. eexists. reflexivity. Qed.

(** A result of the [try] block says [completed]. *)
Lemma body_normal P env job project followUp (st0 st1 : WState) (r : WorkerResult) :
  body P env job project followUp st0 = (Normal r, st1) ->
  status r = "completed" /\ exists b, r_branch r = Some b.
Proof.
  unfold body. rewrite bind_run.
  destruct (prepare P env job project followUp st0) as [[[[t w] out]|e] sta];
    [| discriminate].
  rewrite bind_run.
  destruct (commitPush env job project t w sta) as [[u|e] stb]; [| discriminate].
  unfold results. rewrite bind_run.
  destruct (exec env "git" ["diff"; "HEAD~1"] (Some (w_dir w)) stb) as [[d|e] stc];
    [| discriminate].
  rewrite bind_run.
  destruct out; simpl; try discriminate.
  intros H; injection H as <- _. simpl. eauto.
Qed.

Lemma on_error_log job (e : Thrown) (st : WState) :
  (message_of e =? "cancelled")%string = false ->
  on_error job e st =
  (Throw e,
   snd (log job ("Error: " ++ message_of e) (snd (log job "" st)))).
Proof. intros H. unfold on_error. now rewrite H. Qed.

(** The whole run, read from the end of the [try] block. *)
Lemma run_shape P env job project followUp (c : Completion WorkerResult) (st1 : WState) :
  body P env job project followUp initial = (c, st1) ->
  let s := runWorker P env job project followUp in
  let read := env_findStatus env (trace st1 ++ tidied env st1)%list in
  exists tidy ok,
    (tidy = "" \/ tidy = LF ++ "Cleaning up workspace..." ++ LF)
    /\ cloneDir (final s) = cloneDir st1
    /\ match c with
       | Normal r =>
           let fs := if says_cancelled read then "cancelled" else "completed" in
           finalStatus s = fs
           /\ logBuffer (final s) = logBuffer st1 ++ tidy
           /\ trace (final s) =
              (trace st1 ++ tidied env st1 ++
               [AFindStatus read;
                AUpdateFinal (Settled fs (logBuffer (final s)) (or_null (r_branch r))
                                (or_null (r_prBody r)) (or_null (r_prTitle r))
                                (or_null (r_diff r))) ok])%list
       | Throw e =>
           if (message_of e =? "cancelled")%string then
             finalStatus s = "cancelled"
             /\ logBuffer (final s) = logBuffer st1 ++ tidy
             /\ trace (final s) =
                (trace st1 ++ tidied env st1 ++
                 [AUpdateFinal (Settled "cancelled" (logBuffer (final s))
                                  None None None None) ok])%list
           else
             let fs := if says_cancelled read then "cancelled" else "failed" in
             finalStatus s = fs
             /\ logBuffer (final s) =
                logBuffer st1 ++ (LF ++ "Error: " ++ message_of e ++ LF) ++ tidy
             /\ trace (final s) =
                (trace st1 ++ tidied env st1 ++
                 [AFindStatus read;
                  AUpdateFinal (StatusAndLog fs (logBuffer (final s))) ok])%list
       end.
Proof.
  intros Hb s read. unfold s. rewrite runWorker_run. unfold try_catch. rewrite Hb.
  destruct c as [r | e].
  - destruct (body_normal _ _ _ _ _ _ _ _ Hb) as [Hs _].
    assert (Hc : (status r =? "cancelled")%string = false) by (rewrite Hs; reflexivity).
    destruct (settle_normal env job r (cleanup env job st1) Hc) as [F [[ok T] [L D]]].
    destruct (cleanup_log env job st1) as [tidy [Lc Ht]].
    exists tidy, ok. split; [exact Ht |].
    rewrite D, cleanup_cloneDir. split; [reflexivity |].
    rewrite F, L, T, Lc, cleanup_trace, Hs, <- app_assoc. fold read. auto.
  - destruct (message_of e =? "cancelled")%string eqn:Em.
    + unfold on_error. rewrite Em. cbn [ret].
      destruct (settle_cancelled env job (cleanup env job st1)) as [F [[ok T] [L D]]].
      destruct (cleanup_log env job st1) as [tidy [Lc Ht]].
      exists tidy, ok. split; [exact Ht |].
      rewrite D, cleanup_cloneDir. split; [reflexivity |].
      rewrite F, L, T, Lc, cleanup_trace, <- app_assoc. auto.
    + rewrite (on_error_log job e st1 Em).
      set (st2 := snd (log job ("Error: " ++ message_of e) (snd (log job "" st1)))).
      destruct (settle_throw env job e (cleanup env job st2)) as [F [[ok T] [L D]]].
      destruct (cleanup_log env job st2) as [tidy [Lc Ht]].
      exists tidy, ok. split; [exact Ht |].
      rewrite D, cleanup_cloneDir. split; [reflexivity |].
      rewrite F, L, T, Lc, cleanup_trace, <- app_assoc.
      change (trace st2) with (trace st1).
      change (tidied env st2) with (tidied env st1).
      fold read. repeat split.
      unfold st2, LF. simpl.
      repeat (rewrite JSFacts.append_assoc; simpl). reflexivity.
Qed.

(** *** Lists of actions *)

Lemma forallb_imp (Q Q' : Action -> bool) (l : History) :
  (forall a, Q a = true -> Q' a = true) -> forallb Q l = true -> forallb Q' l = true.
Proof.
  intros H. induction l as [|a l IH]; simpl; [reflexivity |].
  intros F. apply andb_prop in F as [Fa Fl]. now rewrite (H a Fa), IH.
Qed.

Lemma count_app (f : Action -> bool) (l1 l2 : History) :
  count f (l1 ++ l2)%list = count f l1 + count f l2.
Proof. unfold count. now rewrite filter_app, length_app. Qed.

Lemma count_none (f Q : Action -> bool) (l : History) :
  (forall a, Q a = true -> f a = false) -> forallb Q l = true -> count f l = 0.
Proof.
  intros H. induction l as [|a l IH]; simpl; [reflexivity |].
  intros F. apply andb_prop in F as [Fa Fl].
  unfold count in *. simpl. now rewrite (H a Fa), IH.
Qed.

Lemma not_in_forallb (Q : Action -> bool) (l : History) (a : Action) :
  forallb Q l = true -> Q a = false -> ~ In a l.
Proof.
  intros F Ha Hin. rewrite forallb_forall in F. specialize (F a Hin). congruence.
Qed.

Lemma since_initial keep Q (st : WState) :
  Grows keep Q initial st -> forallb Q (trace st) = true.
Proof. intros [[l [T F]] _]. now rewrite T. Qed.

Lemma tidied_closing env (st : WState) : forallb closing (tidied env st) = true.
Proof.
  unfold tidied. destruct (cloneDir st) as [d|]; [| reflexivity].
  destruct (nonempty d); reflexivity.
Qed.

(** The history of a run is that of the [try] block, then the clean-up and
    the settling. *)
Lemma run_tail P env job project followUp (c : Completion WorkerResult) (st1 : WState) :
  body P env job project followUp initial = (c, st1) ->
  exists tail,
    trace (final (runWorker P env job project followUp)) = (trace st1 ++ tail)%list
    /\ forallb closing tail = true.
Proof.
  intros Hb. destruct (run_shape _ _ _ _ _ _ _ Hb) as [tidy [ok [_ [_ H]]]].
  destruct c as [r | e]; [| destruct (message_of e =? "cancelled")%string];
    destruct H as [_ [_ T]]; rewrite T; eexists; (split; [reflexivity |]);
    rewrite forallb_app, tidied_closing; reflexivity.
Qed.

(** *** Computations that never throw the sentinel *)

Lemma NeverCancels_ret {A} (a : A) : NeverCancels (ret a).
Proof. intros st e H. discriminate. Qed.

Lemma NeverCancels_throw {A} (e : Thrown) :
  e <> ErrCancelled -> NeverCancels (throw (A := A) e).
Proof. intros H st e' E. injection E as <-. exact H. Qed.

Lemma NeverCancels_bind {A B} (m : M A) (f : A -> M B) :
  NeverCancels m -> (forall a, NeverCancels (f a)) -> NeverCancels (bind m f).
Proof.
  intros Hm Hf st e. rewrite bind_run. specialize (Hm st).
  destruct (m st) as [[a|e'] st']; simpl in *.
  - apply Hf.
  - intros E. injection E as <-. now apply Hm.
Qed.

Lemma NeverCancels_log job (text : string) : NeverCancels (log job text).
Proof. intros st e H. discriminate. Qed.

Lemma NeverCancels_exec env (cmd : string) (args : list string) (cwd : option string) :
  NeverCancels (exec env cmd args cwd).
Proof.
  intros st e. unfold exec.
  destruct (env_exec env (trace st) cmd args cwd); simpl; intros H;
    [discriminate | injection H as <-; discriminate].
Qed.

Ltac never_cancels :=
  repeat lazymatch goal with
    | |- NeverCancels (ret _) => apply NeverCancels_ret
    | |- NeverCancels (throw _) => apply NeverCancels_throw; discriminate
    | |- NeverCancels (type_error _) => apply NeverCancels_throw; discriminate
    | |- NeverCancels (bind _ _) => apply NeverCancels_bind; [| intros ?]
    | |- NeverCancels (log _ _) => apply NeverCancels_log
    | |- NeverCancels (exec _ _ _ _) => apply NeverCancels_exec
    | |- NeverCancels (if ?b then _ else _) => destruct b
    | |- NeverCancels (match ?x with _ => _ end) => destruct x
    end.

Lemma exec_run env (cmd : string) (args : list string) (cwd : option string)
    (st : WState) :
  exec env cmd args cwd st =
  match env_exec env (trace st) cmd args cwd with
  | ExecOk o => (Normal (trim o), record (AExec cmd args cwd (ExecOk o)) st)
  | ExecFail m => (Throw (ErrExec m), record (AExec cmd args cwd (ExecFail m)) st)
  end.
Proof. unfold exec. now destruct (env_exec env (trace st) cmd args cwd). Qed.

(** *** The [try] block, read at the branch check *)

Lemma body_at_commit P env job project followUp (st0 : WState)
    (c : Completion WorkerResult) (st1 : WState) :
  body P env job project followUp st0 = (c, st1) ->
  (exists e, c = Throw e /\ Grows false quiet st0 st1)
  \/ (exists (t : Task) (w : Workspace) (sta : WState),
        Grows false quiet st0 sta
        /\ let query := env_exec env (trace sta) "git" ["branch"; "--show-current"]
                          (Some (w_dir w)) in
           let stb := record (AExec "git" ["branch"; "--show-current"] (Some (w_dir w)) query)
                        (snd (log job "[5/5] Committing & pushing..." sta)) in
           match query with
           | ExecFail m => c = Throw (ErrExec m) /\ st1 = stb
           | ExecOk o =>
               if (trim o =? baseBranch project)%string
               then c = Throw (ErrFatalBranch (baseBranch project)) /\ st1 = stb
               else Grows true pushing stb st1
                    /\ (forall e, c = Throw e -> e <> ErrCancelled)
           end).
Proof.
  unfold body. rewrite bind_run.
  pose proof (prepare_quiet P env job project followUp st0) as G.
  destruct (prepare P env job project followUp st0) as [[[[t w] out]|e] sta]; simpl in G.
  2:{ intros H; injection H as <- <-. left. eauto. }
  intros H. right. exists t, w, sta. split; [exact G |].
  unfold commitPush in H. rewrite !bind_run in H. cbn [log fst snd] in H.
  rewrite bind_run, exec_run in H. cbn [trace] in H.
  destruct (env_exec env (trace sta) "git" ["branch"; "--show-current"] (Some (w_dir w)))
    as [o | m]; cbv zeta.
  2:{ injection H as <- <-. split; reflexivity. }
  destruct (trim o =? baseBranch project)%string.
  { injection H as <- <-. split; reflexivity. }
  match type of H with
  | match ?m ?st with _ => _ end = _ =>
      assert (G1 : Grows true pushing st (snd (m st)))
        by (assert (S1 : Safe true pushing m) by stage; apply S1);
      assert (N1 : forall e, fst (m st) = Throw e -> e <> ErrCancelled)
        by (assert (S1 : NeverCancels m) by never_cancels; apply S1);
      destruct (m st) as [[u|e] stc]; simpl in G1, N1
  end.
  2:{ injection H as <- <-. split; [exact G1 |]. intros e' E. injection E as <-.
      now apply N1. }
  match type of H with
  | ?m ?st = _ =>
      assert (G2 : Grows true pushing st (snd (m st)))
        by (assert (S2 : Safe true pushing m) by stage; apply S2);
      assert (N2 : forall e, fst (m st) = Throw e -> e <> ErrCancelled)
        by (assert (S2 : NeverCancels m) by (unfold results; never_cancels); apply S2);
      rewrite H in G2, N2; simpl in G2, N2
  end.
  split; [eapply Grows_trans; eassumption |].
  intros e E. subst c. now apply N2.
Qed.

Lemma closing_no_commit (a : Action) : closing a = true -> negb (commits a) = true.
Proof. destruct a; simpl; try reflexivity; discriminate. Qed.

Lemma quiet_no_commit (a : Action) : quiet a = true -> negb (commits a) = true.
Proof.
  unfold quiet. intros H.
  repeat (apply andb_prop in H as [H ?]). exact H.
Qed.

Lemma quiet_no_query (a : Action) : quiet a = true -> is_branch_query a = false.
Proof.
  unfold quiet. intros H.
  repeat (apply andb_prop in H as [H ?]).
  now destruct (is_branch_query a).
Qed.

Lemma closing_no_query (a : Action) : closing a = true -> is_branch_query a = false.
Proof. destruct a; simpl; try reflexivity; discriminate. Qed.

Ltac string_norm :=
  unfold LF; repeat first [rewrite JSFacts.append_assoc | progress simpl]; reflexivity.

Lemma includes_inside (a needle b : string) : includes (a ++ needle ++ b) needle = true.
Proof. apply PrBodyFacts.includes_app. Qed.

(** The workspace on the base branch, and a cancel request that lands while
    the branch is being read: the job is recorded as cancelled, not failed. *)
Lemma base_branch_job_recorded_cancelled :
  let s := runWorker Json.platform
             (Scenario.world Scenario.git_on_base (Scenario.cancelled_from 4) true)
             Scenario.direct_job Scenario.project None in
  In (AExec "git" ["branch"; "--show-current"] (Some Scenario.workspace_dir)
        (ExecOk ("main" ++ LF))) (trace (final s))
  /\ trim ("main" ++ LF) = baseBranch Scenario.project
  /\ finalStatus s <> "failed"
  /\ finalStatus s = "cancelled".
Proof.
  vm_compute. repeat split; try discriminate.
  do 13 right. left. reflexivity.
Qed.

(** C1, as the code has it.  When the branch query of the commit stage
    answers the base branch, no [git add], [git commit] or [git push] is ever
    issued; the query is made once and only the clean-up and the settling
    follow it; the fatal error is written to the log; and the job settles as
    [failed], unless the status read of the settling says [cancelled], in
    which case it settles as [cancelled]. *)
Theorem base_branch_is_never_pushed :
  forall P env job project followUp (cwd : option string) (out : string),
    let s := runWorker P env job project followUp in
    In (AExec "git" ["branch"; "--show-current"] cwd (ExecOk out)) (trace (final s)) ->
    trim out = baseBranch project ->
    forallb (fun a => negb (commits a)) (trace (final s)) = true
    /\ count is_branch_query (trace (final s)) = 1
    /\ (exists before after,
          trace (final s) =
            (before ++ [AExec "git" ["branch"; "--show-current"] cwd (ExecOk out)] ++ after)%list
          /\ forallb closing after = true)
    /\ includes (logBuffer (final s))
         ("Error: FATAL: current branch is " ++ baseBranch project ++ ". Aborting push." ++ LF)
       = true
    /\ (exists h read ok,
          trace (final s) =
            (h ++ [AFindStatus read;
                   AUpdateFinal (StatusAndLog (finalStatus s) (logBuffer (final s))) ok])%list
          /\ finalStatus s = (if says_cancelled read then "cancelled" else "failed")).
Proof.
  intros P env job project followUp cwd out s Hin Hbase.
  destruct (body P env job project followUp initial) as [c st1] eqn:Hb.
  destruct (run_tail _ _ _ _ _ _ _ Hb) as [tail [T Ftail]].
  assert (Qa : quiet (AExec "git" ["branch"; "--show-current"] cwd (ExecOk out)) = false)
    by reflexivity.
  assert (Ca : closing (AExec "git" ["branch"; "--show-current"] cwd (ExecOk out)) = false)
    by reflexivity.
  assert (Pa : pushing (AExec "git" ["branch"; "--show-current"] cwd (ExecOk out)) = false)
    by reflexivity.
  unfold s in Hin. rewrite T in Hin. apply in_app_or in Hin as [Hin | Hin];
    [| exfalso; exact (not_in_forallb _ _ _ Ftail Ca Hin)].
  destruct (body_at_commit _ _ _ _ _ _ _ _ Hb) as [[e [-> G]] | [t [w [sta [G Hq]]]]].
  - exfalso. exact (not_in_forallb _ _ _ (since_initial _ _ _ G) Qa Hin).
  - cbv zeta in Hq.
    pose proof (since_initial _ _ _ G) as Fsta.
    destruct (env_exec env (trace sta) "git" ["branch"; "--show-current"] (Some (w_dir w)))
      as [o | m] eqn:Eq.
    + destruct (trim o =? baseBranch project)%string eqn:Eb.
      * destruct Hq as [-> ->].
        cbn [trace record log snd] in Hin.
        apply in_app_or in Hin as [Hin | Hin];
          [exfalso; exact (not_in_forallb _ _ _ Fsta Qa Hin) |].
        destruct Hin as [Hin | []]. injection Hin as <- <-.
        destruct (run_shape _ _ _ _ _ _ _ Hb) as [tidy [ok [Ht [Hd Hc]]]].
        cbn [message_of] in Hc. cbv zeta in Hc.
        change (("FATAL: current branch is " ++ baseBranch project ++ ". Aborting push."
                 =? "cancelled")%string) with false in Hc.
        cbv iota in Hc. destruct Hc as [Hf [Hl Ht']].
        fold s in Hf, Hl, Ht'. rewrite <- Hf in Ht'.
        cbn [trace record log snd] in Ht'.
        split; [| split; [| split; [| split]]].
        -- rewrite Ht', !forallb_app.
           rewrite (forallb_imp _ _ _ quiet_no_commit Fsta).
           rewrite (forallb_imp _ _ _ closing_no_commit (tidied_closing env _)).
           reflexivity.
        -- rewrite Ht', !count_app.
           rewrite (count_none _ _ _ quiet_no_query Fsta).
           rewrite (count_none _ _ _ closing_no_query (tidied_closing env _)).
           reflexivity.
        -- rewrite Ht'. eexists; eexists. rewrite <- app_assoc. split; [reflexivity |].
           rewrite forallb_app, tidied_closing. reflexivity.
        -- rewrite Hl. cbn [logBuffer record log snd].
           match goal with
           | |- includes _ ?needle = true =>
               replace (_ ++ _ ++ tidy)
                 with ((logBuffer sta ++ "[5/5] Committing & pushing..." ++ LF ++ LF)
                       ++ needle ++ tidy);
                 [apply includes_inside | string_norm]
           end.
        -- eexists; eexists; exists ok. split; [| exact Hf].
           rewrite Ht' at 1. rewrite !app_assoc. reflexivity.
      * exfalso. destruct Hq as [[[l [Tl Fl]] _] _].
        rewrite Tl in Hin. cbn [trace record log snd] in Hin.
        apply in_app_or in Hin as [Hin | Hin];
          [| exact (not_in_forallb _ _ _ Fl Pa Hin)].
        apply in_app_or in Hin as [Hin | Hin];
          [exact (not_in_forallb _ _ _ Fsta Qa Hin) |].
        destruct Hin as [Hin | []]. injection Hin as _ <-.
        apply String.eqb_neq in Eb. contradiction.
    + exfalso. destruct Hq as [-> ->].
      cbn [trace record log snd] in Hin.
      apply in_app_or in Hin as [Hin | Hin];
        [exact (not_in_forallb _ _ _ Fsta Qa Hin) |].
      destruct Hin as [Hin | []]. discriminate.
Qed.

Lemma base_branch_is_never_pushed_witness :
  let s := runWorker Json.platform
             (Scenario.world Scenario.git_on_base Scenario.running true)
             Scenario.direct_job Scenario.project None in
  In (AExec "git" ["branch"; "--show-current"] (Some Scenario.workspace_dir)
        (ExecOk ("main" ++ LF))) (trace (final s))
  /\ trim ("main" ++ LF) = baseBranch Scenario.project
  /\ forallb (fun a => negb (commits a)) (trace (final s)) = true
  /\ count is_branch_query (trace (final s)) = 1
  /\ finalStatus s = "failed".
Proof.
  pose proof (base_branch_is_never_pushed Json.platform
                (Scenario.world Scenario.git_on_base Scenario.running true)
                Scenario.direct_job Scenario.project None
                (Some Scenario.workspace_dir) ("main" ++ LF)) as H.
  cbv zeta in *.
  match type of H with
  | ?A -> ?B -> _ =>
      assert (Hin : A) by (vm_compute; do 13 right; left; reflexivity);
      assert (Hbase : B) by reflexivity
  end.
  specialize (H Hin Hbase).
  destruct H as [H1 [H2 _]].
  split; [exact Hin |]. split; [exact Hbase |]. split; [exact H1 |].
  split; [exact H2 |]. vm_compute. reflexivity.
Defined.

Lemma closing_no_spawn (a : Action) : closing a = true -> negb (is_spawn a) = true.
Proof. destruct a; simpl; try reflexivity; discriminate. Qed.

(** C7.  When the [try] block ends by throwing the sentinel of a checkpoint,
    the [catch] adds nothing to the log (only the clean-up may add its line),
    the job settles as [cancelled] through a final update that says so, and
    no [git add], [git commit] or [git push] was issued; if no process had
    been spawned when the sentinel was thrown, none is spawned at all. *)
Theorem cancellation_is_not_an_error :
  forall P env job project followUp (st1 : WState),
    body P env job project followUp initial = (Throw ErrCancelled, st1) ->
    let s := runWorker P env job project followUp in
    finalStatus s = "cancelled"
    /\ (exists tidy,
          logBuffer (final s) = logBuffer st1 ++ tidy
          /\ (tidy = "" \/ tidy = LF ++ "Cleaning up workspace..." ++ LF))
    /\ (exists ok,
          trace (final s) =
            (trace st1 ++ tidied env st1 ++
             [AUpdateFinal (Settled "cancelled" (logBuffer (final s)) None None None None)
                ok])%list)
    /\ forallb (fun a => negb (commits a)) (trace (final s)) = true
    /\ (forallb (fun a => negb (is_spawn a)) (trace st1) = true ->
        forallb (fun a => negb (is_spawn a)) (trace (final s)) = true)
    /\ (forall st,
          fst (checkpoint env st) =
          if says_cancelled (env_findStatus env (trace st))
          then Throw ErrCancelled else Normal tt).
Proof.
  intros P env job project followUp st1 Hb s.
  destruct (run_shape _ _ _ _ _ _ _ Hb) as [tidy [ok [Ht [_ [Hf [Hl Htr]]]]]].
  fold s in Hf, Hl, Htr.
  assert (Fst1 : forallb (fun a => negb (commits a)) (trace st1) = true).
  { destruct (body_at_commit _ _ _ _ _ _ _ _ Hb) as [[e [_ G]] | [t [w [sta [G Hq]]]]].
    - exact (forallb_imp _ _ _ quiet_no_commit (since_initial _ _ _ G)).
    - exfalso. cbv zeta in Hq.
      destruct (env_exec env (trace sta) "git" ["branch"; "--show-current"]
                  (Some (w_dir w))) as [o | m].
      + destruct (trim o =? baseBranch project)%string.
        * destruct Hq as [Hq _]. discriminate.
        * destruct Hq as [_ N]. now apply (N ErrCancelled).
      + destruct Hq as [Hq _]. discriminate. }
  split; [exact Hf |]. split; [exists tidy; auto |]. split; [exists ok; exact Htr |].
  split; [| split].
  - rewrite Htr, !forallb_app, Fst1.
    rewrite (forallb_imp _ _ _ closing_no_commit (tidied_closing env _)). reflexivity.
  - intros Hs. rewrite Htr, !forallb_app, Hs.
    rewrite (forallb_imp _ _ _ closing_no_spawn (tidied_closing env _)). reflexivity.
  - intros st. unfold checkpoint, isCancelled. rewrite bind_run. cbn [fst snd].
    change (match env_findStatus env (trace st) with
            | Status s0 => (s0 =? "cancelled")%string
            | _ => false
            end) with (says_cancelled (env_findStatus env (trace st))).
    now destruct (says_cancelled (env_findStatus env (trace st))).
Qed.

Lemma cancellation_is_not_an_error_witness :
  let env := Scenario.world Scenario.git_changed (Scenario.cancelled_from 0) true in
  let s := runWorker Json.platform env Scenario.direct_job Scenario.project None in
  fst (body Json.platform env Scenario.direct_job Scenario.project None initial)
    = Throw ErrCancelled
  /\ finalStatus s = "cancelled"
  /\ forallb (fun a => negb (commits a)) (trace (final s)) = true
  /\ forallb (fun a => negb (is_spawn a)) (trace (final s)) = true.
Proof.
  pose proof (cancellation_is_not_an_error Json.platform
                (Scenario.world Scenario.git_changed (Scenario.cancelled_from 0) true)
                Scenario.direct_job Scenario.project None
                (snd (body Json.platform
                        (Scenario.world Scenario.git_changed (Scenario.cancelled_from 0) true)
                        Scenario.direct_job Scenario.project None initial))) as H.
  cbv zeta in *.
  match type of H with
  | ?A -> _ => assert (Hb : A) by (vm_compute; reflexivity)
  end.
  destruct (H Hb) as [H1 [_ [_ [H4 [H5 _]]]]].
  split; [vm_compute; reflexivity |]. split; [exact H1 |]. split; [exact H4 |].
  apply H5. vm_compute. reflexivity.
Defined.

(** The last clause of C10 does not hold.  The settling decides by its own
    read of the status, and [isCancelled] answers [false] when that read
    fails: here the four reads of the run say [running], the job table cannot
    be read at the settling, and the final update writes [completed], with
    the branch, over whatever the row holds, a [cancelled] that the cancel
    route wrote in the meantime included. *)
Lemma unread_cancel_is_overwritten :
  let env := Scenario.world Scenario.git_changed (Scenario.unreadable_from 4) true in
  let run := runWorker Json.platform env Scenario.direct_job Scenario.project None in
  let st := snd (workerPromise Json.platform env Scenario.direct_job Scenario.project None
                   initial) in
  env_findStatus env (trace st) = ReadFails
  /\ finalStatus run = "completed"
  /\ exists log prBody prTitle diff ok,
       trace (final run) =
       (trace st ++
        [AFindStatus ReadFails;
         AUpdateFinal (Settled "completed" log (Some "feat/7") prBody prTitle diff) ok])%list.
Proof.
  vm_compute. split; [reflexivity |]. split; [reflexivity |]. repeat eexists.
Qed.

(** C10, as the code has it.  The settling of a job whose worker did not
    itself end as [cancelled] reads the status of the job once, after
    everything else, and then makes the final update; when that read says
    [cancelled], the status written and announced is [cancelled], whether the
    worker completed or failed, and otherwise (the read says something else,
    finds no row, or fails) it is the worker's own outcome.  So a read that
    says [cancelled] is never followed by an update to [completed] or
    [failed].  In particular, when the cancel request lands after the push
    [git push origin refs/heads/feat/7:refs/heads/feat/7 --force-with-lease]
    has succeeded, the job is recorded as [cancelled] together with the
    pushed branch. *)
Theorem cancelled_read_settles_as_cancelled :
  forall P env job project followUp,
    let s := runWorker P env job project followUp in
    let c := fst (workerPromise P env job project followUp initial) in
    let st := snd (workerPromise P env job project followUp initial) in
    let read := env_findStatus env (trace st) in
    (exists data ok,
       status_of data = finalStatus s
       /\ (trace (final s) = (trace st ++ [AFindStatus read; AUpdateFinal data ok])%list
           \/ (exists r, c = Normal r /\ status r = "cancelled")
              /\ trace (final s) = (trace st ++ [AUpdateFinal data ok])%list))
    /\ match c with
       | Normal r =>
           if (status r =? "cancelled")%string then finalStatus s = "cancelled"
           else finalStatus s = (if says_cancelled read then "cancelled" else status r)
       | Throw _ =>
           finalStatus s = (if says_cancelled read then "cancelled" else "failed")
       end
    /\ (let late := runWorker Json.platform
                        (Scenario.world Scenario.git_changed (Scenario.cancelled_from 4) true)
                        Scenario.direct_job Scenario.project None in
        finalStatus late = "cancelled"
        /\ In (AExec "git" ["push"; "origin"; "refs/heads/feat/7:refs/heads/feat/7";
                            "--force-with-lease"]
                 (Some Scenario.workspace_dir) (ExecOk ""))
              (trace (final late))
        /\ exists log prBody prTitle diff ok,
             last (trace (final late)) (AFindStatus NoSuchJob) =
             AUpdateFinal (Settled "cancelled" log (Some "feat/7") prBody prTitle diff) ok).
Proof.
  intros P env job project followUp s c st read.
  assert (E : s = settle env job c st).
  { unfold s, c, st, runWorker.
    now destruct (workerPromise P env job project followUp initial). }
  split; [| split].
  - rewrite E. destruct c as [r | e].
    + destruct (status r =? "cancelled")%string eqn:Es.
      * unfold settle. rewrite Es. simpl.
        eexists; eexists. split; [| right; split; [| reflexivity]].
        -- reflexivity.
        -- exists r. split; [reflexivity |]. now apply String.eqb_eq.
      * destruct (settle_normal env job r st Es) as [F [[ok T] _]].
        eexists; exists ok. split; [| left; exact T]. now rewrite F.
    + destruct (settle_throw env job e st) as [F [[ok T] _]].
      eexists; exists ok. split; [| left; exact T]. now rewrite F.
  - rewrite E. destruct c as [r | e].
    + destruct (status r =? "cancelled")%string eqn:Es.
      * unfold settle. rewrite Es. simpl. now apply String.eqb_eq.
      * now destruct (settle_normal env job r st Es) as [F _].
    + now destruct (settle_throw env job e st) as [F _].
  - vm_compute. split; [reflexivity |]. split.
    + do 16 right. left. reflexivity.
    + repeat eexists.
Qed.

(** *** The retry loop and its change checks *)

Lemma includes_mono (a s b needle : string) :
  includes s needle = true -> includes (a ++ s ++ b) needle = true.
Proof.
  unfold includes at 1.
  destruct (find needle s) as [[x y]|] eqn:E; [intros _ | discriminate].
  apply PrBodyFacts.find_sound in E. subst s.
  replace (a ++ (x ++ needle ++ y) ++ b) with ((a ++ x) ++ needle ++ (y ++ b))
    by now rewrite !JSFacts.append_assoc.
  apply includes_inside.
Qed.

Lemma includes_after (a s needle : string) :
  includes s needle = true -> includes (a ++ s) needle = true.
Proof.
  intros H. rewrite <- (JSFacts.append_empty_r s). now apply includes_mono.
Qed.

Lemma includes_before (s b needle : string) :
  includes s needle = true -> includes (s ++ b) needle = true.
Proof. intros H. now apply (includes_mono "" s b). Qed.

Lemma off_loop_no_report (a : Action) : off_loop a = true -> reports_no_change a = false.
Proof.
  unfold off_loop. intros H. apply andb_prop in H as [H _].
  now destruct (reports_no_change a).
Qed.

Lemma off_loop_no_comment (a : Action) : off_loop a = true -> is_comment a = false.
Proof.
  unfold off_loop. intros H. apply andb_prop in H as [_ H].
  now destruct (is_comment a).
Qed.

Section Tally.
Variable job : Job.

Lemma Due_quiet {A} keep (n : nat) (st st' : WState) (c : Completion A) :
  Grows keep off_loop st st' -> 0 < n -> Due job n st c st'.
Proof.
  intros [[l [T F]] [[s L] _]] Hn. exists l, s.
  rewrite (count_none _ _ _ off_loop_no_report F).
  repeat split; [exact T | exact L | lia | lia | lia | lia].
Qed.

Lemma Due_prefix {A} keep (n : nat) (st sta st' : WState) (c : Completion A) :
  Grows keep off_loop st sta -> Due job n sta c st' -> Due job n st c st'.
Proof.
  intros [[l1 [T1 F1]] [[s1 L1] _]] [l2 [s2 [T2 [L2 [Hle Hc]]]]].
  exists (l1 ++ l2)%list, (s1 ++ s2).
  rewrite !count_app, (count_none _ _ _ off_loop_no_report F1),
    (count_none _ _ _ off_loop_no_comment F1). simpl.
  split; [now rewrite T2, T1, app_assoc |].
  split; [now rewrite L2, L1, JSFacts.append_assoc |].
  split; [exact Hle |].
  intros E. destruct (Hc E) as [H1 [H2 H3]].
  split; [exact H1 |]. split; [now apply includes_after | exact H3].
Qed.

Lemma Due_suffix {A B} keep (n : nat) (st sta st' : WState) (a : A) (c : Completion B) :
  Due job n st (Normal a) sta -> Grows keep off_loop sta st' -> Due job n st c st'.
Proof.
  intros [l1 [s1 [T1 [L1 [Hle Hc]]]]] [[l2 [T2 F2]] [[s2 L2] _]].
  exists (l1 ++ l2)%list, (s1 ++ s2).
  rewrite !count_app, (count_none _ _ _ off_loop_no_report F2), Nat.add_0_r.
  split; [now rewrite T2, T1, app_assoc |].
  split; [now rewrite L2, L1, JSFacts.append_assoc |].
  split; [exact Hle |].
  intros E. destruct (Hc E) as [H1 _]. discriminate.
Qed.

Lemma Due_throw {A B} (n : nat) (st st' : WState) (e : Thrown) :
  Due job (A := A) n st (Throw e) st' -> Due job (A := B) n st (Throw e) st'.
Proof.
  intros [l [s [T [L [Hle Hc]]]]]. exists l, s. repeat split; auto;
    destruct (Hc H) as [H1 [H2 H3]]; auto.
  injection H1 as ->. reflexivity.
Qed.

Lemma Dues_prefix {A B} keep (n : nat) (m : M A) (f : A -> M B) :
  0 < n -> Safe keep off_loop m -> (forall a, Dues job n (f a)) -> Dues job n (bind m f).
Proof.
  intros Hn Hm Hf st. rewrite bind_run. specialize (Hm st).
  destruct (m st) as [[a|e] sta]; simpl in *.
  - eapply Due_prefix; [exact Hm | apply Hf].
  - eapply Due_quiet; eassumption.
Qed.

Lemma Dues_suffix {A B} keep (n : nat) (m : M A) (f : A -> M B) :
  Dues job n m -> (forall a, Safe keep off_loop (f a)) -> Dues job n (bind m f).
Proof.
  intros Hm Hf st. rewrite bind_run. specialize (Hm st).
  destruct (m st) as [[a|e] sta]; simpl in *.
  - eapply Due_suffix; [exact Hm | apply Hf].
  - exact (Due_throw (A := A) n st sta e Hm).
Qed.

End Tally.

(** A change check adds one report of no change when it answers [false], and
    none when it answers [true]; it never comments and never logs. *)
Lemma checkChanges_tally env (w : Workspace) (st : WState) :
  exists (b : bool) (l : History),
    fst (checkChanges env w st) = Normal b
    /\ trace (snd (checkChanges env w st)) = (trace st ++ l)%list
    /\ logBuffer (snd (checkChanges env w st)) = logBuffer st
    /\ count reports_no_change l = (if b then 0 else 1)
    /\ count is_comment l = 0.
Proof.
  unfold checkChanges, try_catch, bind, exec, ret.
  destruct (env_exec env (trace st) "git" ["diff"; "--quiet"] (Some (w_dir w)))
    as [o1 | m1]; cbn [trace record fst snd].
  - destruct (env_exec env _ "git" ["diff"; "--cached"; "--quiet"] (Some (w_dir w)))
      as [o2 | m2]; cbn [trace record fst snd].
    + destruct (env_exec env _ "git" ["ls-files"; "--others"; "--exclude-standard"]
                  (Some (w_dir w))) as [o3 | m3]; cbn [trace record fst snd logBuffer].
      * eexists; eexists. split; [reflexivity |].
        split; [rewrite <- !app_assoc; reflexivity |].
        split; [reflexivity |].
        unfold count. simpl. destruct (trim o3); split; reflexivity.
      * exists true. eexists. split; [reflexivity |].
        split; [rewrite <- !app_assoc; reflexivity |]. repeat split.
    + exists true. eexists. split; [reflexivity |].
      split; [rewrite <- !app_assoc; reflexivity |]. repeat split.
  - exists true. eexists. split; [reflexivity |].
    split; [reflexivity |]. repeat split.
Qed.

Lemma Dues_check job {B} keep env (w : Workspace) (r : nat) (K : bool -> M B) :
  Safe keep off_loop (K true) -> Dues job r (K false) ->
  Dues job (S r) (bind (checkChanges env w) K).
Proof.
  intros Ht Hf st. rewrite bind_run.
  destruct (checkChanges_tally env w st) as [b [l [E [T [L [C1 C2]]]]]].
  destruct (checkChanges env w st) as [[b'|e] sta]; simpl in E, T, L; [| discriminate].
  injection E as ->. destruct b.
  - destruct (Ht sta) as [[l2 [T2 F2]] [[s2 L2] _]].
    exists (l ++ l2)%list, s2.
    rewrite !count_app, C1, (count_none _ _ _ off_loop_no_report F2).
    split; [now rewrite T2, T, app_assoc |].
    split; [now rewrite L2, L |].
    split; [lia | discriminate].
  - destruct (Hf sta) as [l2 [s2 [T2 [L2 [Hle Hc]]]]].
    exists (l ++ l2)%list, s2.
    rewrite !count_app, C1, C2.
    split; [now rewrite T2, T, app_assoc |].
    split; [now rewrite L2, L |].
    split; [simpl; lia |].
    intros Hn. apply Hc. simpl in Hn. lia.
Qed.

(** The branch of the loop taken when the retries are used up. *)
Lemma exhausted_dues env job (w : Workspace) :
  Dues job (A := JSVal) 0
    (log job "" ;;;
     log job ("No changes detected after " ++ of_nat MAX_RETRY ++ " retries.") ;;;
     (if isDirect job then ret tt
      else attempt (exec env "gh" (commentArgs job w) (Some (w_dir w)) ;;; ret tt)) ;;;
     throw ErrNoChanges).
Proof.
  intros st. unfold Due.
  destruct (isDirect job) eqn:Ed.
  - exists [], (LF ++ "No changes detected after 2 retries." ++ LF).
    cbn. rewrite app_nil_r.
    split; [reflexivity |]. split; [string_norm |]. split; [lia |].
    intros _. repeat split.
  - unfold bind, log, attempt, try_catch, exec, ret, throw. cbn [fst snd trace].
    destruct (env_exec env (trace st) "gh" (commentArgs job w) (Some (w_dir w)));
      cbn [fst snd trace record logBuffer];
      (eexists; exists (LF ++ "No changes detected after 2 retries." ++ LF);
       split; [reflexivity |]; split; [string_norm |]; split; [cbn; lia |];
       intros _; repeat split).
Qed.

Lemma attempts_dues P env job project (remaining : nat) :
  forall attempt_no t w prompt0 claudeOutput,
    attempt_no + remaining = MAX_RETRY + 2 -> 0 < remaining ->
    Dues job remaining
      (attempts P env job project remaining attempt_no t w prompt0 claudeOutput).
Proof.
  induction remaining as [|r IH]; intros attempt_no t w prompt0 out Hsum Hpos; [lia |].
  simpl attempts.
  apply (Dues_prefix job false); [lia | stage |]; intros _.
  apply (Dues_prefix job false); [lia | stage |]; intros currentPrompt.
  apply (Dues_prefix job false); [lia | stage |]; intros output.
  apply (Dues_prefix job false); [lia | stage |]; intros _.
  apply (Dues_prefix job false); [lia | stage |]; intros _.
  apply (Dues_check job false); [stage |].
  unfold MAX_RETRY in *.
  destruct (Nat.ltb_spec 2 attempt_no) as [Hgt | Hle].
  - assert (r = 0) by lia. subst r. apply exhausted_dues.
  - destruct r as [|r']; [lia |].
    apply (Dues_prefix job false); [lia | stage |]; intros _.
    apply (Dues_prefix job false); [lia | stage |]; intros _.
    apply IH; lia.
Qed.

Lemma body_dues P env job project followUp :
  Dues job (MAX_RETRY + 1) (body P env job project followUp).
Proof.
  unfold body.
  apply (Dues_suffix job false); [| intros [[t w] out]; stage].
  unfold prepare.
  apply (Dues_prefix job false); [simpl; lia | stage |]; intros _.
  apply (Dues_prefix job false); [simpl; lia | stage |]; intros _.
  apply (Dues_prefix job false); [simpl; lia | stage |]; intros t.
  apply (Dues_prefix job false); [simpl; lia | stage |]; intros _.
  apply (Dues_prefix job false); [simpl; lia | stage |]; intros _.
  apply (Dues_prefix job false); [simpl; lia | stage |]; intros w.
  apply (Dues_prefix job false); [simpl; lia | stage |]; intros _.
  apply (Dues_suffix job false); [| intros out; stage].
  unfold agentStage.
  apply (Dues_prefix job false); [simpl; lia | stage |]; intros _.
  apply (Dues_prefix job false); [simpl; lia | stage |]; intros _.
  apply (Dues_prefix job false); [simpl; lia | stage |]; intros prompt0.
  apply attempts_dues; simpl; lia.
Qed.

Lemma closing_no_report (a : Action) : closing a = true -> reports_no_change a = false.
Proof. destruct a; simpl; try reflexivity; discriminate. Qed.

Lemma closing_no_comment (a : Action) : closing a = true -> is_comment a = false.
Proof. destruct a; simpl; try reflexivity; discriminate. Qed.

(** Three change checks report no change and the comment on the issue
    fails, while a cancel request lands during that comment: the job is
    recorded as cancelled, not failed. *)
Lemma exhausted_job_recorded_cancelled :
  let s := runWorker Json.platform
             (Scenario.world Scenario.git_unchanged (Scenario.cancelled_from 5) true)
             Scenario.issue_job Scenario.project None in
  count reports_no_change (trace (final s)) = MAX_RETRY + 1
  /\ includes (logBuffer (final s)) ("No changes detected after 2 retries." ++ LF) = true
  /\ count is_comment (trace (final s)) = 1
  /\ finalStatus s <> "failed"
  /\ finalStatus s = "cancelled".
Proof. vm_compute. repeat split; discriminate. Qed.

(** C2, as the code has it.  When the change checks of a job reported no
    change [MAX_RETRY + 1] times, that is after every agent run the loop
    allows, the log holds the line [No changes detected after 2 retries.], one
    comment on the issue was attempted if the job has an issue number and none
    otherwise, whatever that comment answered, and the job settles as
    [failed], unless the status read of the settling says [cancelled], in
    which case it settles as [cancelled]. *)
Theorem no_change_exhaustion_fails_job :
  forall P env job project followUp,
    let s := runWorker P env job project followUp in
    count reports_no_change (trace (final s)) = MAX_RETRY + 1 ->
    includes (logBuffer (final s)) ("No changes detected after 2 retries." ++ LF) = true
    /\ count is_comment (trace (final s)) =
       match issueNo job with Some _ => 1 | None => 0 end
    /\ includes (logBuffer (final s)) ("Error: no changes after retries" ++ LF) = true
    /\ (exists h read ok,
          trace (final s) =
            (h ++ [AFindStatus read;
                   AUpdateFinal (StatusAndLog (finalStatus s) (logBuffer (final s))) ok])%list
          /\ finalStatus s = (if says_cancelled read then "cancelled" else "failed")).
Proof.
  intros P env job project followUp s Hcount.
  destruct (body P env job project followUp initial) as [c st1] eqn:Hb.
  destruct (run_tail _ _ _ _ _ _ _ Hb) as [tail [T Ftail]].
  pose proof (body_dues P env job project followUp initial) as D.
  rewrite Hb in D. destruct D as [l [s1 [Tl [Ll [_ Hc]]]]].
  simpl in Tl, Ll, Hc. fold s in T.
  rewrite T, count_app, Tl in Hcount.
  rewrite (count_none _ _ _ closing_no_report Ftail), Nat.add_0_r in Hcount.
  destruct (Hc Hcount) as [-> [Hline Hcom]].
  destruct (run_shape _ _ _ _ _ _ _ Hb) as [tidy [ok [_ [_ Hs]]]].
  cbn [message_of] in Hs. cbv zeta in Hs.
  change (("no changes after retries" =? "cancelled")%string) with false in Hs.
  cbv iota in Hs. destruct Hs as [Hf [Hl Ht]]. fold s in Hf, Hl, Ht.
  rewrite <- Hf in Ht.
  split; [| split; [| split]].
  - rewrite Hl, Ll. now apply includes_before.
  - rewrite T, count_app, Tl, Hcom.
    rewrite (count_none _ _ _ closing_no_comment Ftail), Nat.add_0_r.
    unfold isDirect. now destruct (issueNo job).
  - rewrite Hl.
    replace (logBuffer st1 ++ (LF ++ "Error: " ++ "no changes after retries" ++ LF) ++ tidy)
      with ((logBuffer st1 ++ LF) ++ ("Error: no changes after retries" ++ LF) ++ tidy)
      by string_norm.
    apply includes_inside.
  - eexists; eexists; exists ok. split; [| exact Hf].
    rewrite Ht at 1. rewrite !app_assoc. reflexivity.
Qed.

Lemma no_change_exhaustion_fails_job_witness :
  let s := runWorker Json.platform
             (Scenario.world Scenario.git_unchanged Scenario.running true)
             Scenario.issue_job Scenario.project None in
  count reports_no_change (trace (final s)) = MAX_RETRY + 1
  /\ includes (logBuffer (final s)) ("No changes detected after 2 retries." ++ LF) = true
  /\ count is_comment (trace (final s)) = 1
  /\ finalStatus s = "failed".
Proof.
  pose proof (no_change_exhaustion_fails_job Json.platform
                (Scenario.world Scenario.git_unchanged Scenario.running true)
                Scenario.issue_job Scenario.project None) as H.
  cbv zeta in *.
  match type of H with
  | ?A -> _ => assert (Hcount : A) by (vm_compute; reflexivity)
  end.
  destruct (H Hcount) as [H1 [H2 _]].
  split; [exact Hcount |]. split; [exact H1 |]. split; [exact H2 |].
  vm_compute. reflexivity.
Defined.

(** *** The workspace and its removal *)

Lemma homeless_housed (d : string) (a : Action) : homeless a = true -> housed d a = true.
Proof.
  unfold homeless, housed. intros H.
  apply andb_prop in H as [H H3]. apply andb_prop in H as [H1 H2].
  now rewrite H1, H2, H3.
Qed.

Lemma Lodges_quiet (st st' : WState) : Grows true homeless st st' -> Lodges st st'.
Proof.
  intros [[l [T F]] [_ K]]. exists l. split; [exact T |]. left. auto.
Qed.

Lemma Lodges_prefix (st sta st' : WState) :
  Grows true homeless st sta -> Lodges sta st' -> Lodges st st'.
Proof.
  intros [[l1 [T1 F1]] [_ K1]] [l2 [T2 [[K2 F2] | [d [K2 F2]]]]];
    exists (l1 ++ l2)%list; (split; [now rewrite T2, T1, app_assoc |]).
  - left. rewrite K2, (K1 eq_refl), forallb_app, F1, F2. auto.
  - right. exists d. rewrite forallb_app, F2.
    rewrite (forallb_imp _ _ _ (homeless_housed d) F1). auto.
Qed.

Lemma Lodges_suffix (st sta st' : WState) :
  Lodges st sta -> Grows true homeless sta st' -> Lodges st st'.
Proof.
  intros [l1 [T1 [[K1 F1] | [d [K1 F1]]]]] [[l2 [T2 F2]] [_ K2]];
    exists (l1 ++ l2)%list; (split; [now rewrite T2, T1, app_assoc |]).
  - left. rewrite (K2 eq_refl), K1, forallb_app, F1, F2. auto.
  - right. exists d. rewrite (K2 eq_refl), forallb_app, F1.
    rewrite (forallb_imp _ _ _ (homeless_housed d) F2). auto.
Qed.

Lemma Lodging_prefix {A B} (m : M A) (f : A -> M B) :
  Safe true homeless m -> (forall a, Lodging (f a)) -> Lodging (bind m f).
Proof.
  intros Hm Hf st. rewrite bind_run. specialize (Hm st).
  destruct (m st) as [[a|e] sta]; simpl in *.
  - eapply Lodges_prefix; [exact Hm | apply Hf].
  - now apply Lodges_quiet.
Qed.

Lemma Lodging_suffix {A B} (m : M A) (f : A -> M B) :
  Lodging m -> (forall a, Safe true homeless (f a)) -> Lodging (bind m f).
Proof.
  intros Hm Hf st. rewrite bind_run. specialize (Hm st).
  destruct (m st) as [[a|e] sta]; simpl in *.
  - eapply Lodges_suffix; [exact Hm | apply Hf].
  - exact Hm.
Qed.

(** The assignment of [cloneDir], followed by commands that clone nowhere
    else. *)
Lemma Lodging_assign {B} (dir : string) (rest : M B) :
  Safe true (housed dir) rest -> Lodging (bind (set_cloneDir dir) (fun _ => rest)).
Proof.
  intros H st. rewrite bind_run. cbn [set_cloneDir].
  destruct (H {| trace := trace st; logBuffer := logBuffer st;
                 emitted := emitted st; cloneDir := Some dir |})
    as [[l [T F]] [_ K]].
  exists l. split; [exact T |]. right. exists dir. split; [| exact F].
  now rewrite (K eq_refl).
Qed.

Lemma attempts_homeless P env job project (remaining : nat) :
  forall attempt_no t w prompt0 claudeOutput,
    Safe true homeless
      (attempts P env job project remaining attempt_no t w prompt0 claudeOutput).
Proof.
  induction remaining as [|remaining IH]; intros; simpl attempts.
  - apply Safe_ret.
  - stage. apply IH.
Qed.

Lemma workspace_lodging P env job project followUp (t : Task) :
  Lodging (workspace P env job project followUp t).
Proof.
  unfold workspace.
  apply Lodging_prefix; [stage |]; intros _.
  apply Lodging_prefix; [stage |]; intros remoteUrl.
  apply Lodging_prefix; [stage |]; intros ms.
  cbv zeta.
  match goal with
  | |- Lodging (bind (set_cloneDir ?d) _) => generalize d; intros dir
  end.
  apply Lodging_assign. stage.
Qed.

Lemma body_lodging P env job project followUp :
  Lodging (body P env job project followUp).
Proof.
  unfold body.
  apply Lodging_suffix; [| intros [[t w] out]; stage].
  unfold prepare.
  apply Lodging_prefix; [stage |]; intros _.
  apply Lodging_prefix; [stage |]; intros _.
  apply Lodging_prefix; [stage |]; intros t.
  apply Lodging_prefix; [stage |]; intros _.
  apply Lodging_prefix; [stage |]; intros _.
  apply Lodging_suffix; [apply workspace_lodging |].
  intros w. stage. apply attempts_homeless.
Qed.

Lemma targets_unique (d d' : string) (a : Action) :
  targets d a = true -> targets d' a = true -> d = d'.
Proof.
  unfold targets. intros H H'.
  apply andb_prop in H as [_ H]. apply andb_prop in H' as [_ H'].
  destruct (clone_target a) as [target|]; [| discriminate].
  apply String.eqb_eq in H, H'. congruence.
Qed.

Lemma housed_elsewhere (d d' : string) (a : Action) :
  d' <> d -> housed d a = true -> negb (creates d' a) = true.
Proof.
  intros Hne H. unfold creates.
  destruct (targets d' a) eqn:E; [| reflexivity].
  exfalso. apply Hne. unfold housed in H.
  apply andb_prop in H as [H _]. apply andb_prop in H as [H _].
  assert (Hc : is_clone a = true)
    by (unfold targets in E; now apply andb_prop in E as [E _]).
  rewrite Hc in H. simpl in H. exact (targets_unique d' d a E H).
Qed.

Lemma homeless_creates_nothing (d : string) (a : Action) :
  homeless a = true -> negb (creates d a) = true.
Proof.
  unfold homeless, creates, targets. intros H.
  apply andb_prop in H as [H _]. apply andb_prop in H as [H _].
  now destruct (is_clone a).
Qed.

Lemma closing_creates_nothing (d : string) (a : Action) :
  closing a = true -> negb (creates d a) = true.
Proof. destruct a; simpl; try reflexivity; discriminate. Qed.

Lemma housed_keeps (d : string) (a : Action) :
  housed d a = true -> negb (is_rm a) && negb (is_settling a) = true.
Proof.
  unfold housed. intros H.
  apply andb_prop in H as [H H3]. apply andb_prop in H as [_ H2].
  now rewrite H2, H3.
Qed.

Lemma present_app (d : string) (h l : History) :
  present d (h ++ l)%list =
  fold_left (fun p a => if creates d a then true else if removes d a then false else p)
    l (present d h).
Proof. unfold present. apply fold_left_app. Qed.

Lemma stays_absent (d : string) (l : History) :
  forallb (fun a => negb (creates d a)) l = true ->
  fold_left (fun p a => if creates d a then true else if removes d a then false else p)
    l false = false.
Proof.
  induction l as [|a l IH]; simpl; [reflexivity |].
  intros H. apply andb_prop in H as [Ha Hl].
  destruct (creates d a); [discriminate |].
  destruct (removes d a); now apply IH.
Qed.

Lemma present_removed (d : string) (h after : History) :
  forallb (fun a => negb (creates d a)) after = true ->
  present d (h ++ [ARm d true] ++ after)%list = false.
Proof.
  intros H. rewrite present_app. simpl. rewrite String.eqb_refl.
  now apply stays_absent.
Qed.

(** What the settling adds to the history: at most a read of the status,
    and the final update. *)
Lemma run_settling P env job project followUp (c : Completion WorkerResult) (st1 : WState) :
  body P env job project followUp initial = (c, st1) ->
  exists after,
    trace (final (runWorker P env job project followUp)) =
      (trace st1 ++ tidied env st1 ++ after)%list
    /\ forallb (fun a => is_poll a || is_settling a) after = true
    /\ existsb is_settling after = true.
Proof.
  intros Hb. destruct (run_shape _ _ _ _ _ _ _ Hb) as [tidy [ok [_ [_ H]]]].
  destruct c as [r | e]; [| destruct (message_of e =? "cancelled")%string];
    destruct H as [_ [_ T]]; rewrite T; eexists; (split; [reflexivity |]);
    split; reflexivity.
Qed.

Lemma settling_closing (l : History) :
  forallb (fun a => is_poll a || is_settling a) l = true -> forallb closing l = true.
Proof.
  apply forallb_imp. intros a H. unfold closing.
  destruct (is_rm a), (is_poll a), (is_settling a); auto.
Qed.

(** The removal of the workspace fails: the job completes, and the
    directory is still there when it has settled. *)
Lemma workspace_left_behind_when_rm_fails :
  let s := runWorker Json.platform
             (Scenario.world Scenario.git_changed Scenario.running false)
             Scenario.direct_job Scenario.project None in
  finalStatus s = "completed"
  /\ cloneDir (final s) = Some Scenario.workspace_dir
  /\ In (ARm Scenario.workspace_dir false) (trace (final s))
  /\ present Scenario.workspace_dir (trace (final s)) = true.
Proof.
  vm_compute. split; [reflexivity |]. split; [reflexivity |].
  split; [| reflexivity]. do 18 right. left. reflexivity.
Qed.

(** C3, as the code has it.  Whatever the outcome of the job, if a clone
    created the directory [dir], then the history of the run is: everything
    the worker did, with no removal and no final update in it, then one
    attempt to remove [dir], then the settling with its final update.  When
    that removal succeeds, [dir] is absent once the job has settled; no other
    directory was created at all. *)
Theorem workspace_removal_precedes_settling :
  forall P env job project followUp (dir : string),
    let s := runWorker P env job project followUp in
    dir <> "" ->
    (exists a, In a (trace (final s)) /\ creates dir a = true) ->
    exists before ok after,
      trace (final s) = (before ++ [ARm dir ok] ++ after)%list
      /\ forallb (fun a => negb (is_rm a) && negb (is_settling a)) before = true
      /\ forallb (fun a => is_poll a || is_settling a) after = true
      /\ existsb is_settling after = true
      /\ (ok = true -> present dir (trace (final s)) = false)
      /\ (forall d, d <> dir -> present d (trace (final s)) = false).
Proof.
  intros P env job project followUp dir s Hdir [a [Hin Ha]].
  destruct (body P env job project followUp initial) as [c st1] eqn:Hb.
  destruct (run_settling _ _ _ _ _ _ _ Hb) as [after [T [Fa Ea]]]. fold s in T.
  pose proof (settling_closing _ Fa) as Ca.
  pose proof (body_lodging P env job project followUp initial) as L.
  rewrite Hb in L. destruct L as [l [Tl HL]]. simpl in Tl, HL.
  assert (Ha' : negb (creates dir a) = false) by now rewrite Ha.
  rewrite T in Hin. apply in_app_or in Hin as [Hin | Hin].
  2:{ exfalso. apply in_app_or in Hin as [Hin | Hin].
      - exact (not_in_forallb _ _ _
                 (forallb_imp _ _ _ (closing_creates_nothing dir) (tidied_closing env st1))
                 Ha' Hin).
      - exact (not_in_forallb _ _ _
                 (forallb_imp _ _ _ (closing_creates_nothing dir) Ca) Ha' Hin). }
  rewrite Tl in Hin.
  destruct HL as [[_ F] | [d [K F]]].
  { exfalso.
    exact (not_in_forallb _ _ _ (forallb_imp _ _ _ (homeless_creates_nothing dir) F)
             Ha' Hin). }
  assert (d = dir).
  { rewrite forallb_forall in F. specialize (F a Hin).
    unfold creates in Ha. apply andb_prop in Ha as [Ht _].
    unfold housed in F. apply andb_prop in F as [F _]. apply andb_prop in F as [F _].
    assert (Hc : is_clone a = true)
      by (unfold targets in Ht; now apply andb_prop in Ht as [Ht _]).
    rewrite Hc in F. simpl in F. exact (targets_unique d dir a F Ht). }
  subst d.
  assert (Et : tidied env st1 = [ARm dir (env_rm env (trace st1) dir)]).
  { unfold tidied. rewrite K. destruct dir; [contradiction | reflexivity]. }
  rewrite Et in T.
  exists l, (env_rm env (trace st1) dir), after.
  split; [now rewrite T, Tl |].
  split; [exact (forallb_imp _ _ _ (housed_keeps dir) F) |].
  split; [exact Fa |]. split; [exact Ea |]. split.
  - intros Hok. rewrite T, Hok. apply present_removed.
    exact (forallb_imp _ _ _ (closing_creates_nothing dir) Ca).
  - intros d Hd. rewrite T. unfold present. apply stays_absent.
    rewrite !forallb_app. rewrite Tl.
    rewrite (forallb_imp _ _ _ (fun x => housed_elsewhere dir d x Hd) F).
    rewrite (forallb_imp _ _ _ (closing_creates_nothing d) Ca).
    reflexivity.
Qed.

Lemma workspace_removal_precedes_settling_witness :
  let s := runWorker Json.platform
             (Scenario.world Scenario.git_changed Scenario.running true)
             Scenario.direct_job Scenario.project None in
  Scenario.workspace_dir <> ""
  /\ (exists a, In a (trace (final s)) /\ creates Scenario.workspace_dir a = true)
  /\ present Scenario.workspace_dir (trace (final s)) = false.
Proof.
  pose proof (workspace_removal_precedes_settling Json.platform
                (Scenario.world Scenario.git_changed Scenario.running true)
                Scenario.direct_job Scenario.project None Scenario.workspace_dir) as H.
  cbv zeta in *.
  assert (Hdir : Scenario.workspace_dir <> "") by discriminate.
  match type of H with
  | _ -> ?B -> _ =>
      assert (Hc : B)
        by (eexists; split; [vm_compute; do 3 right; left; reflexivity | reflexivity])
  end.
  destruct (H Hdir Hc) as [before [ok [after _]]].
  split; [exact Hdir |]. split; [exact Hc |]. vm_compute. reflexivity.
Defined.

(** Two of the outcomes behind C3, run: the agent is killed by a cancel
    request, and the push is rejected.  In both the workspace is removed
    before the job settles. *)
Example workspace_gone_after_kill_and_after_rejected_push :
  let killed := runWorker Json.platform
                  (Scenario.with_agent Scenario.agent_killed
                     (Scenario.world Scenario.git_changed (Scenario.cancelled_from 3) true))
                  Scenario.direct_job Scenario.project None in
  let rejected := runWorker Json.platform
                    (Scenario.world Scenario.git_push_rejected Scenario.running true)
                    Scenario.direct_job Scenario.project None in
  (finalStatus killed = "cancelled"
   /\ includes (logBuffer (final killed)) "Error: Claude exited with code null" = true
   /\ present Scenario.workspace_dir (trace (final killed)) = false)
  /\ (finalStatus rejected = "failed"
      /\ count (is_git "push") (trace (final rejected)) = 1
      /\ present Scenario.workspace_dir (trace (final rejected)) = false).
Proof. vm_compute. repeat split. Qed.

(* ===================================================================== *)
(** ** Further properties of the worker *)
(* ===================================================================== *)

(** *** A provider the registry does not know *)

(** X1.  When the project names a provider other than [claude] (a missing or
    empty name stands for [claude]), [getProvider] throws before anything is
    logged or run: the history of the job holds nothing but the status read
    and the final update of the settling, no workspace is created, the log is
    the one line of the error, and the job settles as [failed], or as
    [cancelled] if the status read of the settling says so. *)
Theorem unknown_provider_fails_before_any_action :
  forall P env job project followUp (name : string),
    provider project = Some name ->
    name <> "" ->
    name <> "claude" ->
    let s := runWorker P env job project followUp in
    let read := env_findStatus env [] in
    let fs := if says_cancelled read then "cancelled" else "failed" in
    let text := LF ++ "Error: Unknown provider: " ++ name ++ LF in
    finalStatus s = fs
    /\ logBuffer (final s) = text
    /\ trace (final s) =
       [AFindStatus read;
        AUpdateFinal (StatusAndLog fs text)
          (env_updateFinal env [AFindStatus read] (StatusAndLog fs text))]
    /\ cloneDir (final s) = None
    /\ emitted (final s) =
       [(topic job, LF); (topic job, "Error: Unknown provider: " ++ name ++ LF);
        (topic job, LF ++ "[worker exited: " ++ fs ++ "]"); (topic job ++ ":done", fs)].
Proof.
  intros P env job project followUp name Hp Hne Hnc s read fs text.
  assert (Hb : body P env job project followUp initial
               = (Throw (ErrUnknownProvider name), initial)).
  { unfold body, prepare. rewrite !bind_run. rewrite Hp.
    unfold or_str. destruct name as [|a name]; [contradiction |].
    cbn [nonempty]. unfold getProvider.
    apply String.eqb_neq in Hnc. rewrite Hnc. reflexivity. }
  unfold s. rewrite runWorker_run. unfold try_catch. rewrite Hb.
  unfold on_error. cbn [message_of].
  change (("Unknown provider: " ++ name =? "cancelled")%string) with false.
  cbv iota. rewrite !bind_run. cbn [log fst snd]. cbn [throw].
  unfold cleanup. cbn [cloneDir initial].
  unfold settle, cancelled_now, isCancelled.
  unfold fs, text, read, says_cancelled. cbn.
  destruct (env_findStatus env []) as [| |x];
    [| | destruct (x =? "cancelled")%string]; cbn; repeat split.
Qed.

Lemma unknown_provider_fails_before_any_action_witness :
  let project := {| baseBranch := "main"; path := "/srv/repo"; prompt := None;
                    provider := Some "gemini" |} in
  let s := runWorker Json.platform
             (Scenario.world Scenario.git_changed Scenario.running true)
             Scenario.direct_job project None in
  finalStatus s = "failed"
  /\ logBuffer (final s) = LF ++ "Error: Unknown provider: gemini" ++ LF
  /\ List.length (trace (final s)) = 2.
Proof.
  pose proof (unknown_provider_fails_before_any_action Json.platform
                (Scenario.world Scenario.git_changed Scenario.running true)
                Scenario.direct_job
                {| baseBranch := "main"; path := "/srv/repo"; prompt := None;
                   provider := Some "gemini" |} None "gemini" eq_refl) as H.
  cbv zeta in *.
  match type of H with
  | ?A -> ?B -> _ =>
      assert (Ha : A) by discriminate; assert (Hb : B) by discriminate
  end.
  destruct (H Ha Hb) as [H1 [H2 [H3 _]]].
  split; [exact H1 |]. split; [exact H2 |].
  rewrite H3. reflexivity.
Defined.

(** *** A run of the agent that fails *)

Lemma Safe_imp {A} keep (Q Q' : Action -> bool) (m : M A) :
  (forall a, Q a = true -> Q' a = true) -> Safe keep Q m -> Safe keep Q' m.
Proof.
  intros H S st. destruct (S st) as [[l [T F]] [L K]].
  split; [| split; assumption].
  exists l. split; [exact T | exact (forallb_imp _ _ _ H F)].
Qed.

(** The callbacks of the worker only write to the log. *)
Lemma callbacks_keep_trace P job :
  (forall name input st, trace (snd (worker_onToolUse P job name input st)) = trace st)
  /\ (forall text st, trace (snd (worker_onText job text st)) = trace st).
Proof.
  assert (G : forall st st', Grows false (fun _ => false) st st' -> trace st' = trace st).
  { intros st st' [[l [T F]] _]. destruct l; [now rewrite T, app_nil_r | discriminate]. }
  split.
  - intros name input st. apply G, Safe_onToolUse.
  - intros text st. apply G, Safe_onText.
Qed.

Lemma runAgent_trace P env job (prompt cwd : string) (st : WState) :
  trace (snd (runAgent P env job prompt cwd st)) =
  (trace st ++ [ASpawn "claude" (Claude.spawn_args prompt) cwd
                  (env_agent env (trace st) prompt cwd)])%list.
Proof.
  unfold runAgent.
  set (st0 := record _ st).
  change (trace st ++ _)%list with (trace st0).
  destruct (callbacks_keep_trace P job) as [H1 H2].
  apply (ClaudeFacts.runAgent_keeps P (callbacks P job) (fun a b => trace b = trace a)).
  - reflexivity.
  - intros a b c Hab Hbc. now rewrite Hbc.
  - intros name input s0. apply H1.
  - intros text s0. apply H2.
Qed.

Lemma runAgent_completion P env job (prompt cwd : string) (st : WState) (e : Thrown) :
  agent_error (env_agent env (trace st) prompt cwd) = Some e ->
  fst (runAgent P env job prompt cwd st) = Throw e.
Proof.
  unfold runAgent, agent_error, Claude.runAgent.
  destruct (ending (env_agent env (trace st) prompt cwd)) as [code | message].
  - unfold Claude.onClose. destruct code as [[| |]|]; intros H;
      first [discriminate | injection H as <-; reflexivity].
  - intros H; injection H as <-; reflexivity.
Qed.

Lemma failed_agent_is_agent (a : Action) (e : Thrown) :
  failed_agent a = Some e -> is_agent a = true.
Proof. destruct a; simpl; first [discriminate | reflexivity]. Qed.

Lemma Halts_calm {A} keep (m : M A) : Safe keep nospawn m -> Halts m.
Proof.
  intros H st. destruct (H st) as [[l [T F]] _]. exists l. split; [exact T |].
  intros a e Hin Hf. exfalso.
  rewrite forallb_forall in F. specialize (F a Hin). unfold nospawn in F.
  rewrite (failed_agent_is_agent _ _ Hf) in F. discriminate.
Qed.

Lemma Halts_bind {A B} keep (m : M A) (f : A -> M B) :
  Halts m -> Safe keep nocommit m -> (forall a, Halts (f a)) -> Halts (bind m f).
Proof.
  intros Hm Sm Hf st. rewrite bind_run.
  destruct (Hm st) as [l1 [T1 H1]]. destruct (Sm st) as [[l1' [T1' F1]] _].
  assert (E : l1' = l1) by (rewrite T1 in T1'; now apply app_inv_head in T1').
  subst l1'.
  destruct (m st) as [[a|e] st1]; simpl in *.
  - destruct (Hf a st1) as [l2 [T2 H2]]. exists (l1 ++ l2)%list. split.
    + now rewrite T2, T1, app_assoc.
    + intros x e Hin Hx. apply in_app_or in Hin as [Hin | Hin].
      * destruct (H1 x e Hin Hx) as [E _]. discriminate.
      * destruct (H2 x e Hin Hx) as [E F2]. split; [exact E |].
        now rewrite forallb_app, F1, F2.
  - exists l1. split; [exact T1 |]. intros x e' Hin Hx.
    destruct (H1 x e' Hin Hx) as [E F]. injection E as <-. split; [reflexivity | exact F].
Qed.

Lemma calm_nospawn (a : Action) : calm a = true -> nospawn a = true.
Proof. unfold calm. intros H. now apply andb_prop in H as [H _]. Qed.

Lemma calm_nocommit (a : Action) : calm a = true -> nocommit a = true.
Proof. unfold calm. intros H. now apply andb_prop in H as [_ H]. Qed.

Lemma Halts_seq {A B} keep (m : M A) (f : A -> M B) :
  Safe keep calm m -> (forall a, Halts (f a)) -> Halts (bind m f).
Proof.
  intros S Hf. apply (Halts_bind keep).
  - apply (Halts_calm keep). exact (Safe_imp _ _ _ _ calm_nospawn S).
  - exact (Safe_imp _ _ _ _ calm_nocommit S).
  - exact Hf.
Qed.

Lemma Halts_runAgent P env job (prompt cwd : string) :
  Halts (runAgent P env job prompt cwd).
Proof.
  intros st. eexists. split; [apply runAgent_trace |].
  intros a e [<- | []] Hf. simpl in Hf.
  split; [now apply runAgent_completion | reflexivity].
Qed.

Lemma Halts_agent {B} P env job (prompt cwd : string) (K : JSVal -> M B) :
  (forall out, Halts (K out)) -> Halts (bind (runAgent P env job prompt cwd) K).
Proof.
  intros HK. apply (Halts_bind false); [apply Halts_runAgent | | exact HK].
  apply Safe_runAgent. intros run. reflexivity.
Qed.

Ltac halts :=
  repeat lazymatch goal with
    | |- Halts (bind (runAgent _ _ _ _ _) _) => apply Halts_agent; intros ?
    | |- Halts (bind _ _) => apply (Halts_seq false); [solve [stage] | intros ?]
    | |- Halts (if ?b then _ else _) => destruct b
    | |- Halts (ret _) => apply (Halts_calm false), Safe_ret
    | |- Halts (throw _) => apply (Halts_calm false), Safe_throw
    end.

Lemma attempts_halts P env job project (remaining : nat) :
  forall attempt_no t w prompt0 claudeOutput,
    Halts (attempts P env job project remaining attempt_no t w prompt0 claudeOutput).
Proof.
  induction remaining as [|remaining IH]; intros; simpl attempts.
  - apply (Halts_calm false), Safe_ret.
  - halts. apply IH.
Qed.

Lemma quiet_nocommit (a : Action) : quiet a = true -> nocommit a = true.
Proof. apply quiet_no_commit. Qed.

Lemma body_halts P env job project followUp :
  Halts (body P env job project followUp).
Proof.
  unfold body. apply (Halts_bind false).
  - unfold prepare. halts. unfold agentStage. apply (Halts_bind false).
    + halts. apply attempts_halts.
    + apply (Safe_imp _ quiet); [exact quiet_nocommit |].
      stage. apply attempts_quiet.
    + intros out. halts.
  - exact (Safe_imp _ _ _ _ quiet_nocommit (prepare_quiet P env job project followUp)).
  - intros [[t w] out]. apply (Halts_calm true). stage.
Qed.

Lemma nocommit_counts (l : History) : forallb nocommit l = true -> count commits l = 0.
Proof.
  apply count_none. intros a H. unfold nocommit in H. now destruct (commits a).
Qed.

Lemma closing_nocommit (a : Action) : closing a = true -> nocommit a = true.
Proof. apply closing_no_commit. Qed.

(** X2.  When a run of the agent ends with an exit code other than 0, is
    killed by a signal, or cannot be started, the job stops there: no
    [git add], [git commit] or [git push] is issued in the whole run and the
    job settles as [failed] or [cancelled], never as [completed].  Unless the
    message of the error is the word [cancelled], the error is written to the
    log ([Claude exited with code ...] for an exit code) and the settling
    reads the status and records [failed], or [cancelled] if the read says
    so. *)
Theorem agent_failure_stops_the_job :
  forall P env job project followUp cmd args cwd run e,
    let s := runWorker P env job project followUp in
    In (ASpawn cmd args cwd run) (trace (final s)) ->
    agent_error run = Some e ->
    count commits (trace (final s)) = 0
    /\ (finalStatus s = "failed" \/ finalStatus s = "cancelled")
    /\ (message_of e <> "cancelled" ->
        includes (logBuffer (final s)) ("Error: " ++ message_of e ++ LF) = true
        /\ exists h read ok,
             trace (final s) =
               (h ++ [AFindStatus read;
                      AUpdateFinal (StatusAndLog (finalStatus s) (logBuffer (final s))) ok])%list
             /\ finalStatus s = (if says_cancelled read then "cancelled" else "failed")).
Proof.
  intros P env job project followUp cmd args cwd run e s Hin He.
  destruct (body P env job project followUp initial) as [c st1] eqn:Hb.
  destruct (run_tail _ _ _ _ _ _ _ Hb) as [tail [T Ftail]]. fold s in T.
  destruct (body_halts P env job project followUp initial) as [l [Tl Hl]].
  rewrite Hb in Tl, Hl. simpl in Tl, Hl.
  rewrite T, Tl in Hin. apply in_app_or in Hin as [Hin | Hin].
  2:{ exfalso. revert Hin. apply not_in_forallb with (Q := closing); [exact Ftail |].
      reflexivity. }
  destruct (Hl _ e Hin He) as [-> Fl].
  destruct (run_shape _ _ _ _ _ _ _ Hb) as [tidy [ok [_ [_ Hs]]]].
  cbv zeta in Hs. fold s in Hs.
  split; [| split].
  - rewrite T, count_app, Tl, (nocommit_counts _ Fl).
    now rewrite (nocommit_counts _ (forallb_imp _ _ _ closing_nocommit Ftail)).
  - destruct (message_of e =? "cancelled")%string.
    + right. apply Hs.
    + destruct Hs as [Hf _]. rewrite Hf.
      destruct (says_cancelled _); [now right | now left].
  - intros Hm. apply String.eqb_neq in Hm. rewrite Hm in Hs.
    destruct Hs as [Hf [Hlog Ht]]. split.
    + rewrite Hlog.
      replace (logBuffer st1 ++ (LF ++ "Error: " ++ message_of e ++ LF) ++ tidy)
        with ((logBuffer st1 ++ LF) ++ ("Error: " ++ message_of e ++ LF) ++ tidy)
        by string_norm.
      apply includes_inside.
    + rewrite <- Hf in Ht. eexists; eexists; exists ok. split; [| exact Hf].
      rewrite Ht at 1. rewrite !app_assoc. reflexivity.
Qed.

Lemma agent_failure_stops_the_job_witness :
  let s := runWorker Json.platform
             (Scenario.with_agent Scenario.agent_killed
                (Scenario.world Scenario.git_changed Scenario.running true))
             Scenario.direct_job Scenario.project None in
  agent_error Scenario.agent_killed = Some (ErrAgentExit None)
  /\ count is_agent (trace (final s)) = 1
  /\ count commits (trace (final s)) = 0
  /\ finalStatus s = "failed"
  /\ includes (logBuffer (final s)) ("Error: Claude exited with code null" ++ LF) = true.
Proof.
  assert (Hx : exists args,
             In (ASpawn "claude" args Scenario.workspace_dir Scenario.agent_killed)
                (trace (final (runWorker Json.platform
                                 (Scenario.with_agent Scenario.agent_killed
                                    (Scenario.world Scenario.git_changed Scenario.running true))
                                 Scenario.direct_job Scenario.project None)))).
  { vm_compute. eexists. do 10 right. left. reflexivity. }
  destruct Hx as [args Hin].
  assert (He : agent_error Scenario.agent_killed = Some (ErrAgentExit None)) by reflexivity.
  destruct (agent_failure_stops_the_job Json.platform
              (Scenario.with_agent Scenario.agent_killed
                 (Scenario.world Scenario.git_changed Scenario.running true))
              Scenario.direct_job Scenario.project None
              "claude" args Scenario.workspace_dir Scenario.agent_killed
              (ErrAgentExit None) Hin He) as [H1 [_ H3]].
  split; [exact He |]. split; [vm_compute; reflexivity |]. split; [exact H1 |].
  split; [vm_compute; reflexivity |].
  apply H3. discriminate.
Defined.

(** *** The run of a job that completes *)

Lemma keeps_dir {A} Q (m : M A) (st : WState) (c : Completion A) (st' : WState) :
  Safe true Q m -> m st = (c, st') -> cloneDir st' = cloneDir st.
Proof. intros S E. destruct (S st) as [_ [_ K]]. rewrite E in K. now apply K. Qed.

(** One step of the run of a sequence that ended normally. *)
Ltac step H :=
  rewrite bind_run in H;
  lazymatch type of H with
  | match ?m ?st with _ => _ end = _ =>
      let E := fresh "E" in
      destruct (m st) as [[?|?] ?] eqn:E; [| discriminate H]
  end.

Lemma resolve_branch env job project followUp (st : WState) (t : Task) (st' : WState) :
  resolve env job project followUp st = (Normal t, st') ->
  t_branch t =
    match followUp, issueNo job with
    | Some fu, _ => branch fu
    | None, Some n => type job ++ "/" ++ of_Z n
    | None, None => type job ++ "/" ++ of_Z (id job)
    end.
Proof.
  unfold resolve. destruct followUp as [fu|]; [| destruct (issueNo job) as [n|]]; intros H.
  - cbn in H. now injection H as <- _.
  - repeat step H. cbn in H. now injection H as <- _.
  - cbn in H. now injection H as <- _.
Qed.

Lemma workspace_dir P env job project followUp (t : Task) (st : WState)
    (w : Workspace) (st' : WState) :
  workspace P env job project followUp t st = (Normal w, st') ->
  cloneDir st' = Some (w_dir w).
Proof.
  unfold workspace. intros H.
  step H. step H. rewrite bind_run in H. cbn [Date_now] in H. cbv iota in H.
  rewrite bind_run in H. cbn [set_cloneDir] in H. cbv iota in H.
  step H.
  cbn in H. injection H as <- <-. cbn.
  match type of E1 with
  | ?m ?st = _ => assert (S1 : Safe true (fun _ => true) m) by stage
  end.
  rewrite (keeps_dir _ _ _ _ _ S1 E1). reflexivity.
Qed.

Lemma attempts_keep P env job project (remaining : nat) :
  forall attempt_no t w prompt0 claudeOutput,
    Safe true (fun _ => true)
      (attempts P env job project remaining attempt_no t w prompt0 claudeOutput).
Proof.
  induction remaining as [|remaining IH]; intros; simpl attempts.
  - apply Safe_ret.
  - stage. apply IH.
Qed.

Lemma prepare_returns P env job project followUp (st0 : WState)
    (t : Task) (w : Workspace) (out : JSVal) (sta : WState) :
  prepare P env job project followUp st0 = (Normal (t, w, out), sta) ->
  t_branch t =
    match followUp, issueNo job with
    | Some fu, _ => branch fu
    | None, Some n => type job ++ "/" ++ of_Z n
    | None, None => type job ++ "/" ++ of_Z (id job)
    end
  /\ cloneDir sta = Some (w_dir w).
Proof.
  unfold prepare. intros H. repeat step H. cbn in H. injection H as <- <- <- <-.
  split.
  - eapply resolve_branch; eassumption.
  - assert (Sc : Safe true (fun _ => true) (checkpoint env)) by stage.
    assert (Sa : forall t w, Safe true (fun _ => true)
                               (agentStage P env job project followUp t w))
      by (intros; stage; apply attempts_keep).
    repeat match goal with
           | E : checkpoint _ ?st = (_, ?st') |- cloneDir ?st' = _ =>
               rewrite (keeps_dir _ _ _ _ _ Sc E)
           | E : agentStage _ _ _ _ _ _ _ ?st = (_, ?st') |- cloneDir ?st' = _ =>
               rewrite (keeps_dir _ _ _ _ _ (Sa _ _) E)
           end.
    eapply workspace_dir; eassumption.
Qed.



Lemma tidied_is_rm env (st : WState) : forallb is_rm (tidied env st) = true.
Proof.
  unfold tidied. destruct (cloneDir st) as [d|]; [| reflexivity].
  destruct (nonempty d); reflexivity.
Qed.





(** *** How often, and when, the agent is run *)

Lemma guarded_weaken (b : bool) (l : History) :
  guarded false l = true -> guarded b l = true.
Proof. destruct l as [|[] l]; simpl; auto; discriminate. Qed.

Lemma guarded_app (l1 l2 : History) :
  forall b, guarded b l1 = true -> guarded false l2 = true ->
            guarded b (l1 ++ l2)%list = true.
Proof.
  induction l1 as [|a l1 IH]; intros b H1 H2; simpl.
  - now apply guarded_weaken.
  - destruct a; simpl in H1 |- *; try (now apply IH).
    apply andb_prop in H1 as [-> H1]. simpl. now apply IH.
Qed.

Lemma nospawn_guarded (l : History) :
  forall b, forallb nospawn l = true -> guarded b l = true.
Proof.
  induction l as [|a l IH]; intros b H; simpl; [reflexivity |].
  simpl in H. apply andb_prop in H as [Ha Hl].
  destruct a; try (now apply IH). discriminate.
Qed.

Lemma nospawn_counts (l : History) : forallb nospawn l = true -> count is_agent l = 0.
Proof.
  apply count_none. intros a H. unfold nospawn in H. now destruct (is_agent a).
Qed.

Lemma still_nospawn (a : Action) : still a = true -> nospawn a = true.
Proof. unfold still. intros H. now apply andb_prop in H as [H _]. Qed.

Lemma still_unsaid (l : History) :
  forallb still l = true -> existsb said_cancelled l = false.
Proof.
  induction l as [|a l IH]; simpl; [reflexivity |]. intros H.
  apply andb_prop in H as [Ha Hl]. rewrite (IH Hl).
  destruct a; try reflexivity. discriminate.
Qed.

Lemma heeded_nospawn (l : History) : forallb nospawn l = true -> heeded l = true.
Proof.
  induction l as [|a l IH]; simpl; [reflexivity |]. intros H.
  apply andb_prop in H as [Ha Hl]. rewrite (IH Hl), Hl. now destruct (said_cancelled a).
Qed.

(** Before a continuation that runs, no read said [cancelled]. *)
Lemma heeded_app (l1 l2 : History) :
  existsb said_cancelled l1 = false -> heeded l2 = true -> heeded (l1 ++ l2)%list = true.
Proof.
  induction l1 as [|a l1 IH]; simpl; [auto |]. intros H H2.
  apply orb_false_elim in H as [Ha Hl]. rewrite Ha. simpl. now apply IH.
Qed.

(** After the run nothing starts an agent. *)
Lemma heeded_tail (l1 l2 : History) :
  heeded l1 = true -> forallb nospawn l2 = true -> heeded (l1 ++ l2)%list = true.
Proof.
  induction l1 as [|a l1 IH]; simpl; intros H1 H2; [now apply heeded_nospawn |].
  apply andb_prop in H1 as [Ha Hl]. rewrite (IH Hl H2), andb_true_r.
  destruct (said_cancelled a); [| reflexivity]. now rewrite forallb_app, Ha, H2.
Qed.

(** What the two predicates on a history say. *)
Lemma guarded_spec (l : History) :
  forall b, guarded b l = true ->
  forall h cmd args cwd run rest,
    l = (h ++ ASpawn cmd args cwd run :: rest)%list ->
    (h = [] /\ b = true)
    \/ exists h' read, h = (h' ++ [AFindStatus read])%list /\ says_cancelled read = false.
Proof.
  induction l as [|a l IH]; intros b G h cmd args cwd run rest E.
  - destruct h; discriminate.
  - destruct h as [|a' h].
    + simpl in E. injection E as -> _. simpl in G. apply andb_prop in G as [-> _]. now left.
    + simpl in E. injection E as <- E. right.
      assert (G' : exists b', guarded b' l = true
                              /\ (b' = true -> exists read, a = AFindStatus read
                                                            /\ says_cancelled read = false)).
      { destruct a; simpl in G;
          try (exists false; split; [exact G | discriminate]).
        - exists (negb (says_cancelled r)). split; [exact G |].
          intros H. exists r. split; [reflexivity |]. now destruct (says_cancelled r).
        - apply andb_prop in G as [_ G]. exists false. split; [exact G | discriminate]. }
      destruct G' as [b' [G' Hb']].
      destruct (IH b' G' h cmd args cwd run rest E) as [[-> Hb] | [h' [read [-> Hr]]]].
      * destruct (Hb' Hb) as [read [-> Hr]]. exists [], read. split; [reflexivity | exact Hr].
      * exists (a :: h'), read. split; [reflexivity | exact Hr].
Qed.

Lemma heeded_spec (l : History) :
  heeded l = true ->
  forall h read rest,
    l = (h ++ AFindStatus read :: rest)%list -> says_cancelled read = true ->
    forallb nospawn rest = true.
Proof.
  induction l as [|a l IH]; intros H h read rest E Hr.
  - destruct h; discriminate.
  - simpl in H. apply andb_prop in H as [Ha Hl]. destruct h as [|a' h].
    + simpl in E. injection E as -> ->. simpl in Ha. now rewrite Hr in Ha.
    + simpl in E. injection E as _ E. exact (IH Hl h read rest E Hr).
Qed.

Lemma Wary_calm {A} keep (n : nat) (m : M A) : Safe keep still m -> Wary n m.
Proof.
  intros H st. destruct (H st) as [[l [T F]] _]. exists l. split; [exact T |].
  pose proof (forallb_imp _ _ _ still_nospawn F) as Fn.
  split; [now apply nospawn_guarded |]. split; [rewrite (nospawn_counts _ Fn); lia |].
  split; [now apply heeded_nospawn |]. rewrite (still_unsaid _ F). discriminate.
Qed.

Lemma Wary_bind {A B} (n1 n2 : nat) (m : M A) (f : A -> M B) :
  Wary n1 m -> (forall a, Wary n2 (f a)) -> Wary (n1 + n2) (bind m f).
Proof.
  intros Hm Hf st. rewrite bind_run. destruct (Hm st) as [l1 [T1 [G1 [C1 [H1 X1]]]]].
  destruct (m st) as [[a|e] st1]; simpl in *.
  - assert (U : existsb said_cancelled l1 = false).
    { destruct (existsb said_cancelled l1); [| reflexivity].
      destruct (X1 eq_refl) as [e E]. discriminate. }
    destruct (Hf a st1) as [l2 [T2 [G2 [C2 [H2 X2]]]]]. exists (l1 ++ l2)%list.
    split; [now rewrite T2, T1, app_assoc |].
    split; [now apply guarded_app |].
    split; [rewrite count_app; lia |].
    split; [now apply heeded_app |].
    rewrite existsb_app, U. exact X2.
  - exists l1. split; [exact T1 |]. split; [exact G1 |]. split; [lia |].
    split; [exact H1 |]. intros _. now exists e.
Qed.

Lemma Wary_checkpoint env : Wary 0 (checkpoint env).
Proof.
  intros st.
  set (read := env_findStatus env (trace st)).
  assert (E0 : checkpoint env st =
               (if says_cancelled read then Throw ErrCancelled else Normal tt,
                record (AFindStatus read) st)).
  { unfold checkpoint. rewrite bind_run. unfold isCancelled. cbv beta iota zeta.
    fold read. unfold says_cancelled. now destruct read as [| |x]; [| | destruct (x =? _)%string]. }
  rewrite E0.
  exists [AFindStatus read]. destruct (says_cancelled read) eqn:Er.
  - split; [reflexivity |]. split; [reflexivity |]. split; [unfold count; simpl; lia |].
    split; [simpl; now rewrite Er |]. intros _. now exists ErrCancelled.
  - split; [reflexivity |]. split; [reflexivity |]. split; [unfold count; simpl; lia |].
    split; [simpl; now rewrite Er |]. simpl. rewrite Er. discriminate.
Qed.

Lemma silent_trace {A} (m : M A) (st : WState) :
  Safe false (fun _ => false) m -> trace (snd (m st)) = trace st.
Proof.
  intros S. destruct (S st) as [[l [T F]] _].
  destruct l; [now rewrite T, app_nil_r | discriminate].
Qed.

(** A checkpoint, then the choice of the prompt, then the agent. *)
Lemma Wary_guard {B} P env job (n : nat) (Pm : M string) (cwd : string)
    (K : JSVal -> M B) :
  Safe false (fun _ => false) Pm ->
  (forall out, Wary n (K out)) ->
  Wary (S n) (bind (checkpoint env)
                (fun _ => bind Pm (fun p => bind (runAgent P env job p cwd) K))).
Proof.
  intros HPm HK st.
  set (read := env_findStatus env (trace st)).
  assert (E0 : checkpoint env st =
               (if says_cancelled read then Throw ErrCancelled else Normal tt,
                record (AFindStatus read) st)).
  { unfold checkpoint. rewrite bind_run. unfold isCancelled. cbv beta iota zeta.
    fold read. unfold says_cancelled. now destruct read as [| |x]; [| | destruct (x =? _)%string]. }
  rewrite bind_run, E0.
  destruct (says_cancelled read) eqn:Er.
  { exists [AFindStatus read].
    split; [reflexivity |]. split; [reflexivity |]. split; [unfold count; simpl; lia |].
    split; [simpl; now rewrite Er |]. intros _. now exists ErrCancelled. }
  rewrite bind_run.
  pose proof (silent_trace Pm (record (AFindStatus read) st) HPm) as Tp.
  destruct (Pm (record (AFindStatus read) st)) as [[p|e] st2]; simpl in Tp.
  2:{ exists [AFindStatus read].
      split; [exact Tp |]. split; [reflexivity |]. split; [unfold count; simpl; lia |].
      split; [simpl; now rewrite Er |]. simpl. rewrite Er. discriminate. }
  rewrite bind_run.
  pose proof (runAgent_trace P env job p cwd st2) as Ta.
  destruct (runAgent P env job p cwd st2) as [[out|e] st3]; simpl in Ta.
  2:{ eexists [AFindStatus read; ASpawn _ _ _ _].
      split; [cbn [snd]; rewrite Ta, Tp; simpl; now rewrite <- app_assoc |].
      split; [simpl; rewrite Er; reflexivity |].
      split; [unfold count; simpl; lia |].
      split; [simpl; now rewrite Er |]. simpl. rewrite Er. discriminate. }
  destruct (HK out st3) as [l3 [T3 [G3 [C3 [H3 X3]]]]].
  eexists (AFindStatus read :: ASpawn _ _ _ _ :: l3).
  split; [cbn [snd] in *; rewrite T3, Ta, Tp; simpl; now rewrite <- !app_assoc |].
  split; [simpl; rewrite Er; exact G3 |].
  split; [unfold count in *; simpl; lia |].
  split; [simpl; rewrite Er; exact H3 |].
  simpl. rewrite Er. exact X3.
Qed.

Ltac wary :=
  repeat lazymatch goal with
    | |- Wary ?n (bind (checkpoint _) _) =>
        apply (Wary_bind 0 n); [apply Wary_checkpoint | intros ?]
    | |- Wary ?n (bind _ _) =>
        apply (Wary_bind 0 n); [apply (Wary_calm false); solve [stage] | intros ?]
    | |- Wary _ (if ?b then _ else _) => destruct b
    | |- Wary _ (ret _) => apply (Wary_calm false), Safe_ret
    | |- Wary _ (throw _) => apply (Wary_calm false), Safe_throw
    end.

Lemma attempts_wary P env job project (remaining : nat) :
  forall attempt_no t w prompt0 claudeOutput,
    Wary remaining (attempts P env job project remaining attempt_no t w prompt0 claudeOutput).
Proof.
  induction remaining as [|remaining IH]; intros; simpl attempts.
  - apply (Wary_calm false), Safe_ret.
  - apply Wary_guard; [stage |]. intros out. wary. apply IH.
Qed.

Lemma body_wary P env job project followUp :
  Wary 3 (body P env job project followUp).
Proof.
  unfold body. apply (Wary_bind 3 0).
  - unfold prepare. wary. apply (Wary_bind 3 0).
    + unfold agentStage. wary. apply attempts_wary.
    + intros out. wary.
  - intros [[t w] out]. apply (Wary_calm false). stage.
Qed.

Lemma closing_nospawn (a : Action) : closing a = true -> nospawn a = true.
Proof. destruct a; simpl; try reflexivity; discriminate. Qed.

(** X4.  In the whole run of a job the agent is started at most three
    times; every start directly follows a read of the job's status, and that
    read did not say [cancelled]; and once a read of the status has said
    [cancelled], no agent is started any more. *)
Theorem agent_runs_are_bounded_and_guarded :
  forall P env job project followUp,
    let s := runWorker P env job project followUp in
    List.length (filter (fun a => match a with ASpawn _ _ _ _ => true | _ => false end)
                   (trace (final s))) <= 3
    /\ (forall before cmd args cwd run rest,
          trace (final s) = (before ++ ASpawn cmd args cwd run :: rest)%list ->
          exists earlier read,
            before = (earlier ++ [AFindStatus read])%list
            /\ read <> Status "cancelled")
    /\ (forall before read rest,
          trace (final s) = (before ++ AFindStatus read :: rest)%list ->
          read = Status "cancelled" ->
          forall cmd args cwd run, ~ In (ASpawn cmd args cwd run) rest).
Proof.
  intros P env job project followUp s.
  destruct (body P env job project followUp initial) as [c st1] eqn:Hb.
  destruct (run_tail _ _ _ _ _ _ _ Hb) as [tail [T Ftail]]. fold s in T.
  destruct (body_wary P env job project followUp initial) as [l [Tl [G [C [H _]]]]].
  rewrite Hb in Tl. simpl in Tl.
  pose proof (forallb_imp _ _ _ closing_nospawn Ftail) as Fn.
  rewrite T, Tl. cbn [app]. split; [| split].
  - change (count is_agent (l ++ tail)%list <= 3).
    rewrite count_app, (nospawn_counts _ Fn). lia.
  - intros before cmd args cwd run rest E.
    assert (Gt : guarded false (l ++ tail)%list = true)
      by (apply guarded_app; [exact G | now apply nospawn_guarded]).
    destruct (guarded_spec _ _ Gt _ _ _ _ _ _ E) as [[_ X] | [h' [read [-> Hr]]]];
      [discriminate |].
    exists h', read. split; [reflexivity |]. intros ->. discriminate.
  - intros before read rest E -> cmd args cwd run Hin.
    pose proof (heeded_spec _ (heeded_tail _ _ H Fn) _ _ _ E eq_refl) as F.
    rewrite forallb_forall in F. specialize (F _ Hin). discriminate.
Qed.

(** *** Where the commands run *)

Lemma outside_confined (root d : string) (a : Action) :
  outside root a = true -> confined root d a = true.
Proof.
  destruct a; simpl; try reflexivity; try discriminate.
  intros H. rewrite H. now rewrite orb_true_r.
Qed.

Lemma Phased_outside root (st st' : WState) :
  cloneDir st = None -> Grows true (outside root) st st' -> Phased root st st'.
Proof.
  intros D [[l [T F]] [_ K]]. exists l. split; [exact T |]. left.
  rewrite (K eq_refl). auto.
Qed.

Lemma Phased_confined root (d : string) (st sta st' : WState) :
  Phased root st sta -> cloneDir sta = Some d ->
  Grows true (confined root d) sta st' -> Phased root st st'.
Proof.
  intros [l1 [T1 H1]] D [[l2 [T2 F2]] [_ K2]].
  exists (l1 ++ l2)%list. split; [now rewrite T2, T1, app_assoc |].
  right. exists d. rewrite (K2 eq_refl). split; [exact D |].
  rewrite forallb_app, F2, andb_true_r.
  destruct H1 as [[D1 F1] | [d1 [D1 F1]]].
  - congruence.
  - rewrite D in D1. injection D1 as <-. exact F1.
Qed.

Lemma Phasing_prefix root {A B} (m : M A) (f : A -> M B) :
  Safe true (outside root) m -> (forall a, Phasing root (f a)) -> Phasing root (bind m f).
Proof.
  intros Hm Hf st D. rewrite bind_run. specialize (Hm st).
  destruct (m st) as [[a|e] sta]; simpl in *.
  - destruct Hm as [[l1 [T1 F1]] [_ K1]].
    destruct (Hf a sta) as [l2 [T2 H2]]; [now rewrite (K1 eq_refl) |].
    exists (l1 ++ l2)%list. split; [now rewrite T2, T1, app_assoc |].
    destruct H2 as [[D2 F2] | [d [D2 F2]]].
    + left. rewrite forallb_app, F1, F2. auto.
    + right. exists d. rewrite forallb_app, F2.
      rewrite (forallb_imp _ _ _ (outside_confined root d) F1). auto.
  - now apply Phased_outside.
Qed.

(** A stage that names the workspace, followed by stages run in it. *)
Lemma Phasing_then root {A B} (dirOf : A -> string) (m : M A) (f : A -> M B) :
  Phasing root m ->
  (forall st a st', m st = (Normal a, st') -> cloneDir st' = Some (dirOf a)) ->
  (forall a, Safe true (confined root (dirOf a)) (f a)) ->
  Phasing root (bind m f).
Proof.
  intros Hm Hd Hf st D. rewrite bind_run. specialize (Hm st D). specialize (Hd st).
  destruct (m st) as [[a|e] sta]; simpl in *; [| exact Hm].
  eapply Phased_confined; [exact Hm | now apply Hd | apply Hf].
Qed.

Lemma Phasing_assign root {B} (dir : string) (rest : M B) :
  Safe true (confined root dir) rest ->
  Phasing root (bind (set_cloneDir dir) (fun _ => rest)).
Proof.
  intros H st D. rewrite bind_run. cbn [set_cloneDir].
  destruct (H {| trace := trace st; logBuffer := logBuffer st;
                 emitted := emitted st; cloneDir := Some dir |})
    as [[l [T F]] [_ K]].
  exists l. split; [exact T |]. right. exists dir. split; [| exact F].
  now rewrite (K eq_refl).
Qed.

(** The rules of [Safe], with the condition on a recorded action decided
    after the comparisons of a directory with itself. *)
Ltac placed_step :=
  lazymatch goal with
  | |- Safe _ _ (ret _) => apply Safe_ret
  | |- Safe _ _ (throw _) => apply Safe_throw
  | |- Safe _ _ (type_error _) => apply Safe_throw
  | |- Safe _ _ (bind _ _) => apply Safe_bind; [| intros ?]
  | |- Safe _ _ (try_catch _ _) => apply Safe_try_catch; [| intros ?]
  | |- Safe _ _ (attempt _) => apply Safe_attempt
  | |- Safe _ _ (log _ _) => apply Safe_log
  | |- Safe _ _ (exec _ _ _ _) =>
      apply Safe_exec; intros; cbn; rewrite ?String.eqb_refl; reflexivity
  | |- Safe _ _ (runAgent _ _ _ _ _) =>
      apply Safe_runAgent; intros; cbn; rewrite ?String.eqb_refl; reflexivity
  | |- Safe _ _ (isCancelled _) => apply Safe_isCancelled; intros; reflexivity
  | |- Safe _ _ (checkpoint _) => apply Safe_checkpoint; intros; reflexivity
  | |- Safe _ _ (updateTitle _ _) => apply Safe_updateTitle; intros; reflexivity
  | |- Safe _ _ (existsSync _ _) => apply Safe_existsSync; intros; reflexivity
  | |- Safe _ _ (readFileSync _ _) => apply Safe_readFileSync; intros; reflexivity
  | |- Safe _ _ (now _) => apply Safe_now
  | |- Safe _ _ (Date_now _) => apply Safe_Date_now
  | |- Safe _ _ (getProvider _) => apply Safe_getProvider
  | |- Safe _ _ (field_or _ _ _ _) => apply Safe_field_or
  | |- Safe _ _ (if ?b then _ else _) => destruct b
  | |- Safe _ _ (match ?x with _ => _ end) => destruct x
  | |- Safe _ _ (let '_ := ?x in _) => destruct x
  end.

Ltac placed :=
  unfold prepare, banner, resolve, fetch, workspace, agentStage, buildPrompt,
    prInstructions, checkChanges, commitPush, results, projectRoot;
  repeat placed_step.

Lemma attempts_confined P env job project (remaining : nat) :
  forall attempt_no t w prompt0 claudeOutput,
    Safe true (confined (path project) (w_dir w))
      (attempts P env job project remaining attempt_no t w prompt0 claudeOutput).
Proof.
  induction remaining as [|remaining IH]; intros; simpl attempts.
  - apply Safe_ret.
  - placed. apply IH.
Qed.

Lemma workspace_phasing P env job project followUp (t : Task) :
  Phasing (path project) (workspace P env job project followUp t).
Proof.
  unfold workspace.
  apply Phasing_prefix; [placed |]; intros _.
  apply Phasing_prefix; [placed |]; intros remoteUrl.
  apply Phasing_prefix; [placed |]; intros ms.
  cbv zeta.
  match goal with
  | |- Phasing _ (bind (set_cloneDir ?d) _) => generalize d; intros dir
  end.
  apply Phasing_assign. placed.
Qed.

Lemma prepare_phasing P env job project followUp :
  Phasing (path project) (prepare P env job project followUp).
Proof.
  unfold prepare.
  apply Phasing_prefix; [placed |]; intros _.
  apply Phasing_prefix; [placed |]; intros _.
  apply Phasing_prefix; [placed |]; intros t.
  apply Phasing_prefix; [placed |]; intros _.
  apply Phasing_prefix; [placed |]; intros _.
  apply (Phasing_then _ w_dir).
  - apply workspace_phasing.
  - intros st w st'. apply workspace_dir.
  - intros w. placed. apply attempts_confined.
Qed.

Lemma body_phasing P env job project followUp :
  Phasing (path project) (body P env job project followUp).
Proof.
  unfold body.
  apply (Phasing_then _ (fun ready => w_dir (snd (fst ready)))).
  - apply prepare_phasing.
  - intros st [[t w] out] st' H. simpl.
    now destruct (prepare_returns _ _ _ _ _ _ _ _ _ _ H).
  - intros [[t w] out]. simpl. placed.
Qed.

(** X5.  The worker keeps out of the project's own working tree.  Once the
    workspace has its name [dir], every command runs in [dir], except the
    ones that read the repository ([git fetch origin ...],
    [git remote get-url origin], [gh issue view ...]), which run in the
    project's directory, and the clone of the project into [dir]; the agent
    runs in [dir]; and nothing but [dir] is removed.  A job that ends before
    the workspace has a name has run nothing but those reading commands,
    started no agent and removed nothing. *)
Theorem commands_stay_in_the_workspace :
  forall P env job project followUp,
    let s := runWorker P env job project followUp in
    match cloneDir (final s) with
    | Some dir => forallb (confined (path project) dir) (trace (final s)) = true
    | None => forallb (outside (path project)) (trace (final s)) = true
    end.
Proof.
  intros P env job project followUp s.
  destruct (body P env job project followUp initial) as [c st1] eqn:Hb.
  destruct (run_settling _ _ _ _ _ _ _ Hb) as [after [T [Fa _]]]. fold s in T.
  destruct (run_shape _ _ _ _ _ _ _ Hb) as [tidy [ok [_ [Hd _]]]]. fold s in Hd.
  destruct (body_phasing P env job project followUp initial eq_refl) as [l [Tl Hl]].
  rewrite Hb in Tl, Hl. simpl in Tl, Hl.
  rewrite Hd, T, Tl. unfold tidied.
  destruct Hl as [[D F] | [d [D F]]]; rewrite D.
  - rewrite !forallb_app, F. simpl.
    apply forallb_imp with (Q := fun a => is_poll a || is_settling a); [| exact Fa].
    intros a. destruct a; simpl; auto; discriminate.
  - rewrite !forallb_app, F.
    assert (Fs : forallb (confined (path project) d) after = true).
    { apply forallb_imp with (Q := fun a => is_poll a || is_settling a); [| exact Fa].
      intros a. destruct a; simpl; auto; discriminate. }
    rewrite Fs. destruct (nonempty d); simpl; [now rewrite String.eqb_refl | reflexivity].
Qed.

(** *** Relations that every stage keeps *)

Section Steadiness.
Variable P : Platform.
Variable env : Env.
Variable job : Job.
Variable R : WState -> WState -> Prop.
Hypothesis R_refl : forall st, R st st.
Hypothesis R_trans : forall a b c, R a b -> R b c -> R a c.
Hypothesis R_log : forall text st, R st (snd (log job text st)).
Hypothesis R_record : forall a st, R st (record a st).
Hypothesis R_dir : forall dir st, R st (snd (set_cloneDir dir st)).

Lemma Steady_ret {A} (a : A) : Steady R (ret a).
Proof. intros st. apply R_refl. Qed.

Lemma Steady_throw {A} (e : Thrown) : Steady R (throw (A := A) e).
Proof. intros st. apply R_refl. Qed.

Lemma Steady_bind {A B} (m : M A) (f : A -> M B) :
  Steady R m -> (forall a, Steady R (f a)) -> Steady R (bind m f).
Proof.
  intros Hm Hf st. rewrite bind_run. specialize (Hm st).
  destruct (m st) as [[a|e] st']; simpl in *.
  - eapply R_trans; [exact Hm | apply Hf].
  - exact Hm.
Qed.

Lemma Steady_try_catch {A} (m : M A) (h : Thrown -> M A) :
  Steady R m -> (forall e, Steady R (h e)) -> Steady R (try_catch m h).
Proof.
  intros Hm Hh st. unfold try_catch. specialize (Hm st).
  destruct (m st) as [[a|e] st']; simpl in *.
  - exact Hm.
  - eapply R_trans; [exact Hm | apply Hh].
Qed.

Lemma Steady_attempt (m : M unit) : Steady R m -> Steady R (attempt m).
Proof. intros H. apply Steady_try_catch; [exact H | intros e; apply Steady_ret]. Qed.

Lemma Steady_log (text : string) : Steady R (log job text).
Proof. intros st. apply R_log. Qed.

Lemma Steady_exec (cmd : string) (args : list string) (cwd : option string) :
  Steady R (exec env cmd args cwd).
Proof.
  intros st. unfold exec.
  destruct (env_exec env (trace st) cmd args cwd); apply R_record.
Qed.

Lemma Steady_isCancelled : Steady R (isCancelled env).
Proof. intros st. apply R_record. Qed.

Lemma Steady_checkpoint : Steady R (checkpoint env).
Proof.
  apply Steady_bind; [apply Steady_isCancelled |].
  intros [|]; [apply Steady_throw | apply Steady_ret].
Qed.

Lemma Steady_updateTitle (title : string) : Steady R (updateTitle env title).
Proof. intros st. apply R_record. Qed.

Lemma Steady_existsSync (file : string) : Steady R (existsSync env file).
Proof. intros st. apply R_record. Qed.

Lemma Steady_readFileSync (file : string) : Steady R (readFileSync env file).
Proof. intros st. apply R_record. Qed.

Lemma Steady_now : Steady R (now env).
Proof. intros st. apply R_refl. Qed.

Lemma Steady_Date_now : Steady R (Date_now env).
Proof. intros st. apply R_refl. Qed.

Lemma Steady_getProvider (name : string) : Steady R (getProvider name).
Proof.
  unfold getProvider. destruct (name =? "claude")%string;
    [apply Steady_ret | apply Steady_throw].
Qed.

Lemma Steady_field_or (input : JSVal) (key dflt : string) :
  Steady R (field_or P input key dflt).
Proof.
  unfold field_or. destruct (Val.get input key); [apply Steady_ret | apply Steady_throw].
Qed.

Lemma Steady_set_cloneDir (dir : string) : Steady R (set_cloneDir dir).
Proof. intros st. apply R_dir. Qed.

End Steadiness.

Ltac steady_step :=
  lazymatch goal with
  | |- Steady _ (ret _) => apply Steady_ret; assumption
  | |- Steady _ (throw _) => apply Steady_throw; assumption
  | |- Steady _ (type_error _) => apply Steady_throw; assumption
  | |- Steady _ (bind _ _) => apply Steady_bind; [assumption | | intros ?]
  | |- Steady _ (try_catch _ _) => apply Steady_try_catch; [assumption | | intros ?]
  | |- Steady _ (attempt _) => apply Steady_attempt; [assumption | assumption |]
  | |- Steady _ (log _ _) => apply Steady_log; assumption
  | |- Steady _ (exec _ _ _ _) => apply Steady_exec; assumption
  | |- Steady _ (isCancelled _) => apply Steady_isCancelled; assumption
  | |- Steady _ (checkpoint _) => apply Steady_checkpoint; assumption
  | |- Steady _ (updateTitle _ _) => apply Steady_updateTitle; assumption
  | |- Steady _ (existsSync _ _) => apply Steady_existsSync; assumption
  | |- Steady _ (readFileSync _ _) => apply Steady_readFileSync; assumption
  | |- Steady _ (now _) => apply Steady_now; assumption
  | |- Steady _ (Date_now _) => apply Steady_Date_now; assumption
  | |- Steady _ (getProvider _) => apply Steady_getProvider; assumption
  | |- Steady _ (field_or _ _ _ _) => apply Steady_field_or; assumption
  | |- Steady _ (set_cloneDir _) => apply Steady_set_cloneDir; assumption
  | |- Steady _ (if ?b then _ else _) => destruct b
  | |- Steady _ (match ?x with _ => _ end) => destruct x
  | |- Steady _ (let '_ := ?x in _) => destruct x
  end.

Section Steady_stages.
Variable P : Platform.
Variable env : Env.
Variable job : Job.
Variable project : Project.
Variable followUp : option FollowUpContext.
Variable R : WState -> WState -> Prop.
Hypothesis R_refl : forall st, R st st.
Hypothesis R_trans : forall a b c, R a b -> R b c -> R a c.
Hypothesis R_log : forall text st, R st (snd (log job text st)).
Hypothesis R_record : forall a st, R st (record a st).
Hypothesis R_dir : forall dir st, R st (snd (set_cloneDir dir st)).

Lemma Steady_onToolUse (name input : JSVal) : Steady R (worker_onToolUse P job name input).
Proof. unfold worker_onToolUse. repeat steady_step. Qed.

Lemma Steady_onText (text : JSVal) : Steady R (worker_onText job text).
Proof. unfold worker_onText. repeat steady_step. Qed.

Lemma Steady_runAgent (prompt cwd : string) : Steady R (runAgent P env job prompt cwd).
Proof.
  intros st. unfold runAgent.
  eapply R_trans; [apply R_record |].
  apply (ClaudeFacts.runAgent_keeps P (callbacks P job) R R_refl R_trans).
  - intros name input s. apply Steady_onToolUse.
  - intros text s. apply Steady_onText.
Qed.

Lemma Steady_attempts (remaining : nat) :
  forall attempt_no t w prompt0 claudeOutput,
    Steady R (attempts P env job project remaining attempt_no t w prompt0 claudeOutput).
Proof.
  induction remaining as [|remaining IH]; intros; simpl attempts.
  - now apply Steady_ret.
  - unfold checkChanges.
    repeat first [steady_step | apply Steady_runAgent | apply IH].
Qed.

Lemma Steady_body : Steady R (body P env job project followUp).
Proof.
  unfold body, prepare, banner, resolve, fetch, workspace, agentStage, buildPrompt,
    prInstructions, commitPush, results.
  repeat first [steady_step | apply Steady_attempts].
Qed.

Lemma Steady_on_error (e : Thrown) : Steady R (on_error job e).
Proof. unfold on_error. repeat steady_step. Qed.

Lemma cleanup_steady (st : WState) : R st (cleanup env job st).
Proof.
  unfold cleanup. destruct (cloneDir st) as [dir|]; [| apply R_refl].
  destruct (nonempty dir); [| apply R_refl].
  destruct (env_rm env (trace st) dir).
  - eapply R_trans; [apply R_record |].
    assert (S : Steady R (log job "" ;;; log job "Cleaning up workspace..."))
      by repeat steady_step.
    apply S.
  - apply R_record.
Qed.

(** The state in which the settling starts continues the initial one. *)
Lemma workerPromise_steady :
  R initial (snd (workerPromise P env job project followUp initial)).
Proof.
  unfold workerPromise, finally.
  assert (S : Steady R (try_catch (body P env job project followUp) (on_error job))).
  { apply Steady_try_catch; [exact R_trans | apply Steady_body |].
    intros e. apply Steady_on_error. }
  pose proof (S initial) as H.
  destruct (try_catch (body P env job project followUp) (on_error job) initial) as [c st].
  simpl in *. eapply R_trans; [exact H | apply cleanup_steady].
Qed.

End Steady_stages.

(** *** The log and what is published *)

Lemma concat_app (l1 l2 : list string) : concat (l1 ++ l2) = concat l1 ++ concat l2.
Proof.
  induction l1 as [|x l1 IH]; simpl; [reflexivity |].
  now rewrite IH, JSFacts.append_assoc.
Qed.

Lemma Echo_refl job (st : WState) : Echo job st st.
Proof.
  exists []. rewrite app_nil_r. simpl. now rewrite JSFacts.append_empty_r.
Qed.

Lemma Echo_trans job (a b c : WState) : Echo job a b -> Echo job b c -> Echo job a c.
Proof.
  intros [e1 [E1 [F1 L1]]] [e2 [E2 [F2 L2]]]. exists (e1 ++ e2)%list.
  rewrite E2, E1, <- app_assoc, forallb_app, F1, F2, L2, L1.
  rewrite map_app, concat_app, JSFacts.append_assoc. auto.
Qed.

Lemma Echo_log job (text : string) (st : WState) : Echo job st (snd (log job text st)).
Proof.
  exists [(topic job, text ++ LF)]. simpl. unfold on_topic. simpl.
  rewrite String.eqb_refl, JSFacts.append_empty_r. auto.
Qed.

Lemma Echo_record job (a : Action) (st : WState) : Echo job st (record a st).
Proof.
  exists []. simpl. now rewrite app_nil_r, JSFacts.append_empty_r.
Qed.

Lemma Echo_dir job (dir : string) (st : WState) : Echo job st (snd (set_cloneDir dir st)).
Proof.
  exists []. simpl. now rewrite app_nil_r, JSFacts.append_empty_r.
Qed.

Lemma settle_published env job (c : Completion WorkerResult) (st : WState) :
  let s := settle env job c st in
  emitted (final s) =
    (emitted st ++ [(topic job, (LF ++ "[worker exited: " ++ finalStatus s ++ "]")%string);
                    ((topic job ++ ":done")%string, finalStatus s)])%list
  /\ logBuffer (final s) = logBuffer st
  /\ exists h ok, trace (final s) =
       (h ++ [AUpdateFinal
                match c with
                | Normal r => Settled (finalStatus s) (logBuffer st) (or_null (r_branch r))
                                (or_null (r_prBody r)) (or_null (r_prTitle r))
                                (or_null (r_diff r))
                | Throw _ => StatusAndLog (finalStatus s) (logBuffer st)
                end ok])%list.
Proof.
  unfold settle, cancelled_now, isCancelled. destruct c as [r|e].
  - destruct (negb (status r =? "cancelled")%string).
    + cbn. rewrite <- app_assoc. repeat split. eexists; eexists. reflexivity.
    + cbn. rewrite <- app_assoc. repeat split. eexists; eexists. reflexivity.
  - cbn. rewrite <- app_assoc. repeat split. eexists; eexists. reflexivity.
Qed.

(** What has been published when the job has settled: the log, then the exit
    line and the [done] event. *)
Lemma run_published P env job project followUp :
  let s := runWorker P env job project followUp in
  exists evs,
    emitted (final s) =
      (evs ++ [(topic job, (LF ++ "[worker exited: " ++ finalStatus s ++ "]")%string);
               ((topic job ++ ":done")%string, finalStatus s)])%list
    /\ forallb (on_topic job) evs = true
    /\ concat (map snd evs) = logBuffer (final s)
    /\ exists h data ok,
         trace (final s) = (h ++ [AUpdateFinal data ok])%list
         /\ log_of data = logBuffer (final s)
         /\ status_of data = finalStatus s.
Proof.
  intros s. unfold s, runWorker.
  pose proof (workerPromise_steady P env job project followUp (Echo job)
                (Echo_refl job) (Echo_trans job) (Echo_log job) (Echo_record job)
                (Echo_dir job)) as [evs [E [F L]]].
  destruct (workerPromise P env job project followUp initial) as [c st].
  simpl in E, L.
  destruct (settle_published env job c st) as [E' [L' [h [ok T]]]].
  cbv zeta in *. exists evs. rewrite E', E, L', L.
  split; [reflexivity |]. split; [exact F |]. split; [reflexivity |].
  eexists h, _, ok. split; [exact T |].
  destruct c; simpl; rewrite L; auto.
Qed.

(** X6.  The log of a job is exactly what was published on the topic of the
    job while it ran: when the job has settled, the events published are
    log chunks on that topic whose texts, put together, are the log; then
    the line [[worker exited: status]] on the same topic; then one event on
    the [done] topic carrying the final status.  The last action of the run
    is the final update, and it writes that same log and that same
    status. *)
Theorem log_is_what_was_published :
  forall P env job project followUp,
    let s := runWorker P env job project followUp in
    exists evs h data ok,
      emitted (final s) =
        (evs ++ [(topic job, (LF ++ "[worker exited: " ++ finalStatus s ++ "]")%string);
                 ((topic job ++ ":done")%string, finalStatus s)])%list
      /\ forallb (on_topic job) evs = true
      /\ concat (map snd evs) = logBuffer (final s)
      /\ trace (final s) = (h ++ [AUpdateFinal data ok])%list
      /\ log_of data = logBuffer (final s)
      /\ status_of data = finalStatus s.
Proof.
  intros P env job project followUp s.
  destruct (run_published P env job project followUp)
    as [evs [E [F [L [h [data [ok [T [Ld Sd]]]]]]]]].
  exists evs, h, data, ok. repeat (split; [assumption |]). assumption.
Qed.

(** *** What the result of an agent run depends on *)

Section Result.
Variable P : Platform.
Context {S1 S2 : Type}.
Variable cb1 : Claude.StreamCallbacks (S := S1).
Variable cb2 : Claude.StreamCallbacks (S := S2).
Hypothesis tool_alike : forall name input s1 s2,
  (exists u1, fst (Claude.onToolUse cb1 name input s1) = Normal u1) <->
  (exists u2, fst (Claude.onToolUse cb2 name input s2) = Normal u2).
Hypothesis text_alike : forall text s1 s2,
  (exists u1, fst (Claude.onText cb1 text s1) = Normal u1) <->
  (exists u2, fst (Claude.onText cb2 text s2) = Normal u2).

Lemma each_block_alike (blocks : list JSVal) (lb : string) (fr : JSVal) :
  forall s1 s2, alike (Claude.each_block P cb1 blocks lb fr s1)
                      (Claude.each_block P cb2 blocks lb fr s2).
Proof.
  revert fr. induction blocks as [|block rest IH]; intros fr s1 s2; simpl.
  - split; reflexivity.
  - destruct (Val.get block "type") as [ty|]; [| split; reflexivity].
    destruct (Val.is_str ty "tool_use").
    + pose proof (tool_alike (Val.get_opt block "name")
                    (Val.or_else P (Val.get_opt block "input") (JObj [])) s1 s2) as H.
      destruct (Claude.onToolUse cb1 _ _ s1) as [[u1|e1] s1'];
        destruct (Claude.onToolUse cb2 _ _ s2) as [[u2|e2] s2']; simpl in H.
      * apply IH.
      * exfalso. destruct H as [H _]. destruct H as [u H]; [eauto | discriminate].
      * exfalso. destruct H as [_ H]. destruct H as [u H]; [eauto | discriminate].
      * split; reflexivity.
    + destruct (Val.is_str ty "text" && Val.truthy P (Val.get_opt block "text")).
      * pose proof (text_alike (Val.get_opt block "text") s1 s2) as H.
        destruct (Claude.onText cb1 _ s1) as [[u1|e1] s1'];
          destruct (Claude.onText cb2 _ s2) as [[u2|e2] s2']; simpl in H.
        -- apply IH.
        -- exfalso. destruct H as [H _]. destruct H as [u H]; [eauto | discriminate].
        -- exfalso. destruct H as [_ H]. destruct H as [u H]; [eauto | discriminate].
        -- split; reflexivity.
      * apply IH.
Qed.

Lemma processLine_alike (line : string)
    (a : Claude.Parser (S := S1)) (b : Claude.Parser (S := S2)) :
  alike a b -> alike (Claude.processLine P cb1 line a) (Claude.processLine P cb2 line b).
Proof.
  intros [Hf Hl]. unfold Claude.processLine.
  destruct (negb (nonempty (trim line))); [now split |].
  destruct (JSON_parse P line) as [event|]; [| now split].
  destruct (Val.get event "type") as [ty|]; [| now split].
  destruct (Val.is_str ty "assistant" &&
            Val.truthy P (Val.get_opt (Val.get_opt event "message") "content")).
  - destruct (Val.get_opt (Val.get_opt event "message") "content"); try now split.
    rewrite Hf, Hl. apply each_block_alike.
  - destruct (Val.is_str ty "result"); [| now split].
    destruct (Val.truthy P (Val.get_opt event "result")); [| now split].
    split; [reflexivity | exact Hl].
Qed.

Lemma processLines_alike (ls : list string) :
  forall (a : Claude.Parser (S := S1)) (b : Claude.Parser (S := S2)),
    alike a b ->
    alike (Claude.processLines P cb1 ls a) (Claude.processLines P cb2 ls b).
Proof.
  induction ls as [|l ls IH]; intros a b H; simpl; [exact H |].
  apply IH. now apply processLine_alike.
Qed.

Lemma onStdout_alike (chunk : string)
    (a : Claude.Parser (S := S1)) (b : Claude.Parser (S := S2)) :
  alike a b -> alike (Claude.onStdout P cb1 chunk a) (Claude.onStdout P cb2 chunk b).
Proof.
  intros [Hf Hl]. rewrite !ClaudeFacts.onStdout_lines, Hl.
  apply processLines_alike. split; [exact Hf | reflexivity].
Qed.

Lemma onStderr_left (chunk : string)
    (a : Claude.Parser (S := S1)) (b : Claude.Parser (S := S2)) :
  alike a b -> alike (Claude.onStderr cb1 chunk a) b.
Proof.
  intros H. unfold Claude.onStderr. destruct (nonempty (trim chunk)); exact H.
Qed.

Lemma feed_alike (evs : list ProcEvent) :
  forall (a : Claude.Parser (S := S1)) (b : Claude.Parser (S := S2)),
    alike a b ->
    alike (Claude.feed P cb1 evs a) (Claude.feed P cb2 (filter is_stdout evs) b).
Proof.
  induction evs as [|[chunk|chunk] evs IH]; intros a b H; simpl; [exact H | |].
  - apply IH. now apply onStdout_alike.
  - apply IH. now apply onStderr_left.
Qed.

Lemma runAgent_alike (run : AgentRun) (s1 : S1) (s2 : S2) :
  fst (Claude.runAgent P cb1 run s1) =
  fst (Claude.runAgent P cb2 {| events := filter is_stdout (events run);
                                ending := ending run |} s2).
Proof.
  unfold Claude.runAgent. simpl events. simpl ending.
  pose proof (feed_alike (events run) (Claude.start s1) (Claude.start s2)
                (conj eq_refl eq_refl)) as H.
  destruct (ending run) as [code | message]; [| reflexivity].
  unfold Claude.onClose.
  set (a := Claude.feed P cb1 (events run) (Claude.start s1)) in *.
  set (b := Claude.feed P cb2 (filter is_stdout (events run)) (Claude.start s2)) in *.
  assert (H' : alike (if nonempty (trim (Claude.lineBuf a))
                      then Claude.processLine P cb1 (Claude.lineBuf a) a else a)
                     (if nonempty (trim (Claude.lineBuf b))
                      then Claude.processLine P cb2 (Claude.lineBuf b) b else b)).
  { destruct H as [Hf Hl]. rewrite Hl.
    destruct (nonempty (trim (Claude.lineBuf b))); [| now split].
    apply processLine_alike. now split. }
  destruct H' as [Hf' _].
  destruct code as [[| |]|]; simpl; now rewrite ?Hf'.
Qed.

End Result.

Lemma Blind_ret {A} (a : A) : Blind (ret a).
Proof. intros st st'. reflexivity. Qed.

Lemma Blind_throw {A} (e : Thrown) : Blind (throw (A := A) e).
Proof. intros st st'. reflexivity. Qed.

Lemma Blind_log job (text : string) : Blind (log job text).
Proof. intros st st'. reflexivity. Qed.

Lemma Blind_bind {A B} (m : M A) (f : A -> M B) :
  Blind m -> (forall a, Blind (f a)) -> Blind (bind m f).
Proof.
  intros Hm Hf st st'. rewrite !bind_run. specialize (Hm st st').
  destruct (m st) as [[a|e] s1], (m st') as [[a'|e'] s1']; simpl in Hm;
    try discriminate.
  - injection Hm as <-. apply Hf.
  - injection Hm as <-. reflexivity.
Qed.

Ltac blind :=
  repeat lazymatch goal with
    | |- Blind (ret _) => apply Blind_ret
    | |- Blind (throw _) => apply Blind_throw
    | |- Blind (type_error _) => apply Blind_throw
    | |- Blind (log _ _) => apply Blind_log
    | |- Blind (bind _ _) => apply Blind_bind; [| intros ?]
    | |- Blind (field_or _ _ _ _) => unfold field_or
    | |- Blind (if ?b then _ else _) => destruct b
    | |- Blind (match ?x with _ => _ end) => destruct x
    end.

Lemma callbacks_blind P job :
  (forall name input, Blind (worker_onToolUse P job name input))
  /\ (forall text, Blind (worker_onText job text)).
Proof.
  split.
  - intros name input. unfold worker_onToolUse. blind.
  - intros text. unfold worker_onText. blind.
Qed.

(** X9.  With the callbacks of the worker, the outcome of an agent run
    (the text the promise resolves with, or the error it rejects with)
    depends on nothing but the standard output of the process and the way
    it ended: it is the same whatever the process wrote to its standard
    error and whatever the state of the worker, its log included, was when
    the agent started. *)
Theorem agent_result_ignores_stderr_and_log :
  forall P job (run : AgentRun) (st st' : WState),
    fst (Claude.runAgent P (callbacks P job) run st) =
    fst (Claude.runAgent P (callbacks P job)
           {| events := filter is_stdout (events run); ending := ending run |} st').
Proof.
  intros P job run st st'. destruct (callbacks_blind P job) as [B1 B2].
  apply runAgent_alike.
  - intros name input s1 s2. simpl. now rewrite (B1 name input s1 s2).
  - intros text s1 s2. simpl. now rewrite (B2 text s1 s2).
Qed.

(** *** A job that completes went well *)

Section Cleanliness.
Variable Q : Action -> bool.

Lemma Clean_safe {A} keep (m : M A) : Safe keep Q m -> Clean Q m.
Proof.
  intros S st a st' E. destruct (S st) as [H _]. now rewrite E in H.
Qed.

Lemma Clean_bind {A B} (m : M A) (f : A -> M B) :
  Clean Q m -> (forall a, Clean Q (f a)) -> Clean Q (bind m f).
Proof.
  intros Hm Hf st b st'. rewrite bind_run. specialize (Hm st).
  destruct (m st) as [[a|e] sta]; [| discriminate].
  intros E. destruct (Hm a sta eq_refl) as [l1 [T1 F1]].
  destruct (Hf a sta b st' E) as [l2 [T2 F2]].
  exists (l1 ++ l2)%list. now rewrite T2, T1, app_assoc, forallb_app, F1, F2.
Qed.

Lemma Clean_assoc {A B C} (m : M A) (f : A -> M B) (g : B -> M C) :
  Clean Q (bind m (fun x => bind (f x) g)) -> Clean Q (bind (bind m f) g).
Proof.
  intros H st c st' E. apply (H st c st'). rewrite <- E. rewrite !bind_run.
  destruct (m st) as [[a|e] sta]; reflexivity.
Qed.

Lemma Clean_ret_bind {A B} (a : A) (g : A -> M B) : Clean Q (g a) -> Clean Q (bind (ret a) g).
Proof. intros H st b st' E. exact (H st b st' E). Qed.

Lemma Clean_try_catch {A} keep (m : M A) (h : Thrown -> M A) :
  Safe keep Q m -> (forall e, Clean Q (h e)) -> Clean Q (try_catch m h).
Proof.
  intros Sm Hh st a st'. unfold try_catch. destruct (Sm st) as [[l1 [T1 F1]] _].
  destruct (m st) as [[a'|e] sta]; simpl in *.
  - intros E; injection E as <- <-. eauto.
  - intros E. destruct (Hh e sta a st' E) as [l2 [T2 F2]].
    exists (l1 ++ l2)%list. now rewrite T2, T1, app_assoc, forallb_app, F1, F2.
Qed.

Lemma Clean_exec env (cmd : string) (args : list string) (cwd : option string) :
  (forall o, Q (AExec cmd args cwd (ExecOk o)) = true) -> Clean Q (exec env cmd args cwd).
Proof.
  intros H st a st'. rewrite exec_run.
  destruct (env_exec env (trace st) cmd args cwd) as [o|m]; [| discriminate].
  intros E; injection E as <- <-. exists [AExec cmd args cwd (ExecOk o)].
  simpl. now rewrite H.
Qed.

Lemma Clean_checkpoint env :
  (forall r, says_cancelled r = false -> Q (AFindStatus r) = true) ->
  Clean Q (checkpoint env).
Proof.
  intros H st a st'. unfold checkpoint. rewrite bind_run. unfold isCancelled.
  cbv beta iota zeta.
  change (match env_findStatus env (trace st) with
          | Status s => (s =? "cancelled")%string
          | _ => false
          end) with (says_cancelled (env_findStatus env (trace st))).
  destruct (says_cancelled (env_findStatus env (trace st))) eqn:E; [discriminate |].
  intros E'; injection E' as <- <-. eexists [_]. split; [reflexivity |].
  simpl. now rewrite (H _ E).
Qed.

Lemma Clean_updateTitle env (title : string) :
  Q (AUpdateTitle title None) = true -> Clean Q (updateTitle env title).
Proof.
  intros H st a st'. unfold updateTitle.
  destruct (env_updateTitle env (trace st) title) as [m|]; [discriminate |].
  intros E; injection E as <- <-. eexists [_]. split; [reflexivity |].
  simpl. now rewrite H.
Qed.

Lemma Clean_readFileSync env (file : string) :
  (forall text, Q (AReadFile file (Some text)) = true) -> Clean Q (readFileSync env file).
Proof.
  intros H st a st'. unfold readFileSync.
  destruct (env_readFileSync env (trace st) file) as [text|]; [| discriminate].
  intros E; injection E as <- <-. eexists [_]. split; [reflexivity |].
  simpl. now rewrite H.
Qed.

Lemma Clean_runAgent P env job (prompt cwd : string) :
  (forall run, agent_error run = None ->
               Q (ASpawn "claude" (Claude.spawn_args prompt) cwd run) = true) ->
  Clean Q (runAgent P env job prompt cwd).
Proof.
  intros H st a st' E. eexists [_]. split.
  - rewrite <- (runAgent_trace P env job prompt cwd st). now rewrite E.
  - simpl. rewrite H; [reflexivity |].
    destruct (agent_error (env_agent env (trace st) prompt cwd)) as [e|] eqn:Ee;
      [| reflexivity].
    apply (runAgent_completion P env job) in Ee. rewrite E in Ee. discriminate.
Qed.

End Cleanliness.

(** The rules of [Safe], a recorded action being checked for each of its
    possible results. *)
Ltac tolerant_step :=
  lazymatch goal with
  | |- Safe _ _ (ret _) => apply Safe_ret
  | |- Safe _ _ (throw _) => apply Safe_throw
  | |- Safe _ _ (type_error _) => apply Safe_throw
  | |- Safe _ _ (bind _ _) => apply Safe_bind; [| intros ?]
  | |- Safe _ _ (attempt _) => apply Safe_attempt
  | |- Safe _ _ (log _ _) => apply Safe_log
  | |- Safe _ _ (exec _ _ _ _) =>
      apply Safe_exec; intros r; destruct r; cbn; rewrite ?String.eqb_refl; reflexivity
  | |- Safe _ _ (existsSync _ _) => apply Safe_existsSync; intros; reflexivity
  | |- Safe _ _ (now _) => apply Safe_now
  | |- Safe _ _ (Date_now _) => apply Safe_Date_now
  | |- Safe _ _ (getProvider _) => apply Safe_getProvider
  | |- Safe false _ (set_cloneDir _) => apply Safe_set_cloneDir
  | |- Safe _ _ (if ?b then _ else _) => destruct b
  | |- Safe _ _ (match ?x with _ => _ end) => destruct x
  end.

Ltac clean_step :=
  lazymatch goal with
  | |- Clean _ (bind (bind _ _) _) => apply Clean_assoc
  | |- Clean _ (bind (ret _) _) => apply Clean_ret_bind
  | |- Clean _ (bind (if ?b then _ else _) _) => destruct b
  | |- Clean _ (bind (match ?x with _ => _ end) _) => destruct x
  | |- Clean _ (bind _ _) => apply Clean_bind; [| intros ?]
  | |- Clean _ (try_catch _ _) =>
      apply (Clean_try_catch _ false); [solve [repeat tolerant_step] | intros ?]
  | |- Clean _ (attempt _) =>
      apply (Clean_safe _ false); solve [repeat tolerant_step]
  | |- Clean _ (exec _ _ _ _) => apply Clean_exec; intros; reflexivity
  | |- Clean _ (checkpoint _) =>
      apply Clean_checkpoint; intros r Hr; cbn; rewrite Hr; reflexivity
  | |- Clean _ (updateTitle _ _) => apply Clean_updateTitle; reflexivity
  | |- Clean _ (readFileSync _ _) => apply Clean_readFileSync; intros; reflexivity
  | |- Clean _ (runAgent _ _ _ _ _) =>
      apply Clean_runAgent; intros run Hr; cbn; rewrite Hr; reflexivity
  | |- Clean _ (if ?b then _ else _) => destruct b
  | |- Clean _ (match ?x with _ => _ end) => destruct x
  | |- Clean _ (let '_ := ?x in _) => destruct x
  | |- Clean _ _ => apply (Clean_safe _ false); solve [repeat tolerant_step]
  end.

Lemma attempts_clean P env job project follows (remaining : nat) :
  forall attempt_no t w prompt0 claudeOutput,
    Clean (went_well follows (path project))
      (attempts P env job project remaining attempt_no t w prompt0 claudeOutput).
Proof.
  induction remaining as [|remaining IH]; intros; simpl attempts.
  - apply (Clean_safe _ false), Safe_ret.
  - unfold checkChanges. repeat first [apply IH | clean_step].
Qed.

Lemma body_clean P env job project followUp :
  Clean (went_well (option_map branch followUp) (path project))
    (body P env job project followUp).
Proof.
  unfold body, prepare, banner, resolve, fetch, workspace, agentStage, buildPrompt,
    prInstructions, commitPush, results, projectRoot.
  destruct followUp as [fu|]; cbn [isFollowUp option_map];
    repeat first [apply attempts_clean | clean_step].
Qed.

(** X10.  A job settles as [completed] only if all went well: no read of
    the status said [cancelled], every run of the agent ended with exit
    code 0, the update of the title and the reading of the template did not
    fail, and every command succeeded, except for those whose failure the
    worker swallows ([git fetch origin] of the follow-up branch in the
    project's directory, [git ls-remote], the commands of the change check,
    of which a failure means that there are changes, and the comment on the
    issue). *)
Theorem completed_job_went_well :
  forall P env job project followUp,
    let s := runWorker P env job project followUp in
    finalStatus s = "completed" ->
    forallb (went_well (option_map branch followUp) (path project)) (trace (final s)) = true.
Proof.
  intros P env job project followUp s Hdone.
  destruct (body P env job project followUp initial) as [c st1] eqn:Hb.
  destruct (run_shape _ _ _ _ _ _ _ Hb) as [tidy [ok [_ [_ Hs]]]].
  cbv zeta in Hs. fold s in Hs.
  destruct c as [r | e].
  2:{ exfalso. destruct (message_of e =? "cancelled")%string.
      - destruct Hs as [Hf _]. rewrite Hf in Hdone. discriminate.
      - destruct Hs as [Hf _]. rewrite Hf in Hdone.
        destruct (says_cancelled _); discriminate. }
  destruct Hs as [Hf [_ Ht]].
  destruct (body_clean P env job project followUp initial r st1 Hb) as [l [Tl Fl]].
  simpl in Tl.
  assert (Hread : says_cancelled (env_findStatus env (trace st1 ++ tidied env st1)%list)
                  = false).
  { destruct (says_cancelled _); [| reflexivity]. rewrite Hf in Hdone. discriminate. }
  rewrite Ht, !forallb_app, Tl, Fl. simpl. rewrite <- Tl, Hread. simpl.
  rewrite andb_true_r. unfold tidied.
  destruct (cloneDir st1) as [d|]; [| reflexivity]. now destruct (nonempty d).
Qed.

Lemma completed_job_went_well_witness :
  let s := runWorker Json.platform
             (Scenario.world Scenario.git_changed Scenario.running true)
             Scenario.direct_job Scenario.project None in
  finalStatus s = "completed"
  /\ existsb (fun a => negb (succeeded a) && is_git "diff" a) (trace (final s)) = true
  /\ forallb (went_well None "/srv/repo") (trace (final s)) = true.
Proof.
  assert (Hdone : finalStatus (runWorker Json.platform
                    (Scenario.world Scenario.git_changed Scenario.running true)
                    Scenario.direct_job Scenario.project None) = "completed")
    by (vm_compute; reflexivity).
  split; [exact Hdone |]. split; [vm_compute; reflexivity |].
  exact (completed_job_went_well Json.platform
           (Scenario.world Scenario.git_changed Scenario.running true)
           Scenario.direct_job Scenario.project None Hdone).
Defined.



End WorkerFacts.

(* ===================================================================== *)
(** ** The live log of a running job *)
(* ===================================================================== *)

Module StreamFacts.
Import JS LogRoute.

Lemma eqb_longer (s t : string) : t <> "" -> (s ++ t =? s)%string = false.
Proof.
  intros Ht. induction s as [|c s IH]; simpl.
  - destruct t; [contradiction | reflexivity].
  - now rewrite Ascii.eqb_refl.
Qed.

Lemma done_is_not_log (id : Z) : (doneTopic id =? logTopic id)%string = false.
Proof.
  change (doneTopic id) with (logTopic id ++ ":done").
  apply eqb_longer. discriminate.
Qed.

Lemma log_is_not_done (id : Z) : (logTopic id =? doneTopic id)%string = false.
Proof. rewrite String.eqb_sym. apply done_is_not_log. Qed.

(** A log chunk reaches the subscriber as one data event and leaves both
    listeners in place. *)
Lemma emit_log (P : Platform) (id : Z) (payload : string) (written : list ReplyOp) :
  emit P {| ops := written; listeners := [(logTopic id, OnLog); (doneTopic id, OnDone)] |}
    (logTopic id, payload) =
  {| ops := (written ++ [Write (data_event P payload)])%list;
     listeners := [(logTopic id, OnLog); (doneTopic id, OnDone)] |}.
Proof.
  unfold emit. cbn [deliver fst snd listeners ops run_listener app].
  now rewrite String.eqb_refl, done_is_not_log.
Qed.

Lemma emit_logs (P : Platform) (id : Z) (payloads : list string) :
  forall written,
    fold_left (emit P) (map (fun p => (logTopic id, p)) payloads)
      {| ops := written; listeners := [(logTopic id, OnLog); (doneTopic id, OnDone)] |} =
    {| ops := (written ++ map (fun p => Write (data_event P p)) payloads)%list;
       listeners := [(logTopic id, OnLog); (doneTopic id, OnDone)] |}.
Proof.
  induction payloads as [|p ps IH]; intros written; simpl.
  - now rewrite app_nil_r.
  - rewrite emit_log, IH, <- app_assoc. reflexivity.
Qed.

Lemma emit_done (P : Platform) (id : Z) (status : string) (written : list ReplyOp) :
  emit P {| ops := written; listeners := [(logTopic id, OnLog); (doneTopic id, OnDone)] |}
    (doneTopic id, status) =
  {| ops := (written ++ [Write (done_event (if nonempty status then status else "done"));
                         End])%list;
     listeners := [(logTopic id, OnLog)] |}.
Proof.
  unfold emit. cbn [deliver fst snd listeners ops run_listener app].
  now rewrite String.eqb_refl, log_is_not_done.
Qed.

(** The events of the job with number [id]. *)
Lemma deliver_elsewhere (P : Platform) (id : Z) (tp payload : string)
    (ls : list (string * Listener)) :
  (tp =? logTopic id)%string = false ->
  (tp =? doneTopic id)%string = false ->
  forallb (fun l => (fst l =? logTopic id)%string || (fst l =? doneTopic id)%string) ls = true ->
  deliver P tp payload ls = ([], ls).
Proof.
  intros H1 H2. induction ls as [|[t l] ls IH]; simpl; [reflexivity |].
  intros F. apply andb_prop in F as [Ft Fl]. rewrite (IH Fl).
  destruct (t =? tp)%string eqn:E; [| reflexivity].
  apply String.eqb_eq in E. subst t. rewrite H1, H2 in Ft. discriminate.
Qed.

Lemma deliver_keeps (P : Platform) (Q : string * Listener -> bool) (tp payload : string)
    (ls : list (string * Listener)) :
  forallb Q ls = true -> forallb Q (snd (deliver P tp payload ls)) = true.
Proof.
  induction ls as [|[t l] ls IH]; simpl; [reflexivity |].
  intros F. apply andb_prop in F as [Ft Fl]. specialize (IH Fl).
  destruct (deliver P tp payload ls) as [written kept]. simpl in IH.
  destruct (t =? tp)%string; [destruct l |]; simpl; now rewrite ?Ft, IH.
Qed.

Lemma other_jobs_ignored (P : Platform) (id : Z) (evs : list (string * string)) :
  forall c,
    forallb (fun l => (fst l =? logTopic id)%string || (fst l =? doneTopic id)%string)
      (listeners c) = true ->
    fold_left (emit P) evs c =
    fold_left (emit P)
      (filter (fun ev => (fst ev =? logTopic id)%string || (fst ev =? doneTopic id)%string) evs)
      c.
Proof.
  induction evs as [|[tp payload] evs IH]; intros c F; simpl; [reflexivity |].
  destruct (tp =? logTopic id)%string eqn:E1; simpl.
  - apply IH. unfold emit. simpl.
    pose proof (deliver_keeps P _ tp payload _ F) as K.
    destruct (deliver P tp payload (listeners c)). exact K.
  - destruct (tp =? doneTopic id)%string eqn:E2; simpl.
    + apply IH. unfold emit. simpl.
      pose proof (deliver_keeps P _ tp payload _ F) as K.
      destruct (deliver P tp payload (listeners c)). exact K.
    + assert (E : emit P c (tp, payload) = c).
      { unfold emit. simpl. rewrite (deliver_elsewhere P id tp payload _ E1 E2 F).
        destruct c. simpl. now rewrite app_nil_r. }
      rewrite E. now apply IH.
Qed.

(** X7.  A subscriber who attaches while the job is running gets the head
    of the stream at once and is then served by two listeners.  Every log
    chunk published on the topic [job:<id>] is written as one data event, in
    order: [data: ], the chunk as [JSON.stringify] prints it, and two line
    feeds.  The event published on [job:<id>:done] is written once, as
    [event: done], a line feed, [data: ] with the status published (or the
    word [done] when that is empty) and two line feeds, and the stream is
    ended.  What is published for other jobs is never written to this
    stream, and once the request has closed nothing more is written. *)
Theorem running_job_is_streamed_until_done :
  forall (P : Platform) (id : Z) (payloads : list string) (status : string)
         (mixed later : list (string * string)),
    let c := handle (Found id "running") in
    let log := "job:" ++ of_Z id in
    let done := "job:" ++ of_Z id ++ ":done" in
    let evs := (map (fun p => (log, p)) payloads ++ [(done, status)])%list in
    let head := WriteHead 200 [("Content-Type", "text/event-stream");
                               ("Cache-Control", "no-cache");
                               ("Connection", "keep-alive")] in
    ops c = [head]
    /\ ops (fold_left (emit P) evs c) =
       (head ::
        map (fun p => Write ("data: " ++ JSON_stringify P (JStr p) ++ LF ++ LF)) payloads ++
        [Write ("event: done" ++ LF ++ "data: "
                ++ (if nonempty status then status else "done") ++ LF ++ LF);
         End])%list
    /\ fold_left (emit P) mixed c =
       fold_left (emit P)
         (filter (fun ev => (fst ev =? log)%string || (fst ev =? done)%string) mixed) c
    /\ fold_left (emit P) later (close (fold_left (emit P) mixed c)) =
       close (fold_left (emit P) mixed c).
Proof.
  intros P id payloads status mixed later c log done evs head.
  change log with (logTopic id) in *. change done with (doneTopic id) in *.
  change head with (WriteHead 200 sse_headers).
  change (fun p => Write ("data: " ++ JSON_stringify P (JStr p) ++ LF ++ LF))
    with (fun p => Write (data_event P p)).
  change ("event: done" ++ LF ++ "data: "
          ++ (if nonempty status then status else "done") ++ LF ++ LF)
    with (done_event (if nonempty status then status else "done")).
  split; [reflexivity |]. split; [| split].
  - unfold evs, c, handle. simpl negb. cbv iota.
    rewrite fold_left_app, emit_logs. simpl fold_left. rewrite emit_done.
    simpl. rewrite <- ?app_assoc. reflexivity.
  - apply other_jobs_ignored. unfold c. simpl.
    now rewrite !String.eqb_refl, orb_true_r.
  - apply LogRouteFacts.emits_without_listeners. reflexivity.
Qed.

(** X8.  A subscriber who attaches while the job is running, after the
    events [missed] were published, receives everything the worker publishes
    from then on: the rest of the log as data events in order ([data: ], the
    chunk as [JSON.stringify] prints it, two line feeds), then the exit line
    [[worker exited: <status>]] as a data event, then the [done] event
    ([event: done], a line feed, [data: ] with the final status, two line
    feeds), and the stream ends.  The text [missed] published and the text
    received as log chunks make up the log of the job that the final update
    writes. *)
Theorem subscriber_receives_the_rest_of_the_log :
  forall P env job project followUp (missed seen : list (string * string))
         (x y : string * string),
    let s := Worker.runWorker P env job project followUp in
    Worker.emitted (Worker.final s) = (missed ++ seen ++ [x; y])%list ->
    let c := fold_left (emit P) (seen ++ [x; y])%list (handle (Found (Worker.id job) "running")) in
    ops c =
      (WriteHead 200 [("Content-Type", "text/event-stream");
                      ("Cache-Control", "no-cache");
                      ("Connection", "keep-alive")] ::
       map (fun p => Write ("data: " ++ JSON_stringify P (JStr p) ++ LF ++ LF))
         (map snd seen ++ [(LF ++ "[worker exited: " ++ Worker.finalStatus s ++ "]")%string]) ++
       [Write ("event: done" ++ LF ++ "data: " ++ Worker.finalStatus s ++ LF ++ LF); End])%list
    /\ Worker.logBuffer (Worker.final s) = concat (map snd missed) ++ concat (map snd seen)
    /\ (Worker.finalStatus s = "completed" \/ Worker.finalStatus s = "failed"
        \/ Worker.finalStatus s = "cancelled").
Proof.
  intros P env job project followUp missed seen x y s He c.
  change (WriteHead 200 [("Content-Type", "text/event-stream");
                         ("Cache-Control", "no-cache");
                         ("Connection", "keep-alive")])
    with (WriteHead 200 sse_headers).
  change (fun p => Write ("data: " ++ JSON_stringify P (JStr p) ++ LF ++ LF))
    with (fun p => Write (data_event P p)).
  change ("event: done" ++ LF ++ "data: " ++ Worker.finalStatus s ++ LF ++ LF)
    with (done_event (Worker.finalStatus s)).
  destruct (WorkerFacts.run_published P env job project followUp)
    as [evs [E [F [L _]]]]. cbv zeta in E, L. fold s in E, L.
  rewrite He in E.
  assert (E2 : (((missed ++ seen) ++ [x]) ++ [y] =
               (evs ++ [(Worker.topic job,
                         (LF ++ "[worker exited: " ++ Worker.finalStatus s ++ "]")%string)]) ++
               [((Worker.topic job ++ ":done")%string, Worker.finalStatus s)])%list).
  { rewrite <- !app_assoc. exact E. }
  apply app_inj_tail in E2 as [E2 ->]. apply app_inj_tail in E2 as [E2 ->].
  assert (Hs : Worker.finalStatus s = "completed" \/ Worker.finalStatus s = "failed"
               \/ Worker.finalStatus s = "cancelled").
  { destruct (Worker.body P env job project followUp Worker.initial) as [r st1] eqn:Hb.
    destruct (WorkerFacts.run_shape _ _ _ _ _ _ _ Hb) as [tidy [ok [_ [_ H]]]].
    cbv zeta in H. fold s in H.
    destruct r as [r|e]; [| destruct (Worker.message_of e =? "cancelled")%string];
      destruct H as [H _]; rewrite H;
      try destruct (Worker.says_cancelled _); auto. }
  split; [| split; [| exact Hs]].
  - subst evs. rewrite forallb_app in F. apply andb_prop in F as [_ Fs].
    assert (Eseen : seen = map (fun p => (logTopic (Worker.id job), p)) (map snd seen)).
    { clear - Fs. induction seen as [|[t p] seen IH]; simpl; [reflexivity |].
      simpl in Fs. apply andb_prop in Fs as [Ft Fs]. unfold Worker.on_topic in Ft.
      simpl in Ft. apply String.eqb_eq in Ft. subst t. f_equal. now apply IH. }
    unfold c.
    change (seen ++ [(Worker.topic job,
                      (LF ++ "[worker exited: " ++ Worker.finalStatus s ++ "]")%string);
                     ((Worker.topic job ++ ":done")%string, Worker.finalStatus s)])%list
      with (seen ++ [(logTopic (Worker.id job),
                      (LF ++ "[worker exited: " ++ Worker.finalStatus s ++ "]")%string)] ++
                    [(doneTopic (Worker.id job), Worker.finalStatus s)])%list.
    rewrite app_assoc, fold_left_app. rewrite Eseen at 1.
    change [(logTopic (Worker.id job),
             (LF ++ "[worker exited: " ++ Worker.finalStatus s ++ "]")%string)]
      with (map (fun p => (logTopic (Worker.id job), p))
              [(LF ++ "[worker exited: " ++ Worker.finalStatus s ++ "]")%string]).
    rewrite <- map_app.
    unfold handle. simpl negb. cbv iota. rewrite emit_logs.
    simpl fold_left. rewrite emit_done. simpl ops.
    assert (Hn : nonempty (Worker.finalStatus s) = true)
      by (destruct Hs as [-> | [-> | ->]]; reflexivity).
    rewrite Hn. simpl. rewrite <- ?app_assoc. reflexivity.
  - rewrite <- L, <- E2, map_app. apply WorkerFacts.concat_app.
Qed.

Lemma subscriber_receives_the_rest_of_the_log_witness :
  let s := Worker.runWorker Json.platform
             (Scenario.world Scenario.git_changed Scenario.running true)
             Scenario.direct_job Scenario.project None in
  let evs := Worker.emitted (Worker.final s) in
  let missed := firstn 5 evs in
  let seen := firstn (List.length evs - 7) (skipn 5 evs) in
  let x := nth (List.length evs - 2) evs ("", "") in
  let y := nth (List.length evs - 1) evs ("", "") in
  evs = (missed ++ seen ++ [x; y])%list
  /\ Worker.logBuffer (Worker.final s) = concat (map snd missed) ++ concat (map snd seen)
  /\ y = ("job:7:done", "completed").
Proof.
  pose proof (subscriber_receives_the_rest_of_the_log Json.platform
                (Scenario.world Scenario.git_changed Scenario.running true)
                Scenario.direct_job Scenario.project None) as H.
  cbv zeta in *.
  match goal with
  | |- ?E = (?m ++ ?sn ++ [?x; ?y])%list /\ _ =>
      specialize (H m sn x y);
      assert (He : E = (m ++ sn ++ [x; y])%list) by (vm_compute; reflexivity)
  end.
  destruct (H He) as [_ [H2 _]].
  split; [exact He |]. split; [exact H2 |].
  vm_compute. reflexivity.
Defined.

End StreamFacts.

(* ===================================================================== *)
(** ** The GitHub service *)
(* ===================================================================== *)

Module GitHubFacts.
Import JS Server.

Lemma digits_split (s : string) :
  s = fst (Json.digits s) ++ snd (Json.digits s)
  /\ Json.all_digits (fst (Json.digits s)) = true
  /\ match snd (Json.digits s) with
     | EmptyString => True
     | String c _ => Json.is_digit c = false
     end.
Proof.
  induction s as [|c s IH]; simpl; [auto |].
  destruct (Json.is_digit c) eqn:E.
  - destruct (Json.digits s) as [d rest]. simpl in *.
    destruct IH as [I1 [I2 I3]]. rewrite E, I2. repeat split; [now f_equal | exact I3].
  - simpl. auto.
Qed.

Lemma digits_of_digit (c : ascii) (s : string) :
  Json.is_digit c = true -> nonempty (fst (Json.digits (String c s))) = true.
Proof. intros H. simpl. rewrite H. now destruct (Json.digits s). Qed.

Lemma issue_digits_eq (output : string) :
  issue_digits output =
  let here := if starts_with "/issues/" output
              then fst (Json.digits (drop 8 output)) else "" in
  if nonempty here then Some here
  else match output with
       | EmptyString => None
       | String _ rest => issue_digits rest
       end.
Proof. destruct output; reflexivity. Qed.

(** The answer of [issue_digits] is the run of digits after an
    [/issues/], and no [/issues/] with a digit after it stands further
    left. *)
Lemma issue_digits_sound (output d : string) :
  issue_digits output = Some d ->
  exists a b,
    output = a ++ "/issues/" ++ d ++ b
    /\ nonempty d = true
    /\ Json.all_digits d = true
    /\ match b with EmptyString => True | String c _ => Json.is_digit c = false end
    /\ forall a' c b', output = a' ++ "/issues/" ++ String c b' ->
                       Json.is_digit c = true -> String.length a <= String.length a'.
Proof.
  revert d. induction output as [|x output IH]; intros d; rewrite issue_digits_eq; cbv zeta.
  - simpl. discriminate.
  - destruct (starts_with "/issues/" (String x output)) eqn:Es.
    + destruct (nonempty (fst (Json.digits (drop 8 (String x output))))) eqn:En.
      * intros H; injection H as <-.
        apply PrBodyFacts.starts_with_split in Es.
        change (String.length "/issues/") with 8 in Es.
        destruct (digits_split (drop 8 (String x output))) as [D1 [D2 D3]].
        exists "", (snd (Json.digits (drop 8 (String x output)))).
        split.
        { transitivity ("/issues/" ++ drop 8 (String x output)); [exact Es |].
          simpl append. repeat f_equal. exact D1. }
        split; [exact En |]. split; [exact D2 |]. split; [exact D3 |].
        intros; simpl; lia.
      * intros H. destruct (IH d H) as [a [b [E [N [A [B L]]]]]].
        exists (String x a), b. split; [simpl; f_equal; exact E |].
        split; [exact N |]. split; [exact A |]. split; [exact B |].
        intros a' c b' E' Hc. destruct a' as [|y a'].
        -- exfalso. simpl in E'.
           assert (Ed : drop 8 (String x output) = String c b')
             by (rewrite E'; reflexivity).
           rewrite Ed, (digits_of_digit c b' Hc) in En. discriminate.
        -- simpl in E'. injection E' as _ E'. simpl.
           apply le_n_S. exact (L a' c b' E' Hc).
    + simpl nonempty. cbv iota.
      intros H. destruct (IH d H) as [a [b [E [N [A [B L]]]]]].
      exists (String x a), b. split; [simpl; f_equal; exact E |].
      split; [exact N |]. split; [exact A |]. split; [exact B |].
      intros a' c b' E' Hc. destruct a' as [|y a'].
      * exfalso. simpl in E'. rewrite E' in Es. discriminate.
      * simpl in E'. injection E' as _ E'. simpl.
        apply le_n_S. exact (L a' c b' E' Hc).
Qed.

Lemma issue_digits_none (output : string) :
  issue_digits output = None ->
  forall a c b, Json.is_digit c = true -> output <> a ++ "/issues/" ++ String c b.
Proof.
  induction output as [|x output IH]; rewrite issue_digits_eq; cbv zeta.
  - intros _ a c b _ E. destruct a; discriminate.
  - intros H a c b Hc E. destruct a as [|y a].
    + simpl in E. rewrite E in H. simpl in H. rewrite Hc in H.
      destruct (Json.digits b); discriminate.
    + simpl in E. injection E as _ E.
      destruct (nonempty _); [discriminate |].
      exact (IH H a c b Hc E).
Qed.

(** X11.  [createIssue], for a title that is a string and a body that is a
    string or absent: [gh issue create] is run once, with the trimmed title
    after [--title] and, only if the body is not blank, the trimmed body
    after [--body].  If the command fails, its error is thrown.  Otherwise
    the issue number is read from the trimmed output: it is [Number] of the
    longest run of digits after the leftmost [/issues/] that has a digit
    after it; when the output holds no [/issues/] followed by a digit, the
    error [Failed to parse issue number from: ...] is thrown with the
    output in it. *)
Theorem createIssue_reads_the_first_issue_number :
  forall (P : Platform) (ToNumber : JSVal -> JsNum) (world : World) (cwd title : string)
         (body : option string) (st : SState),
    let more := match body with
                | Some b => if nonempty (trim b) then ["--body"; trim b] else []
                | None => []
                end in
    let args := (["issue"; "create"; "--title"; trim title] ++ more)%list in
    let r := w_exec world (calls st) "gh" args cwd in
    let run := createIssue P ToNumber world cwd (JStr title)
                 (match body with Some b => JStr b | None => JUndefined end) st in
    snd run = call (CExec "gh" args cwd r) st
    /\ match r with
       | RanFails stderr message => fst run = inr (ExecFault stderr message)
       | RanOk stdout =>
           match issue_digits (trim stdout) with
           | None =>
               fst run = inr (ParseFault (trim stdout))
               /\ fault_message (ParseFault (trim stdout)) =
                  "Failed to parse issue number from: " ++ trim stdout
               /\ forall a c b, Json.is_digit c = true ->
                                trim stdout <> a ++ "/issues/" ++ String c b
           | Some d =>
               fst run = inl (ToNumber (JStr d))
               /\ exists a b,
                    trim stdout = a ++ "/issues/" ++ d ++ b
                    /\ nonempty d = true
                    /\ Json.all_digits d = true
                    /\ match b with
                       | EmptyString => True
                       | String c _ => Json.is_digit c = false
                       end
                    /\ forall a' c b', trim stdout = a' ++ "/issues/" ++ String c b' ->
                                       Json.is_digit c = true ->
                                       String.length a <= String.length a'
           end
       end.
Proof.
  intros P ToNumber world cwd title body st more args r run.
  assert (E : run =
              (match r with
               | RanOk stdout =>
                   match issue_digits (trim stdout) with
                   | Some d => inl (ToNumber (JStr d))
                   | None => inr (ParseFault (trim stdout))
                   end
               | RanFails stderr message => inr (ExecFault stderr message)
               end, call (CExec "gh" args cwd r) st)).
  { subst run r args more. unfold createIssue, bind, trim_of, ret, exec.
    destruct body as [b|]; cbn [Val.truthy].
    - destruct b as [|c b]; cbn [nonempty].
      + change (trim "") with "". cbn [nonempty app].
        destruct (w_exec world (calls st) "gh" _ cwd); [| reflexivity].
        destruct (issue_digits (trim stdout)); reflexivity.
      + destruct (nonempty (trim (String c b)));
          (destruct (w_exec world (calls st) "gh" _ cwd); [| reflexivity];
           destruct (issue_digits (trim stdout)); reflexivity).
    - cbn [app].
      destruct (w_exec world (calls st) "gh" _ cwd); [| reflexivity].
      destruct (issue_digits (trim stdout)); reflexivity. }
  rewrite E. cbn [fst snd]. split; [reflexivity |].
  destruct r as [stdout | stderr message]; [| reflexivity].
  destruct (issue_digits (trim stdout)) as [d|] eqn:Ed.
  - split; [reflexivity |]. now apply issue_digits_sound.
  - split; [reflexivity |]. split; [reflexivity |]. now apply issue_digits_none.
Qed.

End GitHubFacts.

(* ===================================================================== *)
(** ** The routes of the jobs and of the projects *)
(* ===================================================================== *)

Module RouteFacts.
Import JS Server.
Local Open Scope server_scope.

Lemma bind_reply {A B} (m : S A) (k : A -> S B) (st : SState) :
  bind m k st =
  match m st with
  | (inl a, st') => k a st'
  | (inr f, st') => (inr f, st')
  end.
Proof. reflexivity. Qed.





Section Input.
Variable P : Platform.
Variable ToNumber : JSVal -> JsNum.
Variable coerce : JSVal -> option string.
Variable world : World.



(** X13.  [POST /api/jobs/:jobId/pr].  The request starts and kills no
    worker.  For a job that already has a pull request, the only call is the
    lookup of the job, and the job is the reply.  The row of a job is
    updated only as the last of exactly four calls: the lookup of the job,
    [git remote get-url origin] and [gh pr create], both run in the path of
    the project of the job and both successful, and the update of that job;
    the pull request is created against the base branch of the project and
    the trimmed remote, and the update stores the trimmed output of [gh]
    with the title and body of the request.  When a command fails, the
    reply is 500 with the error output of the command, or its message when
    that is empty, and nothing is updated. *)
Theorem pull_request_is_recorded_after_it_is_created :
  forall (jobId : string) (body : JSVal) (st : SState),
    let run := postPr coerce world jobId body st in
    exists l,
      calls (snd run) = (calls st ++ l)%list
      /\ activeWorkers (snd run) = activeWorkers st
      /\ forallb (fun c => negb (is_start c) && negb (is_kill c)) l = true
      /\ (forall job url,
            In (CFindJob jobId (Row (Some job))) l ->
            j_prUrl job = Some url -> nonempty url = true ->
            l = [CFindJob jobId (Row (Some job))]
            /\ fst run = inl {| code := 200; payload := JobPayload job |})
      /\ (forall id data r,
            In (CUpdateJob id data r) l ->
            exists job project repo url t b h,
              l = [CFindJob jobId (Row (Some job));
                   CExec "git" ["remote"; "get-url"; "origin"]
                     (Worker.path (p_project project)) (RanOk repo);
                   CExec "gh" ["pr"; "create"; "--title"; t; "--body"; b;
                               "--base"; Worker.baseBranch (p_project project);
                               "--head"; h; "--repo"; trim repo]
                     (Worker.path (p_project project)) (RanOk url);
                   CUpdateJob id data r]
              /\ id = j_id job
              /\ j_project job = Some project
              /\ Worker.or_null (j_prUrl job) = None
              /\ data = SetPr (trim url) (Val.get_opt body "prBody")
                          (Val.get_opt body "prTitle")
              /\ arg coerce (Val.get_opt body "prTitle") = Some t
              /\ arg coerce (Val.get_opt body "prBody") = Some b
              /\ arg coerce (or_undefined (j_branch job)) = Some h
              /\ forall updated,
                   r = Row updated ->
                   fst run = inl {| code := 200; payload := JobPayload updated |})
      /\ (forall cmd args cwd stderr message,
            In (CExec cmd args cwd (RanFails stderr message)) l ->
            fst run = inl {| code := 500;
                             payload := ErrorPayload
                                          (if nonempty stderr then stderr else message) |}
            /\ forall id data r, ~ In (CUpdateJob id data r) l).
Proof.
  intros jobId body st. cbv zeta.
  unfold postPr, findJob, updateJob, db, createPR, getRemoteUrl, exec, try_catch, field,
    Val.get_opt, bind, ret, throw.
  cbv beta iota zeta.
  destruct (w_findJob world (calls st) jobId) as [[job|]|m] eqn:Ej.
  2, 3: eexists [_]; cbn; repeat split; try reflexivity;
        try (intros; simpl in *; intuition discriminate).
  destruct (Worker.or_null (j_prUrl job)) as [u|] eqn:En.
  - eexists [_]; cbn. split; [reflexivity |]. split; [reflexivity |].
    split; [reflexivity |]. split; [| split].
    + intros job' url' [H | []] _ _. injection H as <-. auto.
    + intros id data r [H | []]. discriminate.
    + intros cmd args cwd stderr message [H | []]. discriminate.
  - assert (Hpr : forall l job' url,
               In (CFindJob jobId (Row (Some job'))) (CFindJob jobId (Row (Some job)) :: l) ->
               forallb (fun c => match c with CFindJob _ _ => false | _ => true end) l = true ->
               j_prUrl job' = Some url -> nonempty url = true -> False).
    { intros l job' url [H | H] Hl Hu Hn.
      - injection H as <-. rewrite Hu in En. simpl in En. rewrite Hn in En. discriminate.
      - rewrite forallb_forall in Hl. apply Hl in H. discriminate. }
    assert (Early : forall (f : Fault),
              let run := (@inr Reply Fault f, call (CFindJob jobId (Row (Some job))) st) in
              exists l,
                calls (snd run) = (calls st ++ l)%list
                /\ activeWorkers (snd run) = activeWorkers st
                /\ forallb (fun c => negb (is_start c) && negb (is_kill c)) l = true
                /\ (forall job0 url,
                      In (CFindJob jobId (Row (Some job0))) l ->
                      j_prUrl job0 = Some url -> nonempty url = true ->
                      l = [CFindJob jobId (Row (Some job0))]
                      /\ fst run = inl {| code := 200; payload := JobPayload job0 |})
                /\ (forall id data r, In (CUpdateJob id data r) l -> False)
                /\ (forall cmd args cwd stderr message,
                      In (CExec cmd args cwd (RanFails stderr message)) l -> False)).
    { intros f. eexists [_]; cbn. split; [reflexivity |]. split; [reflexivity |].
      split; [reflexivity |]. split; [| split].
      - intros job0 url H Hu Hn. exfalso. exact (Hpr [] job0 url H eq_refl Hu Hn).
      - intros id data r [H | []]. discriminate.
      - intros cmd args cwd stderr message [H | []]. discriminate. }
    destruct (Val.get body "prTitle") as [prTitle|] eqn:Et.
    2: { destruct (Early (TypeFault (w_typeError world "req.body")))
           as [l [H1 [H2 [H3 [H4 [H5 H6]]]]]].
         exists l. repeat split; auto; try (intros; exfalso; eauto; fail).
         all: intros; eapply H4; eauto. }
    destruct (Val.get body "prBody") as [prBody|] eqn:Eb.
    2: { destruct (Early (TypeFault (w_typeError world "req.body")))
           as [l [H1 [H2 [H3 [H4 [H5 H6]]]]]].
         exists l. repeat split; auto; try (intros; exfalso; eauto; fail).
         all: intros; eapply H4; eauto. }
    clear Early.
    cbn [fst snd].
    destruct (j_project job) as [project|] eqn:Epj.
    2: { eexists [_]; cbn. split; [reflexivity |]. split; [reflexivity |].
         split; [reflexivity |]. split; [| split].
         - intros job0 url H Hu Hn. exfalso. exact (Hpr [] job0 url H eq_refl Hu Hn).
         - intros id data r [H | []]. discriminate.
         - intros cmd args cwd stderr message [H | []]. discriminate. }
    cbn [fst snd call calls activeWorkers].
    cbn [arg].
    match goal with
    | |- context [w_exec world ?h ?c ?a ?d] => destruct (w_exec world h c a d) as [repo|e1 m1]
    end.
    2: { eexists [_; _]; cbn. split; [now rewrite <- app_assoc |]. split; [reflexivity |].
         split; [reflexivity |]. split; [| split].
         - intros job0 url H Hu Hn. exfalso. exact (Hpr [_] job0 url H eq_refl Hu Hn).
         - intros id data r [H | [H | []]]; discriminate.
         - intros cmd args cwd stderr message [H | [H | []]]; [discriminate |].
           injection H as <- <- <- <- <-. split; [reflexivity |].
           intros id data r [H | [H | []]]; discriminate. }
    destruct (arg coerce prTitle) as [t|] eqn:At.
    2: { eexists [_; _]; cbn. split; [now rewrite <- app_assoc |]. split; [reflexivity |].
         split; [reflexivity |]. split; [| split].
         - intros job0 url H Hu Hn. exfalso. exact (Hpr [_] job0 url H eq_refl Hu Hn).
         - intros id data r [H | [H | []]]; discriminate.
         - intros cmd args cwd stderr message [H | [H | []]]; discriminate. }
    destruct (arg coerce prBody) as [b|] eqn:Ab.
    2: { eexists [_; _]; cbn. split; [now rewrite <- app_assoc |]. split; [reflexivity |].
         split; [reflexivity |]. split; [| split].
         - intros job0 url H Hu Hn. exfalso. exact (Hpr [_] job0 url H eq_refl Hu Hn).
         - intros id data r [H | [H | []]]; discriminate.
         - intros cmd args cwd stderr message [H | [H | []]]; discriminate. }
    destruct (arg coerce (or_undefined (j_branch job))) as [h|] eqn:Ah.
    2: { eexists [_; _]; cbn. split; [now rewrite <- app_assoc |]. split; [reflexivity |].
         split; [reflexivity |]. split; [| split].
         - intros job0 url H Hu Hn. exfalso. exact (Hpr [_] job0 url H eq_refl Hu Hn).
         - intros id data r [H | [H | []]]; discriminate.
         - intros cmd args cwd stderr message [H | [H | []]]; discriminate. }
    cbn [fst snd call calls activeWorkers].
    match goal with
    | |- context [w_exec world ?h ?c ?a ?d] => destruct (w_exec world h c a d) as [url|e2 m2]
    end.
    2: { eexists [_; _; _]; cbn. split; [now rewrite <- !app_assoc |]. split; [reflexivity |].
         split; [reflexivity |]. split; [| split].
         - intros job0 url H Hu Hn. exfalso. exact (Hpr [_; _] job0 url H eq_refl Hu Hn).
         - intros id data r [H | [H | [H | []]]]; discriminate.
         - intros cmd args cwd stderr message [H | [H | [H | []]]]; try discriminate.
           injection H as <- <- <- <- <-. split; [reflexivity |].
           intros id data r [H | [H | [H | []]]]; discriminate. }
    cbn [fst snd call calls activeWorkers].
    match goal with
    | |- context [w_updateJob world ?h ?i ?d] =>
        destruct (w_updateJob world h i d) as [updated|m3] eqn:Eup
    end.
    all: eexists [_; _; _; _]; cbn; (split; [now rewrite <- !app_assoc |]);
      (split; [reflexivity |]); (split; [reflexivity |]); (split; [| split]).
    all: try (intros job0 url0 H Hu Hn; exfalso;
              exact (Hpr [_; _; _] job0 url0 H eq_refl Hu Hn)).
    all: try (intros cmd args cwd stderr message [H | [H | [H | [H | []]]]]; discriminate).
    all: intros id data r [H | [H | [H | [H | []]]]]; try discriminate;
      injection H as <- <- <-;
      exists job, project, repo, url, t, b, h;
      (split; [reflexivity |]); (split; [reflexivity |]); (split; [exact Epj |]);
      (split; [exact En |]); (split; [reflexivity |]);
      (split; [reflexivity |]); (split; [reflexivity |]);
      (split; [first [exact Ah | reflexivity] |]);
      intros updated' E; first [discriminate E | injection E as <-; reflexivity].
Qed.

(** A body that has one property has them all. *)
Lemma get_some (body : JSVal) (k k' : string) (v : JSVal) :
  Val.get body k = Some v -> exists v', Val.get body k' = Some v'.
Proof. destruct body; simpl; try discriminate; eauto. Qed.

Lemma blank_string (s : string) :
  nonempty s = false -> nonempty (trim s) = false.
Proof. destruct s; [reflexivity | discriminate]. Qed.

(** X14.  [POST /api/projects].  A project is created exactly when the
    name and the path of the request are strings that are not blank, the
    path as it was sent exists, is a directory and holds [.git].  Then the
    creation is the only call, it stores the trimmed name and path, with
    [main] and [claude] where the base branch and the provider are missing,
    and the reply is 201 with the row created.  Otherwise nothing is called,
    and a reply, when there is one, is 400. *)
Theorem project_is_created_exactly_when_valid :
  forall (body : JSVal) (st : SState),
    let run := postProject P world body st in
    let valid n p :=
      Val.get_opt body "name" = JStr n /\ Val.get_opt body "path" = JStr p
      /\ nonempty (trim n) = true /\ nonempty (trim p) = true
      /\ w_existsSync world p = true
      /\ w_isDirectory world p = inl true
      /\ w_existsSync world (path_join P [p; ".git"]) = true in
    activeWorkers (snd run) = activeWorkers st
    /\ (forall n p,
          valid n p ->
          exists r,
            calls (snd run) =
            (calls st ++
             [CCreateProject
                {| np_name := trim n; np_path := trim p;
                   np_baseBranch := Val.or_else P (Val.get_opt body "baseBranch") (JStr "main");
                   np_provider := Val.or_else P (Val.get_opt body "provider") (JStr "claude") |}
                r])%list
            /\ fst run = match r with
                         | Row project => inl {| code := 201; payload := ProjectPayload project |}
                         | DbFails m => inr (DbFault m)
                         end)
    /\ ((forall n p, ~ valid n p) ->
        calls (snd run) = calls st
        /\ forall r, fst run = inl r -> code r = 400 /\ exists e, payload r = ErrorPayload e).
Proof.
  intros body st. cbv zeta. unfold postProject, field, Val.get_opt.
  destruct (Val.get body "name") as [name|] eqn:En.
  2: { split; [reflexivity |]. split.
       - intros n p [H _]. discriminate.
       - intros _. split; [reflexivity |]. intros r H. discriminate. }
  destruct (get_some body "name" "path" name En) as [path ->].
  destruct (get_some body "name" "baseBranch" name En) as [baseBranch ->].
  destruct (get_some body "name" "provider" name En) as [provider ->].
  unfold projectErrors, blank, trim_of, db, bind, ret, throw. cbv beta iota.
  assert (Leaf : forall (out : Reply + Fault) ,
             (forall n p,
                 name = JStr n /\ path = JStr p
                 /\ nonempty (trim n) = true /\ nonempty (trim p) = true
                 /\ w_existsSync world p = true
                 /\ w_isDirectory world p = inl true
                 /\ w_existsSync world (path_join P [p; ".git"]) = true -> False) ->
             (forall r, out = inl r -> code r = 400 /\ exists e, payload r = ErrorPayload e) ->
             activeWorkers (snd (out, st)) = activeWorkers st
             /\ (forall n p,
                    name = JStr n /\ path = JStr p
                    /\ nonempty (trim n) = true /\ nonempty (trim p) = true
                    /\ w_existsSync world p = true
                    /\ w_isDirectory world p = inl true
                    /\ w_existsSync world (path_join P [p; ".git"]) = true ->
                    exists r,
                      calls (snd (out, st)) =
                      (calls st ++
                       [CCreateProject
                          {| np_name := trim n; np_path := trim p;
                             np_baseBranch := Val.or_else P baseBranch (JStr "main");
                             np_provider := Val.or_else P provider (JStr "claude") |}
                          r])%list
                      /\ fst (out, st) =
                         match r with
                         | Row project =>
                             inl {| code := 201; payload := ProjectPayload project |}
                         | DbFails m => inr (DbFault m)
                         end)
             /\ ((forall n p,
                     ~ (name = JStr n /\ path = JStr p
                        /\ nonempty (trim n) = true /\ nonempty (trim p) = true
                        /\ w_existsSync world p = true
                        /\ w_isDirectory world p = inl true
                        /\ w_existsSync world (path_join P [p; ".git"]) = true)) ->
                 calls (snd (out, st)) = calls st
                 /\ forall r, fst (out, st) = inl r ->
                              code r = 400 /\ exists e, payload r = ErrorPayload e)).
  { intros out Hinv Hout. split; [reflexivity |]. split.
    - intros n p H. destruct (Hinv n p H).
    - intros _. split; [reflexivity | exact Hout]. }
  assert (Bad : forall f : Fault,
             forall r : Reply, @inr Reply Fault f = inl r ->
                               code r = 400 /\ exists e, payload r = ErrorPayload e)
    by (intros f r H; discriminate H).
  assert (Rej : forall e : string,
             forall r : Reply, @inl Reply Fault {| code := 400; payload := ErrorPayload e |} = inl r ->
                               code r = 400 /\ exists e, payload r = ErrorPayload e)
    by (intros e r H; injection H as <-; simpl; eauto).
  destruct (Val.truthy P name) eqn:Tn.
  - destruct name as [| |bn|ln|n|xs|fs];
      try (apply Leaf; [intros ? ? [H _]; discriminate H | apply Bad]).
    cbv beta iota. destruct (nonempty (trim n)) eqn:Nn; cbn [negb].
    + destruct (Val.truthy P path) eqn:Tp.
      * destruct path as [| |bp|lp|p|ys|gs];
          try (apply Leaf; [intros ? ? [_ [H _]]; discriminate H | apply Bad]).
        cbv beta iota. destruct (nonempty (trim p)) eqn:Np; cbn [negb].
        -- cbn [Val.ToString]. destruct (w_existsSync world p) eqn:Ee; cbn [negb].
           ++ destruct (w_isDirectory world p) as [[|]|msg] eqn:Ed.
              ** destruct (w_existsSync world (path_join P [p; ".git"])) eqn:Eg; cbn [negb].
                 --- cbn [app].
                     match goal with
                     | |- context [w_createProject world ?h ?d] =>
                         destruct (w_createProject world h d) as [project|m] eqn:Ec
                     end.
                     all: split; [reflexivity |]; split;
                       [intros n' p' [Hn [Hp _]]; injection Hn as <-; injection Hp as <-;
                        eexists; split; reflexivity
                       | intros Hv; exfalso; apply (Hv n p); repeat split; assumption].
                 --- apply Leaf; [| apply Rej].
                     intros ? ? [_ [Hp [_ [_ [_ [_ H]]]]]]. injection Hp as <-. congruence.
              ** apply Leaf; [| apply Rej].
                 intros ? ? [_ [Hp [_ [_ [_ [H _]]]]]]. injection Hp as <-. congruence.
              ** apply Leaf; [| apply Bad].
                 intros ? ? [_ [Hp [_ [_ [_ [H _]]]]]]. injection Hp as <-. congruence.
           ++ apply Leaf; [| apply Rej].
              intros ? ? [_ [Hp [_ [_ [H _]]]]]. injection Hp as <-. congruence.
        -- apply Leaf; [| apply Rej].
           intros ? ? [_ [Hp [_ [H _]]]]. injection Hp as <-. congruence.
      * apply Leaf; [| apply Rej].
        intros ? p' [_ [Hp [_ [H _]]]]. subst path. simpl in Tp.
        apply blank_string in Tp. congruence.
    + assert (Hname : forall n0 p0 : string,
                 JStr n = JStr n0 /\ path = JStr p0
                 /\ nonempty (trim n0) = true /\ nonempty (trim p0) = true
                 /\ w_existsSync world p0 = true
                 /\ w_isDirectory world p0 = inl true
                 /\ w_existsSync world (path_join P [p0; ".git"]) = true -> False)
        by (intros ? ? [Hn [_ [H _]]]; injection Hn as <-; congruence).
      destruct (Val.truthy P path);
        [destruct path; try (apply Leaf; [exact Hname | apply Bad]);
         cbv beta iota; destruct (nonempty (trim s)); cbn [negb Val.ToString];
         [destruct (w_existsSync world s); cbn [negb];
          [destruct (w_isDirectory world s) as [[|]|msg];
           [destruct (w_existsSync world (path_join P [s; ".git"])); cbn [negb] | |] |] |] |];
        (apply Leaf; [exact Hname | first [apply Bad | apply Rej]]).
  - assert (Hname : forall n0 p0 : string,
               name = JStr n0 /\ path = JStr p0
               /\ nonempty (trim n0) = true /\ nonempty (trim p0) = true
               /\ w_existsSync world p0 = true
               /\ w_isDirectory world p0 = inl true
               /\ w_existsSync world (path_join P [p0; ".git"]) = true -> False).
    { intros ? ? [Hn [_ [H _]]]. subst name. simpl in Tn. apply blank_string in Tn.
      congruence. }
    destruct (Val.truthy P path);
      [destruct path; try (apply Leaf; [exact Hname | apply Bad]);
       cbv beta iota; destruct (nonempty (trim s)); cbn [negb Val.ToString];
       [destruct (w_existsSync world s); cbn [negb];
        [destruct (w_isDirectory world s) as [[|]|msg];
         [destruct (w_existsSync world (path_join P [s; ".git"])); cbn [negb] | |] |] |] |];
      (apply Leaf; [exact Hname | first [apply Bad | apply Rej]]).
Qed.

(** [cancelWorker]: the worker is killed when it is registered, and the id
    is registered no more; the other workers stay. *)
Lemma cancelWorker_run (jobId : Z) (st : SState) :
  let run := cancelWorker jobId st in
  fst run = inl tt
  /\ calls (snd run) =
     (calls st ++ if existsb (Z.eqb jobId) (activeWorkers st) then [CKill jobId] else [])%list
  /\ forall i, In i (activeWorkers (snd run)) <-> In i (activeWorkers st) /\ i <> jobId.
Proof.
  cbv zeta. unfold cancelWorker.
  destruct (existsb (Z.eqb jobId) (activeWorkers st)) eqn:E; cbn [fst snd calls activeWorkers].
  - split; [reflexivity |]. split; [reflexivity |]. intros i. rewrite filter_In.
    split; intros [H1 H2]; split; auto.
    + intros ->. rewrite Z.eqb_refl in H2. discriminate.
    + apply negb_true_iff. apply Z.eqb_neq. congruence.
  - split; [reflexivity |]. split; [now rewrite app_nil_r |]. intros i.
    split; [| tauto]. intros H. split; [exact H |]. intros ->.
    assert (X : existsb (Z.eqb jobId) (activeWorkers st) = true)
      by (apply existsb_exists; exists jobId; split; [exact H | apply Z.eqb_refl]).
    congruence.
Qed.

Lemma registered (jobId : Z) (st : SState) :
  existsb (Z.eqb jobId) (activeWorkers st) = true <-> In jobId (activeWorkers st).
Proof.
  rewrite existsb_exists. split.
  - intros [x [H E]]. apply Z.eqb_eq in E. now subst.
  - intros H. exists jobId. split; [exact H | apply Z.eqb_refl].
Qed.

(** X15.  [POST /api/jobs/:jobId/cancel] and [DELETE /api/jobs/:jobId].
    Neither starts a worker or registers one.  A worker is killed only when
    it is the registered worker of the job found and that job is running;
    then the job has no registered worker afterwards, and every other worker
    stays registered.  For a job that is not running the registry is left as
    it was, and cancelling makes no call but the lookup and replies with the
    job as found.  Cancelling a running job ends with the update of its
    status to [cancelled]; deleting a job found ends with the deletion of
    its row, running or not. *)
Theorem stopping_a_job_stops_only_its_worker :
  forall (jobId : string) (st : SState),
    let stops (run : (Reply + Fault) * SState) (l : list Call) :=
      calls (snd run) = (calls st ++ l)%list
      /\ forallb (fun c => negb (is_start c)) l = true
      /\ (forall i, In i (activeWorkers (snd run)) -> In i (activeWorkers st))
      /\ (forall i,
            In (CKill i) l ->
            exists job,
              w_findJob world (calls st) jobId = Row (Some job)
              /\ i = j_id job /\ j_status job = "running"
              /\ In i (activeWorkers st))
      /\ (forall job,
            w_findJob world (calls st) jobId = Row (Some job) ->
            (j_status job = "running" ->
             ~ In (j_id job) (activeWorkers (snd run))
             /\ (In (j_id job) (activeWorkers st) -> In (CKill (j_id job)) l)
             /\ forall i, i <> j_id job -> In i (activeWorkers st) ->
                          In i (activeWorkers (snd run)))
            /\ (j_status job <> "running" ->
                activeWorkers (snd run) = activeWorkers st))
      /\ ((forall job, w_findJob world (calls st) jobId <> Row (Some job)) ->
          l = [CFindJob jobId (w_findJob world (calls st) jobId)]) in
    (exists l,
        let run := postCancel world jobId st in
        stops run l
        /\ forall job,
             w_findJob world (calls st) jobId = Row (Some job) ->
             (j_status job <> "running" ->
              l = [CFindJob jobId (Row (Some job))]
              /\ fst run = inl {| code := 200; payload := JobPayload job |})
             /\ (j_status job = "running" ->
                 exists before r,
                   l = (before ++ [CUpdateJob (j_id job) SetCancelled r])%list
                   /\ forallb (fun c => negb (is_write c)) before = true
                   /\ fst run = match r with
                                | Row updated =>
                                    inl {| code := 200; payload := JobPayload updated |}
                                | DbFails m => inr (DbFault m)
                                end))
    /\ (exists l,
           let run := deleteJobRoute world jobId st in
           stops run l
           /\ forall job,
                w_findJob world (calls st) jobId = Row (Some job) ->
                exists before r,
                  l = (before ++ [CDeleteJob (j_id job) r])%list
                  /\ forallb (fun c => negb (is_write c)) before = true
                  /\ fst run = match r with
                               | Row _ => inl {| code := 204; payload := NoPayload |}
                               | DbFails m => inr (DbFault m)
                               end).
Proof.
  intros jobId st. cbv zeta.
  assert (Kills : forall job (kills : list Call),
             kills = (if existsb (Z.eqb (j_id job)) (activeWorkers st)
                      then [CKill (j_id job)] else []) ->
             forallb (fun c => negb (is_start c)) kills = true
             /\ forallb (fun c => negb (is_write c)) kills = true
             /\ (forall i, In (CKill i) kills -> i = j_id job /\ In i (activeWorkers st))
             /\ (In (j_id job) (activeWorkers st) -> In (CKill (j_id job)) kills)).
  { intros job kills ->.
    destruct (existsb (Z.eqb (j_id job)) (activeWorkers st)) eqn:E.
    - apply registered in E. repeat split; try reflexivity.
      + destruct H as [H | []]. now injection H.
      + destruct H as [H | []]. injection H as <-. exact E.
      + intros _. now left.
    - repeat split; try reflexivity; try (destruct H).
      intros H. apply registered in H. congruence. }
  assert (Stops : forall job st2 last (out : Reply + Fault),
             w_findJob world (calls st) jobId = Row (Some job) ->
             j_status job = "running" ->
             is_start last = false ->
             is_kill last = false ->
             calls st2 =
             (calls (call (CFindJob jobId (Row (Some job))) st) ++
              (if existsb (Z.eqb (j_id job)) (activeWorkers st)
               then [CKill (j_id job)] else []))%list ->
             (forall i, In i (activeWorkers st2) <->
                        In i (activeWorkers st) /\ i <> j_id job) ->
             let run := (out, call last st2) in
             let l := (CFindJob jobId (Row (Some job))
                       :: (if existsb (Z.eqb (j_id job)) (activeWorkers st)
                           then [CKill (j_id job)] else [])
                       ++ [last])%list in
             (calls (snd run) = (calls st ++ l)%list
              /\ forallb (fun c => negb (is_start c)) l = true
              /\ (forall i, In i (activeWorkers (snd run)) -> In i (activeWorkers st))
              /\ (forall i,
                     In (CKill i) l ->
                     exists job0,
                       w_findJob world (calls st) jobId = Row (Some job0)
                       /\ i = j_id job0 /\ j_status job0 = "running"
                       /\ In i (activeWorkers st))
              /\ (forall job0,
                     w_findJob world (calls st) jobId = Row (Some job0) ->
                     (j_status job0 = "running" ->
                      ~ In (j_id job0) (activeWorkers (snd run))
                      /\ (In (j_id job0) (activeWorkers st) -> In (CKill (j_id job0)) l)
                      /\ forall i, i <> j_id job0 -> In i (activeWorkers st) ->
                                   In i (activeWorkers (snd run)))
                     /\ (j_status job0 <> "running" ->
                         activeWorkers (snd run) = activeWorkers st))
              /\ ((forall job0, w_findJob world (calls st) jobId <> Row (Some job0)) ->
                  l = [CFindJob jobId (w_findJob world (calls st) jobId)]))
             /\ forallb (fun c => negb (is_write c))
                  (CFindJob jobId (Row (Some job))
                   :: (if existsb (Z.eqb (j_id job)) (activeWorkers st)
                       then [CKill (j_id job)] else [])) = true).
  { intros job st2 last out Ej Er L1 L2 C1 C2. cbv zeta.
    destruct (Kills job _ eq_refl) as [K1 [K2 [K3 K4]]].
    cbn [fst snd call calls activeWorkers] in *.
    split; [| simpl; exact K2].
    split; [rewrite C1, <- !app_assoc; reflexivity |].
    split; [simpl; rewrite forallb_app, K1; simpl; now rewrite L1 |].
    split; [intros i H; apply C2 in H; tauto |].
    split; [| split].
    - intros i [H | H]; [discriminate |].
      apply in_app_or in H as [H | [H | []]].
      + destruct (K3 i H). exists job. auto.
      + subst last. discriminate.
    - intros job0 E. rewrite Ej in E. injection E as <-.
      split; [| intros H; contradiction].
      intros _. split; [intros H; apply C2 in H; tauto |].
      split; [intros H; right; apply in_or_app; left; now apply K4 |].
      intros i Hi Hin. apply C2. auto.
    - intros H. destruct (H job Ej). }
  split.
  - unfold postCancel, findJob, updateJob, db. rewrite bind_reply. cbv beta iota zeta.
    destruct (w_findJob world (calls st) jobId) as [[job|]|m] eqn:Ej.
    2, 3: eexists [_]; cbn; repeat split; try reflexivity; try discriminate; auto;
          try (intros; simpl in *; intuition discriminate).
    destruct (String.eqb (j_status job) "running") eqn:Er; cbn [negb].
    + apply String.eqb_eq in Er.
      destruct (cancelWorker_run (j_id job) (call (CFindJob jobId (Row (Some job))) st))
        as [C0 [C1 C2]].
      rewrite bind_reply.
      destruct (cancelWorker (j_id job) (call (CFindJob jobId (Row (Some job))) st))
        as [[[]|f] st2]; [| discriminate C0].
      cbn [fst snd] in C1, C2. rewrite bind_reply. cbv beta iota zeta.
      remember (w_updateJob world (calls st2) (j_id job) SetCancelled) as r eqn:Hr.
      clear Hr.
      exists (CFindJob jobId (Row (Some job))
              :: (if existsb (Z.eqb (j_id job)) (activeWorkers st)
                  then [CKill (j_id job)] else [])
              ++ [CUpdateJob (j_id job) SetCancelled r])%list.
      destruct r as [updated|m]; unfold ret; cbv beta iota zeta.
      all: match goal with
           | |- context [(?o, call ?c ?s2)] =>
               destruct (Stops job s2 c o eq_refl Er eq_refl eq_refl C1 C2) as [S1 S2]
           end.
      all: split; [exact S1 |].
      all: intros job0 E; injection E as <-; split; [intros H; contradiction |].
      all: intros _; eexists (_ :: _); eexists;
        split; [reflexivity |]; split; [exact S2 | reflexivity].
    + assert (Nr : j_status job <> "running")
        by (intros H; apply String.eqb_eq in H; congruence).
      exists [CFindJob jobId (Row (Some job))]. cbn.
      split; [| intros job0 E; injection E as <-; split; [auto | intros H; contradiction]].
      split; [reflexivity |]. split; [reflexivity |]. split; [auto |].
      split; [intros i [H | []]; discriminate |].
      split; [| intros H; destruct (H job eq_refl)].
      intros job0 E. injection E as <-. split; [intros H; contradiction | reflexivity].
  - unfold deleteJobRoute, findJob, deleteJob, db. rewrite bind_reply. cbv beta iota zeta.
    destruct (w_findJob world (calls st) jobId) as [[job|]|m] eqn:Ej.
    2, 3: eexists [_]; cbn; repeat split; try reflexivity; try discriminate; auto;
          try (intros; simpl in *; intuition discriminate).
    destruct (String.eqb (j_status job) "running") eqn:Er.
    + apply String.eqb_eq in Er.
      destruct (cancelWorker_run (j_id job) (call (CFindJob jobId (Row (Some job))) st))
        as [C0 [C1 C2]].
      rewrite bind_reply.
      destruct (cancelWorker (j_id job) (call (CFindJob jobId (Row (Some job))) st))
        as [[[]|f] st2]; [| discriminate C0].
      cbn [fst snd] in C1, C2. rewrite bind_reply. cbv beta iota zeta.
      remember (w_deleteJob world (calls st2) (j_id job)) as r eqn:Hr.
      clear Hr.
      exists (CFindJob jobId (Row (Some job))
              :: (if existsb (Z.eqb (j_id job)) (activeWorkers st)
                  then [CKill (j_id job)] else [])
              ++ [CDeleteJob (j_id job) r])%list.
      destruct r as [[]|m]; unfold ret; cbv beta iota zeta.
      all: match goal with
           | |- context [(?o, call ?c ?s2)] =>
               destruct (Stops job s2 c o eq_refl Er eq_refl eq_refl C1 C2) as [S1 S2]
           end.
      all: split; [exact S1 |].
      all: intros job0 E; injection E as <-.
      all: eexists (_ :: _); eexists;
        split; [reflexivity |]; split; [exact S2 | reflexivity].
    + assert (Nr : j_status job <> "running")
        by (intros H; apply String.eqb_eq in H; congruence).
      unfold bind, ret. cbv beta iota zeta. cbn [call calls activeWorkers].
      remember (w_deleteJob world (calls st ++ [CFindJob jobId (Row (Some job))])
                  (j_id job)) as r eqn:Hr.
      clear Hr.
      exists [CFindJob jobId (Row (Some job)); CDeleteJob (j_id job) r].
      destruct r as [[]|m]; cbn.
      all: split; [| intros job0 E; injection E as <-; eexists [_]; eexists;
                     split; [reflexivity |]; split; reflexivity].
      all: split; [now rewrite <- app_assoc |]; split; [reflexivity |]; split; [auto |].
      all: split; [intros i [H | [H | []]]; discriminate |].
      all: split; [| intros H; destruct (H job eq_refl)].
      all: intros job0 E; injection E as <-; split; [intros H; contradiction | reflexivity].
Qed.

(** The loop over the running jobs kills the registered workers of these
    jobs, each once, and leaves none of them registered. *)
Lemma cancelAll_run (jobs : list JobRow) :
  forall st : SState,
    let run := cancelAll jobs st in
    fst run = inl tt
    /\ (exists kills,
           calls (snd run) = (calls st ++ kills)%list
           /\ NoDup kills
           /\ forall c, In c kills <->
                        exists j, In j jobs /\ c = CKill (j_id j)
                                  /\ In (j_id j) (activeWorkers st))
    /\ forall i, In i (activeWorkers (snd run)) <->
                 In i (activeWorkers st) /\ ~ In i (map j_id jobs).
Proof.
  induction jobs as [|job rest IH]; intros st; cbv zeta.
  - split; [reflexivity |]. split.
    + exists []. split; [now rewrite app_nil_r |]. split; [constructor |].
      intros c. split; [intros [] | intros [j [[] _]]].
    + intros i. simpl. tauto.
  - cbn [cancelAll]. rewrite bind_reply.
    destruct (cancelWorker_run (j_id job) st) as [C0 [C1 C2]].
    destruct (cancelWorker (j_id job) st) as [[[]|f] st2]; [| discriminate C0].
    cbn [fst snd] in C1, C2.
    destruct (IH st2) as [I0 [[kills [I1 [I2 I3]]] I4]].
    split; [exact I0 |]. split.
    + exists ((if existsb (Z.eqb (j_id job)) (activeWorkers st)
               then [CKill (j_id job)] else []) ++ kills)%list.
      split; [rewrite I1, C1, <- app_assoc; reflexivity |].
      assert (Hnot : ~ In (CKill (j_id job)) kills).
      { intros H. apply I3 in H as [j [_ [E H]]]. injection E as E. rewrite <- E in H.
        apply C2 in H. tauto. }
      split.
      * destruct (existsb (Z.eqb (j_id job)) (activeWorkers st)); [| exact I2].
        simpl. constructor; assumption.
      * intros c. rewrite in_app_iff, I3. split.
        -- intros [H | [j [Hj [E H]]]].
           ++ destruct (existsb (Z.eqb (j_id job)) (activeWorkers st)) eqn:Ex;
                [| destruct H].
              destruct H as [<- | []]. exists job. split; [now left |].
              split; [reflexivity |]. now apply registered.
           ++ exists j. split; [now right |]. split; [exact E |]. apply C2 in H. tauto.
        -- intros [j [[<- | Hj] [E H]]].
           ++ left. apply registered in H. rewrite H. left. now subst.
           ++ destruct (Z.eq_dec (j_id j) (j_id job)) as [Eq | Ne].
              ** left. rewrite Eq in H, E. apply registered in H. rewrite H. left.
                 now subst.
              ** right. exists j. split; [exact Hj |]. split; [exact E |].
                 apply C2. auto.
    + intros i. rewrite I4, C2. simpl. split.
      * intros [[H1 H2] H3]. split; [exact H1 |]. intros [E | H]; [congruence | tauto].
      * intros [H1 H2]. split; [split; [exact H1 |] |]; intros H; apply H2; auto.
Qed.

(** X16.  [DELETE /api/projects/:id].  When the list of the running jobs
    of the project cannot be read, nothing else is done.  Otherwise the
    registered workers of these jobs are killed, each once and no other
    worker, before anything is deleted, and none of these jobs has a
    registered worker afterwards, whatever the deletions answer; the other
    workers stay registered.  The jobs of the project are deleted before the
    project, the project is deleted only when the deletion of its jobs
    succeeded, and the reply is 204 only when both did. *)
Theorem deleting_a_project_stops_its_running_jobs :
  forall (id : string) (st : SState),
    let run := deleteProject world id st in
    match w_findRunningOf world (calls st) id with
    | DbFails m =>
        calls (snd run) = (calls st ++ [CFindRunningOf id (DbFails m)])%list
        /\ activeWorkers (snd run) = activeWorkers st
        /\ fst run = inr (DbFault m)
    | Row jobs =>
        exists kills deletions,
          calls (snd run) =
          (calls st ++ [CFindRunningOf id (Row jobs)] ++ kills ++ deletions)%list
          /\ NoDup kills
          /\ (forall c, In c kills <->
                        exists j, In j jobs /\ c = CKill (j_id j)
                                  /\ In (j_id j) (activeWorkers st))
          /\ (forall i, In i (activeWorkers (snd run)) <->
                        In i (activeWorkers st) /\ ~ In i (map j_id jobs))
          /\ ((exists m, deletions = [CDeleteJobsOf id (DbFails m)]
                         /\ fst run = inr (DbFault m))
              \/ (exists r, deletions = [CDeleteJobsOf id (Row tt); CDeleteProject id r]
                            /\ fst run =
                               match r with
                               | Row _ => inl {| code := 204; payload := NoPayload |}
                               | DbFails m => inr (DbFault m)
                               end))
    end.
Proof.
  intros id st. cbv zeta. unfold deleteProject, db. rewrite bind_reply. cbv beta iota zeta.
  destruct (w_findRunningOf world (calls st) id) as [jobs|m] eqn:Ef.
  2: { cbn. auto. }
  rewrite bind_reply.
  destruct (cancelAll_run jobs (call (CFindRunningOf id (Row jobs)) st))
    as [I0 [[kills [I1 [I2 I3]]] I4]].
  destruct (cancelAll jobs (call (CFindRunningOf id (Row jobs)) st)) as [[[]|f] st2];
    [| discriminate I0].
  cbn [fst snd call calls activeWorkers] in I1, I3, I4.
  exists kills. unfold bind, ret. cbv beta iota zeta.
  destruct (w_deleteJobsOf world (calls st2) id) as [[]|m1].
  - cbn [call calls activeWorkers].
    remember (w_deleteProject world (calls st2 ++ [CDeleteJobsOf id (Row tt)])%list id)
      as r eqn:Hr. clear Hr.
    exists [CDeleteJobsOf id (Row tt); CDeleteProject id r].
    destruct r as [[]|m2]; cbn [fst snd call calls activeWorkers].
    all: split; [rewrite I1, <- !app_assoc; reflexivity |].
    all: split; [exact I2 |]; split; [exact I3 |]; split; [exact I4 |].
    all: right; eexists; split; reflexivity.
  - exists [CDeleteJobsOf id (DbFails m1)]. cbn [fst snd call calls activeWorkers].
    split; [rewrite I1, <- !app_assoc; reflexivity |].
    split; [exact I2 |]. split; [exact I3 |]. split; [exact I4 |].
    left. eexists. split; reflexivity.
Qed.

(** X17.  [POST /api/jobs/:jobId/retry] and [POST /api/jobs/:jobId/followup].
    A job is created only as a copy of the job found: its project, issue
    number, title, description and type, with the status [running].  A
    worker is started only for the job just created, as the last call of
    the request, with the project of the old job; the reply is then 201 with
    the new job, which is registered.  A retry starts it without a
    follow-up and only when the old job is not running; a running job is
    the reply of its own retry and nothing is created.  A follow-up starts
    it only when the old job has a branch and the message of the request is
    a string that is not blank, with that branch, the trimmed message and
    the diff of the old job.  When no worker is started, the registry is as
    before and the reply is not 201. *)
Theorem retry_and_followup_copy_the_job :
  forall (jobId : string) (body : JSVal) (st : SState),
    let copies (run : (Reply + Fault) * SState) (followUp : JobRow -> option FollowUp -> Prop) :=
      exists l,
        calls (snd run) = (calls st ++ l)%list
        /\ forallb (fun c => negb (is_kill c)) l = true
        /\ (forall data r,
              In (CCreateJob data r) l ->
              exists old,
                w_findJob world (calls st) jobId = Row (Some old)
                /\ n_projectId data = j_projectId old
                /\ n_issueNo data = j_issueNo old
                /\ n_issueTitle data = j_issueTitle old
                /\ n_description data = j_description old
                /\ n_type data = JStr (j_type old)
                /\ n_status data = "running")
        /\ (forall job p f,
              In (CRunWorker job p f) l ->
              exists old data,
                w_findJob world (calls st) jobId = Row (Some old)
                /\ l = [CFindJob jobId (Row (Some old)); CCreateJob data (Row job);
                        CRunWorker job p f]
                /\ p = j_project old
                /\ followUp old f
                /\ fst run = inl {| code := 201; payload := JobPayload job |}
                /\ In (j_id job) (activeWorkers (snd run)))
        /\ ((forall job p f, ~ In (CRunWorker job p f) l) ->
            activeWorkers (snd run) = activeWorkers st
            /\ forall job, fst run <> inl {| code := 201; payload := JobPayload job |}) in
    copies (postRetry world jobId st)
      (fun old f => f = None /\ j_status old <> "running")
    /\ copies (postFollowup P world jobId body st)
         (fun old f =>
            exists branch message,
              j_branch old = Some branch /\ nonempty branch = true
              /\ Val.get_opt body "message" = JStr message
              /\ nonempty (trim message) = true
              /\ f = Some {| f_branch := branch; f_message := trim message;
                             f_previousDiff := j_diff old |})
    /\ (forall old,
          w_findJob world (calls st) jobId = Row (Some old) ->
          j_status old = "running" ->
          calls (snd (postRetry world jobId st)) =
          (calls st ++ [CFindJob jobId (Row (Some old))])%list
          /\ fst (postRetry world jobId st) =
             inl {| code := 200; payload := JobPayload old |}).
Proof.
  intros jobId body st. cbv zeta.
  assert (Idle : forall (l : list Call) (out : Reply + Fault) (st' : SState)
                        (followUp : JobRow -> option FollowUp -> Prop),
             calls st' = (calls st ++ l)%list ->
             activeWorkers st' = activeWorkers st ->
             (forall job, out <> inl {| code := 201; payload := JobPayload job |}) ->
             (l = [CFindJob jobId (w_findJob world (calls st) jobId)]
              \/ exists old m,
                  w_findJob world (calls st) jobId = Row (Some old)
                  /\ l = [CFindJob jobId (Row (Some old));
                          CCreateJob (again old) (DbFails m)]) ->
             exists l,
               calls (snd (out, st')) = (calls st ++ l)%list
               /\ forallb (fun c => negb (is_kill c)) l = true
               /\ (forall data r,
                      In (CCreateJob data r) l ->
                      exists old,
                        w_findJob world (calls st) jobId = Row (Some old)
                        /\ n_projectId data = j_projectId old
                        /\ n_issueNo data = j_issueNo old
                        /\ n_issueTitle data = j_issueTitle old
                        /\ n_description data = j_description old
                        /\ n_type data = JStr (j_type old)
                        /\ n_status data = "running")
               /\ (forall job p f,
                      In (CRunWorker job p f) l ->
                      exists old data,
                        w_findJob world (calls st) jobId = Row (Some old)
                        /\ l = [CFindJob jobId (Row (Some old)); CCreateJob data (Row job);
                                CRunWorker job p f]
                        /\ p = j_project old
                        /\ followUp old f
                        /\ fst (out, st') = inl {| code := 201; payload := JobPayload job |}
                        /\ In (j_id job) (activeWorkers (snd (out, st'))))
               /\ ((forall job p f, ~ In (CRunWorker job p f) l) ->
                   activeWorkers (snd (out, st')) = activeWorkers st
                   /\ forall job, fst (out, st')
                                  <> inl {| code := 201; payload := JobPayload job |})).
  { intros l out st' followUp Hc Ha Ho Hl. exists l. split; [exact Hc |].
    destruct Hl as [-> | [old [m [Ef ->]]]].
    - split; [reflexivity |]. split; [intros data r [H | []]; discriminate |].
      split; [intros job p f [H | []]; discriminate |].
      intros _. split; [exact Ha | exact Ho].
    - split; [reflexivity |]. split.
      + intros data r [H | [H | []]]; [discriminate |]. injection H as <- <-.
        exists old. repeat split; auto.
      + split; [intros job p f [H | [H | []]]; discriminate |].
        intros _. split; [exact Ha | exact Ho]. }
  assert (Started : forall old job f (followUp : JobRow -> option FollowUp -> Prop),
             w_findJob world (calls st) jobId = Row (Some old) ->
             followUp old f ->
             let st' := snd (runWorker job (j_project old) f
                               (call (CCreateJob (again old) (Row job))
                                  (call (CFindJob jobId (Row (Some old))) st))) in
             let out : Reply + Fault := inl {| code := 201; payload := JobPayload job |} in
             exists l,
               calls (snd (out, st')) = (calls st ++ l)%list
               /\ forallb (fun c => negb (is_kill c)) l = true
               /\ (forall data r,
                      In (CCreateJob data r) l ->
                      exists old,
                        w_findJob world (calls st) jobId = Row (Some old)
                        /\ n_projectId data = j_projectId old
                        /\ n_issueNo data = j_issueNo old
                        /\ n_issueTitle data = j_issueTitle old
                        /\ n_description data = j_description old
                        /\ n_type data = JStr (j_type old)
                        /\ n_status data = "running")
               /\ (forall job p f,
                      In (CRunWorker job p f) l ->
                      exists old data,
                        w_findJob world (calls st) jobId = Row (Some old)
                        /\ l = [CFindJob jobId (Row (Some old)); CCreateJob data (Row job);
                                CRunWorker job p f]
                        /\ p = j_project old
                        /\ followUp old f
                        /\ fst (out, st') = inl {| code := 201; payload := JobPayload job |}
                        /\ In (j_id job) (activeWorkers (snd (out, st'))))
               /\ ((forall job p f, ~ In (CRunWorker job p f) l) ->
                   activeWorkers (snd (out, st')) = activeWorkers st
                   /\ forall job, fst (out, st')
                                  <> inl {| code := 201; payload := JobPayload job |})).
  { intros old job f followUp Ef Hf. cbv zeta.
    exists [CFindJob jobId (Row (Some old)); CCreateJob (again old) (Row job);
            CRunWorker job (j_project old) f].
    cbn [fst snd runWorker call calls activeWorkers].
    split; [now rewrite <- !app_assoc |]. split; [reflexivity |]. split; [| split].
    - intros data r [H | [H | [H | []]]]; try discriminate. injection H as <- <-.
      exists old. repeat split; auto.
    - intros job0 p0 f0 [H | [H | [H | []]]]; try discriminate. injection H as <- <- <-.
      exists old, (again old). repeat split; auto.
      apply in_or_app. right. now left.
    - intros H. exfalso. apply (H job (j_project old) f). do 2 right. now left. }
  split; [| split].
  - unfold postRetry, findJob, createJob, db, bind, ret. cbv beta iota zeta.
    destruct (w_findJob world (calls st) jobId) as [[old|]|m] eqn:Ef.
    2, 3: match goal with
          | |- exists l, calls (snd (?out, ?s)) = _ /\ _ =>
              eapply (Idle _ out s); [reflexivity | reflexivity | discriminate | now left]
          end.
    destruct (String.eqb (j_status old) "running") eqn:Er.
    + match goal with
      | |- exists l, calls (snd (?out, ?s)) = _ /\ _ =>
          eapply (Idle _ out s); [reflexivity | reflexivity | discriminate | now left]
      end.
    + cbn [call calls activeWorkers].
      match goal with
      | |- context [w_createJob world ?h ?d] =>
          destruct (w_createJob world h d) as [job|m] eqn:Ec
      end.
      * apply (Started old job None (fun old f => f = None /\ j_status old <> "running")
                 eq_refl).
        split; [reflexivity |]. intros H. apply String.eqb_eq in H. congruence.
      * match goal with
        | |- exists l, calls (snd (?out, ?s)) = _ /\ _ =>
            eapply (Idle _ out s);
              [cbn; rewrite <- app_assoc; reflexivity | reflexivity | discriminate
              | right; exists old, m; split; reflexivity]
        end.
  - unfold postFollowup, findJob, createJob, db, field, blank, trim_of, Val.get_opt,
      bind, ret, throw.
    cbv beta iota zeta.
    destruct (w_findJob world (calls st) jobId) as [[old|]|m] eqn:Ef.
    2, 3: match goal with
          | |- exists l, calls (snd (?out, ?s)) = _ /\ _ =>
              eapply (Idle _ out s); [reflexivity | reflexivity | discriminate | now left]
          end.
    destruct (j_branch old) as [branch|] eqn:Eb; cbn [Worker.or_null];
      [destruct (nonempty branch) eqn:Nb |].
    2, 3: match goal with
          | |- exists l, calls (snd (?out, ?s)) = _ /\ _ =>
              eapply (Idle _ out s); [reflexivity | reflexivity | discriminate | now left]
          end.
    destruct (Val.get body "message") as [message|] eqn:Em.
    2: match goal with
       | |- exists l, calls (snd (?out, ?s)) = _ /\ _ =>
           eapply (Idle _ out s); [reflexivity | reflexivity | discriminate | now left]
       end.
    destruct (Val.truthy P message) eqn:Tm.
    2: match goal with
       | |- exists l, calls (snd (?out, ?s)) = _ /\ _ =>
           eapply (Idle _ out s); [reflexivity | reflexivity | discriminate | now left]
       end.
    destruct message as [| |bm|lm|message|xs|fs];
      try match goal with
          | |- exists l, calls (snd (?out, ?s)) = _ /\ _ =>
              eapply (Idle _ out s); [reflexivity | reflexivity | discriminate | now left]
          end.
    cbv beta iota zeta. destruct (nonempty (trim message)) eqn:Nm; cbn [negb].
    2: match goal with
       | |- exists l, calls (snd (?out, ?s)) = _ /\ _ =>
           eapply (Idle _ out s); [reflexivity | reflexivity | discriminate | now left]
       end.
    cbn [call calls activeWorkers].
    match goal with
    | |- context [w_createJob world ?h ?d] =>
        destruct (w_createJob world h d) as [job|m] eqn:Ec
    end.
    + apply (Started old job
               (Some {| f_branch := branch; f_message := trim message;
                        f_previousDiff := j_diff old |})
               (fun old f =>
                  exists branch0 message0,
                    j_branch old = Some branch0 /\ nonempty branch0 = true
                    /\ JStr message = JStr message0
                    /\ nonempty (trim message0) = true
                    /\ f = Some {| f_branch := branch0; f_message := trim message0;
                                   f_previousDiff := j_diff old |})
               eq_refl).
      exists branch, message. auto.
    + match goal with
      | |- exists l, calls (snd (?out, ?s)) = _ /\ _ =>
          eapply (Idle _ out s);
            [cbn; rewrite <- app_assoc; reflexivity | reflexivity | discriminate
            | right; exists old, m; split; reflexivity]
      end.
  - intros old Ef Er. unfold postRetry, findJob, db, bind, ret. cbv beta iota zeta.
    rewrite Ef. apply String.eqb_eq in Er. rewrite Er. split; reflexivity.
Qed.

End Input.
End RouteFacts.

(* ===================================================================== *)
(** ** The registry of the providers *)
(* ===================================================================== *)

Module RegistryFacts.
Import Registry.

(** X18.  The providers that [listProviders] shows without [comingSoon]
    are the ones [getProvider] accepts, and the default provider is one of
    them.  For every other name, and so for each provider listed as coming
    soon, [getProvider] throws [Unknown provider: <name>]: the test route
    replies 400 with that message, whatever the test would have answered,
    and the worker throws it. *)
Theorem listed_providers_are_the_ones_accepted :
  forall key : string,
    let available :=
      map name (filter (fun p => negb (comingSoon p)) listProviders) in
    (In key available <-> exists info, getProvider key = inl info)
    /\ (In key available ->
        (forall tested,
            Server.postProviderTest key tested =
            {| Server.code := 200;
               Server.payload := Server.TestPayload (fst tested) (snd tested) |})
        /\ forall st, Worker.getProvider key st = (Normal tt, st))
    /\ (~ In key available ->
        getProvider key = inr ("Unknown provider: " ++ key)
        /\ (forall tested,
               Server.postProviderTest key tested =
               {| Server.code := 400;
                  Server.payload := Server.TestPayload false ("Unknown provider: " ++ key) |})
        /\ forall st, Worker.getProvider key st = (Throw (ErrUnknownProvider key), st))
    /\ (forall p, In p comingSoonProviders -> ~ In (name p) available)
    /\ In DEFAULT_PROVIDER available.
Proof.
  intros key. cbv zeta.
  unfold Server.postProviderTest, Worker.getProvider, getProvider, listProviders,
    providers, comingSoonProviders, DEFAULT_PROVIDER.
  cbn [map filter app comingSoon negb name fst snd get In].
  rewrite (String.eqb_sym key "claude").
  destruct (String.eqb "claude" key) eqn:E.
  - apply String.eqb_eq in E. subst key.
    split; [split; [intros _; eauto | intros _; now left] |].
    split; [intros _; split; reflexivity |].
    split; [intros H; exfalso; apply H; now left |].
    split; [| now left].
    intros p [<- | [<- | []]] [H | []]; discriminate.
  - apply String.eqb_neq in E.
    split; [split; [intros [H | []]; congruence | intros [info H]; discriminate] |].
    split; [intros [H | []]; congruence |].
    split; [intros _; split; [reflexivity | split; reflexivity] |].
    split; [| now left].
    intros p [<- | [<- | []]] [H | []]; discriminate.
Qed.

End RegistryFacts.
